(** * SmartNote: note editor, note card, dashboard orchestrator and
      summarization endpoint

    A shallow embedding of the TypeScript sources

      - [NoteEditor]  (editor modal: [handleSave], [handleKeyDown], [wordCount]),
      - [NoteCard]    (card: [handleSummarize], [truncateText]),
      - [Dashboard]   (orchestrator: [fetchNotes], [saveNote], [deleteNote],
                       [generateSummary], [filteredNotes], the stats),
      - the [summarize-note] edge function ([serve] handler),
      - the [Auth] page ([handleSubmit]) and the [Index] page (its guard),
      - the [notes] table of the SQL migration (primary key, [updated_at]
        trigger),

    together with the properties of the natural-language specification
    that are stated about them.

    Conventions of the embedding.
      - In the model of the page a JavaScript string is a [string]; its
        characters are the code units U+0000..U+00FF.  On this range
        [String.prototype.trim], the regular expression class [\s] and
        [toLowerCase] are the functions [trim], [is_ws] and [toLowerCase]
        of [JsString].
      - The search filter is embedded a second time, in [Search], over
        strings of UTF-16 code units ([Utf16]), where [toLowerCase]
        follows the context of a capital sigma.  The properties of the
        search are stated there, with the range of the text as a
        hypothesis; on the text of the page model the two filters agree
        ([filteredNotes_of_latin1]).
      - The page is a transition system whose steps are the actions of
        the user and the answers to the calls in flight.  Properties of a
        single handler are stated for any state of the list and the
        table; [reachable] adds that this page is the only writer of
        the table, [open_reachable] lets other sessions write between
        the steps.
      - An [async] function is cut at its [await]s.  The part before the
        first [await] runs when the user acts; the part after an [await]
        runs when the awaited call is answered.  A call to the note store
        takes effect on the table at the moment it is answered.
      - Notifications ([toast]), console output, calls to the store and
        calls to the summarization endpoint are recorded, in order, in a
        log of events. *)

From Stdlib Require Import Ascii String List ZArith Lia Bool.
From stdpp Require Import gmap strings list fin_maps sorting.

Local Open Scope list_scope.

(** ** JavaScript strings *)

Module JsString.

(** [\s] of a JavaScript regular expression, and the characters removed by
    [trim]: TAB, LF, VT, FF, CR, SPACE and NBSP (the members of
    WhiteSpace and LineTerminator below U+0100). *)
Definition is_ws (c : ascii) : bool :=
  match nat_of_ascii c with
  | 9 | 10 | 11 | 12 | 13 | 32 | 160 => true
  | _ => false
  end.

(** [s.length] *)
Definition length (s : string) : nat := String.length s.

(** Truthiness of a string: only [''] is falsy. *)
Definition truthy (s : string) : bool :=
  match s with
  | EmptyString => false
  | String _ _ => true
  end.

(** [a || b] on strings. *)
Definition or_else (a b : string) : string := if truthy a then a else b.

Fixpoint trimStart (s : string) : string :=
  match s with
  | EmptyString => EmptyString
  | String c s' => if is_ws c then trimStart s' else s
  end.

Fixpoint trimEnd (s : string) : string :=
  match s with
  | EmptyString => EmptyString
  | String c s' =>
      match trimEnd s' with
      | EmptyString => if is_ws c then EmptyString else String c EmptyString
      | r => String c r
      end
  end.

(** [s.trim()] *)
Definition trim (s : string) : string := trimEnd (trimStart s).

(** [s.split(/\s+/)]: the pieces of [s] between its maximal runs of
    white space.  A run at the very start (or end) of [s] leaves an empty
    first (or last) piece, and [''] splits into the single piece ['']. *)
Fixpoint split_ws (s : string) : list string :=
  match s with
  | EmptyString => [EmptyString]
  | String c s' =>
      let r := split_ws s' in
      if is_ws c then
        match s' with
        | String c' _ => if is_ws c' then r else EmptyString :: r
        | EmptyString => EmptyString :: r
        end
      else
        match r with
        | t :: ts => String c t :: ts
        | [] => [String c EmptyString]
        end
  end.

(** [toLowerCase] on one code unit: A-Z, and the Latin-1 capitals
    U+00C0..U+00DE without the multiplication sign U+00D7.  Below U+0100
    no lowercase depends on the context, so that a string is lowered
    code unit by code unit; [Utf16.toLowerCase] is the function on
    longer ranges. *)
Definition lower_char (c : ascii) : ascii :=
  let n := nat_of_ascii c in
  if ((65 <=? n) && (n <=? 90))%nat then ascii_of_nat (n + 32)
  else if ((192 <=? n) && (n <=? 222) && negb (n =? 215))%nat
       then ascii_of_nat (n + 32)
       else c.

Fixpoint toLowerCase (s : string) : string :=
  match s with
  | EmptyString => EmptyString
  | String c s' => String (lower_char c) (toLowerCase s')
  end.

(** [s.startsWith(t)] *)
Fixpoint startsWith (t s : string) : bool :=
  match t, s with
  | EmptyString, _ => true
  | String a t', String b s' => if Ascii.eqb a b then startsWith t' s' else false
  | String _ _, EmptyString => false
  end.

(** [s.includes(t)]: [t] occurs in [s] at some position. *)
Fixpoint includes (s t : string) : bool :=
  startsWith t s ||
  match s with
  | EmptyString => false
  | String _ s' => includes s' t
  end.

(** [text.substring(0, n)] *)
Fixpoint take (n : nat) (s : string) : string :=
  match n, s with
  | 0, _ => EmptyString
  | S n', String c s' => String c (take n' s')
  | S _, EmptyString => EmptyString
  end.

End JsString.

Import JsString.

(** ** The data model *)

(** A note as the client holds it: one row of [select('*')].  [summary]
  is [None] for SQL NULL.  The two timestamps are instants. *)
Module Note.
Record t := mk {
  id : string;
  user_id : string;
  title : string;
  content : string;
  summary : option string;
  created_at : N;
  updated_at : N }.

#[global] Instance eq_dec : EqDecision t.
Proof. solve_decision. Defined.

(** [{ ...note, ...data }] where [data] is a full row: every column of
    [data] overrides the one of [note]. *)
Definition merge (note data : t) : t :=
  {| id := id data;
     user_id := user_id data;
     title := title data;
     content := content data;
     summary := summary data;
     created_at := created_at data;
     updated_at := updated_at data |}.

(** [{ ...note, summary: s }] *)
Definition with_summary (note : t) (s : string) : t :=
  {| id := id note;
     user_id := user_id note;
     title := title note;
     content := content note;
     summary := Some s;
     created_at := created_at note;
     updated_at := updated_at note |}.
End Note.

(** ** The note store: table [public.notes] *)

Module Store.

(** The columns of a row other than its primary key [id]. *)
Record Row := mkRow {
  user_id : string;
  title : string;
  content : string;
  summary : option string;
  created_at : N;
  updated_at : N }.

(** The table, keyed by the primary key. *)
Abbreviation Table := (gmap string Row).

Definition to_note (k : string) (r : Row) : Note.t :=
  {| Note.id := k;
     Note.user_id := user_id r;
     Note.title := title r;
     Note.content := content r;
     Note.summary := summary r;
     Note.created_at := created_at r;
     Note.updated_at := updated_at r |}.

(** What a call to the store answers. *)
Inductive Result (A : Type) :=
| Ok (data : A)
| Err (message : string).
Arguments Ok {A} data.
Arguments Err {A} message.

(** [order('updated_at', { ascending: false })] *)
Definition newer_first (a b : Note.t) : Prop :=
  (Note.updated_at b <= Note.updated_at a)%N.

#[global] Instance newer_first_dec a b : Decision (newer_first a b).
Proof. unfold newer_first. apply _. Defined.

(** [select('*').eq('user_id', uid).order(...)] *)
Definition select_all (uid : string) (tb : Table) : list Note.t :=
  merge_sort newer_first
    (filter (fun n => Note.user_id n = uid)
            (map (fun kr => to_note (fst kr) (snd kr)) (map_to_list tb))).

(** [update({title, content}).eq('id', k).eq('user_id', uid).select().single()]
    The trigger [update_notes_updated_at] sets [updated_at] to the time
    of the update.  [single()] is an error when no row matches. *)
Definition update_note (uid k t c : string) (now : N) (tb : Table)
  : Table * Result Note.t :=
  match tb !! k with
  | Some r =>
      if decide (user_id r = uid) then
        let r' := {| user_id := user_id r; title := t; content := c;
                     summary := summary r; created_at := created_at r;
                     updated_at := now |} in
        (<[k := r']> tb, Ok (to_note k r'))
      else (tb, Err "JSON object requested, multiple (or no) rows returned")
  | None => (tb, Err "JSON object requested, multiple (or no) rows returned")
  end.

(** [insert({title, content, user_id}).select().single()]
    [k] is the key drawn by [gen_random_uuid()]; [summary] defaults to
    NULL and both timestamps to the time of the insert.  A key already
    in the table violates the primary key. *)
Definition insert_note (uid k t c : string) (now : N) (tb : Table)
  : Table * Result Note.t :=
  match tb !! k with
  | Some _ => (tb, Err "duplicate key value violates unique constraint")
  | None =>
      let r := {| user_id := uid; title := t; content := c;
                  summary := None; created_at := now;
                  updated_at := now |} in
      (<[k := r]> tb, Ok (to_note k r))
  end.

(** [delete().eq('id', k).eq('user_id', uid)]: no row matching is not an
    error. *)
Definition delete_note (uid k : string) (tb : Table) : Table :=
  match tb !! k with
  | Some r => if decide (user_id r = uid) then delete k tb else tb
  | None => tb
  end.

(** [update({summary: s}).eq('id', k).eq('user_id', uid)]: no row
    matching is not an error; the trigger refreshes [updated_at]. *)
Definition update_summary (uid k s : string) (now : N) (tb : Table) : Table :=
  match tb !! k with
  | Some r =>
      if decide (user_id r = uid) then
        <[k := {| user_id := user_id r; title := title r;
                  content := content r; summary := Some s;
                  created_at := created_at r; updated_at := now |}]> tb
      else tb
  | None => tb
  end.

End Store.

(** ** Notifications *)

(** The argument of [toast({title, description, variant})];
    [destructive] is [variant: "destructive"]. *)
Record Notice := mkNotice {
  notice_title : string;
  notice_description : string;
  destructive : bool }.

(** ** The note editor *)

(** What the editor reports to [onSave]: [{id?, title, content}]. *)
Module Payload.
Record t := mk {
  id : option string;
  title : string;
  content : string }.
End Payload.

Module Editor.

Record Props := mkProps {
  note : option Note.t;
  isLoading : bool }.

(** The two [useState] cells of the editor. *)
Record State := mkState {
  title : string;
  content : string }.

(** The part of a [React.KeyboardEvent] the handler reads. *)
Record KeyEvent := mkKey {
  ctrlKey : bool;
  key : string }.

(** What a handler of the editor does to the outside. *)
Inductive Call :=
| PreventDefault
| OnSave (p : Payload.t)
| OnCancel.

(** The [useEffect] that seeds the fields from [note]. *)
Definition seed (note : option Note.t) : State :=
  match note with
  | Some n => {| title := or_else (Note.title n) ""; content := or_else (Note.content n) "" |}
  | None => {| title := ""; content := "" |}
  end.

Definition handleSave (pr : Props) (st : State) : list Call :=
  let trimmedTitle := trim (title st) in
  let trimmedContent := trim (content st) in
  if negb (truthy trimmedTitle) && negb (truthy trimmedContent) then
    []
  else
    [OnSave {| Payload.id := option_map Note.id (note pr);
               Payload.title := or_else trimmedTitle "Untitled Note";
               Payload.content := trimmedContent |}].

Definition handleKeyDown (pr : Props) (st : State) (e : KeyEvent) : list Call :=
  (if ctrlKey e && String.eqb (key e) "Enter"
   then PreventDefault :: handleSave pr st else [])
  ++
  (if String.eqb (key e) "Escape"
   then [PreventDefault; OnCancel] else []).

(** [content.trim().split(/\s+/).filter(word => word.length > 0).length] *)
Definition wordCount (content : string) : nat :=
  List.length
    (List.filter (fun word => 0 <? JsString.length word)
                 (split_ws (trim content))).

Definition charCount (content : string) : nat := JsString.length content.

(** The [disabled] attributes of the two footer buttons. *)
Definition cancelDisabled (pr : Props) : bool := isLoading pr.

Definition saveDisabled (pr : Props) (st : State) : bool :=
  isLoading pr || (negb (truthy (trim (title st))) && negb (truthy (trim (content st)))).

(** A click on a disabled button runs no handler. *)
Definition clickSave (pr : Props) (st : State) : list Call :=
  if saveDisabled pr st then [] else handleSave pr st.

Definition clickCancel (pr : Props) : list Call :=
  if cancelDisabled pr then [] else [OnCancel].

(** The close button of the header has no [disabled] attribute. *)
Definition clickClose : list Call := [OnCancel].

End Editor.

(** ** The note card *)

Module Card.

Inductive Call :=
| Notify (n : Notice)
| OnEdit (note : Note.t)
| OnDelete (id : string)
| OnSummarize (noteId title content : string).

Definition cannot_summarize : Notice :=
  {| notice_title := "Cannot summarize";
     notice_description := "Please add some content to the note first.";
     destructive := true |}.

Definition handleSummarize (note : Note.t) : list Call :=
  if negb (truthy (trim (Note.content note))) then
    [Notify cannot_summarize]
  else
    [OnSummarize (Note.id note) (Note.title note) (Note.content note)].

(** The summarize button is [disabled={isGeneratingSummary}]. *)
Definition clickSummarize (isGeneratingSummary : bool) (note : Note.t) : list Call :=
  if isGeneratingSummary then [] else handleSummarize note.

(** [{note.content.split(/\s+/).length} words] *)
Definition words (note : Note.t) : nat := List.length (split_ws (Note.content note)).

Definition truncateText (text : string) (maxLength : nat) : string :=
  if JsString.length text <=? maxLength then text
  else take maxLength text +:+ "...".

(** [showFullContent ? note.content : truncateText(note.content, 200)] *)
Definition contentPreview (showFullContent : bool) (note : Note.t) : string :=
  if showFullContent then Note.content note
  else truncateText (Note.content note) 200.

(** The toggle is rendered under [note.content.length > 200]. *)
Definition showsToggle (note : Note.t) : bool :=
  200 <? JsString.length (Note.content note).

(** [{note.title || 'Untitled Note'}] *)
Definition shownTitle (note : Note.t) : string :=
  or_else (Note.title note) "Untitled Note".

End Card.

(** ** The dashboard *)

Module Dashboard.

(** The [useState] cells of the component. *)
Record State := mkState {
  notes : list Note.t;
  searchTerm : string;
  isEditorOpen : bool;
  editingNote : option Note.t;
  loading : bool;
  savingNote : bool;
  generatingSummary : option string }.

Definition initial : State :=
  {| notes := []; searchTerm := ""; isEditorOpen := false;
     editingNote := None; loading := true; savingNote := false;
     generatingSummary := None |}.

Definition setNotes (f : list Note.t -> list Note.t) (s : State) : State :=
  {| notes := f (notes s); searchTerm := searchTerm s;
     isEditorOpen := isEditorOpen s; editingNote := editingNote s;
     loading := loading s; savingNote := savingNote s;
     generatingSummary := generatingSummary s |}.

Definition setSearchTerm (v : string) (s : State) : State :=
  {| notes := notes s; searchTerm := v;
     isEditorOpen := isEditorOpen s; editingNote := editingNote s;
     loading := loading s; savingNote := savingNote s;
     generatingSummary := generatingSummary s |}.

Definition setIsEditorOpen (v : bool) (s : State) : State :=
  {| notes := notes s; searchTerm := searchTerm s;
     isEditorOpen := v; editingNote := editingNote s;
     loading := loading s; savingNote := savingNote s;
     generatingSummary := generatingSummary s |}.

Definition setEditingNote (v : option Note.t) (s : State) : State :=
  {| notes := notes s; searchTerm := searchTerm s;
     isEditorOpen := isEditorOpen s; editingNote := v;
     loading := loading s; savingNote := savingNote s;
     generatingSummary := generatingSummary s |}.

Definition setLoading (v : bool) (s : State) : State :=
  {| notes := notes s; searchTerm := searchTerm s;
     isEditorOpen := isEditorOpen s; editingNote := editingNote s;
     loading := v; savingNote := savingNote s;
     generatingSummary := generatingSummary s |}.

Definition setSavingNote (v : bool) (s : State) : State :=
  {| notes := notes s; searchTerm := searchTerm s;
     isEditorOpen := isEditorOpen s; editingNote := editingNote s;
     loading := loading s; savingNote := v;
     generatingSummary := generatingSummary s |}.

Definition setGeneratingSummary (v : option string) (s : State) : State :=
  {| notes := notes s; searchTerm := searchTerm s;
     isEditorOpen := isEditorOpen s; editingNote := editingNote s;
     loading := loading s; savingNote := savingNote s;
     generatingSummary := v |}.

(** What the component does to the outside, in the order it does it. *)
Inductive Event :=
| Toast (n : Notice)
| ConsoleError (what : string)
| Select (uid : string)
| Update (id uid title content : string)
| Insert (uid title content : string)
| Delete (id uid : string)
| UpdateSummary (id uid summary : string)
| Invoke (title content : string).

(** An [await] that has not been answered yet, with what the rest of the
    function needs once it is. *)
Inductive Await :=
| AwaitSelect (uid : string)
| AwaitUpdate (id uid title content : string)
| AwaitInsert (uid title content : string)
| AwaitDelete (noteId uid : string)
| AwaitInvoke (noteId title content : string)
| AwaitSummary (noteId uid summary : string).

(** How an awaited call is answered.  [fault = Some m]: the call fails
    with message [m] and a store call leaves the table as it is; the
    awaited promise then resolves with [{error}], or rejects when [thrown]
    is set.  Otherwise the store runs at time [now], [fresh_id] is the
    key [gen_random_uuid()] draws for an insert, and [reply] is the
    [summary] field of the data the summarization endpoint returns
    ([None] when there is no data or no such field). *)
Record Env := mkEnv {
  fault : option string;
  thrown : bool;
  now : N;
  fresh_id : string;
  reply : option string }.

(** The component in its surroundings: the signed-in user, the component
    state, the table, the calls in flight and the log. *)
Record World := mkWorld {
  user : option string;
  ui : State;
  table : Store.Table;
  pending : list Await;
  log : list Event }.

Definition render (f : State -> State) (w : World) : World :=
  {| user := user w; ui := f (ui w); table := table w;
     pending := pending w; log := log w |}.

Definition emit (es : list Event) (w : World) : World :=
  {| user := user w; ui := ui w; table := table w;
     pending := pending w; log := log w ++ es |}.

Definition await (a : Await) (w : World) : World :=
  {| user := user w; ui := ui w; table := table w;
     pending := pending w ++ [a]; log := log w |}.

Definition store (tb : Store.Table) (w : World) : World :=
  {| user := user w; ui := ui w; table := tb;
     pending := pending w; log := log w |}.

Definition answered (i : nat) (w : World) : World :=
  {| user := user w; ui := ui w; table := table w;
     pending := delete i (pending w); log := log w |}.

(** The answer of the store to a call [op], under [env]. *)
Definition store_call {A} (env : Env) (w : World)
    (op : Store.Table -> Store.Table * Store.Result A)
  : Store.Table * Store.Result A :=
  match fault env with
  | Some m => (table w, Store.Err m)
  | None => op (table w)
  end.

Definition error_toast (t d : string) : Event :=
  Toast {| notice_title := t; notice_description := d; destructive := true |}.

Definition info_toast (t d : string) : Event :=
  Toast {| notice_title := t; notice_description := d; destructive := false |}.

(** *** [fetchNotes] *)

Definition fetchNotes (w : World) : World :=
  match user w with
  | None => w
  | Some uid => await (AwaitSelect uid) (emit [Select uid] w)
  end.

Definition fetchNotes_answered (uid : string) (env : Env) (w : World) : World :=
  match store_call env w (fun tb => (tb, Store.Ok (Store.select_all uid tb))) with
  | (_, Store.Err m) =>
      render (setLoading false)
        (if thrown env then
           emit [ConsoleError "Error fetching notes:";
                 error_toast "Error" "Failed to load notes"] w
         else
           emit [error_toast "Error fetching notes" m] w)
  | (_, Store.Ok data) =>
      render (setLoading false) (render (setNotes (fun _ => data)) w)
  end.

(** *** [saveNote] *)

Definition saveNote (noteData : Payload.t) (w : World) : World :=
  match user w with
  | None => w
  | Some uid =>
      let w1 := render (setSavingNote true) w in
      let create :=
        await (AwaitInsert uid (Payload.title noteData) (Payload.content noteData))
          (emit [Insert uid (Payload.title noteData) (Payload.content noteData)] w1) in
      match Payload.id noteData with
      | Some k =>
          if truthy k then
            await (AwaitUpdate k uid (Payload.title noteData) (Payload.content noteData))
              (emit [Update k uid (Payload.title noteData) (Payload.content noteData)] w1)
          else create
      | None => create
      end
  end.

(** The [catch] and [finally] blocks of [saveNote]. *)
Definition saveNote_failed (w : World) : World :=
  render (setSavingNote false)
    (emit [ConsoleError "Error saving note:";
           error_toast "Error saving note" "Please try again"] w).

(** The end of the [try] block and the [finally] block of [saveNote]. *)
Definition saveNote_done (w : World) : World :=
  render (setSavingNote false)
    (render (setEditingNote None)
       (render (setIsEditorOpen false) w)).

Definition saveNote_update_answered (k uid t c : string) (env : Env) (w : World) : World :=
  match store_call env w (Store.update_note uid k t c (now env)) with
  | (_, Store.Err _) => saveNote_failed w
  | (tb, Store.Ok data) =>
      saveNote_done
        (emit [info_toast "Note updated" "Your changes have been saved successfully."]
           (render (setNotes (map (fun note =>
                       if String.eqb (Note.id note) k
                       then Note.merge note data else note)))
              (store tb w)))
  end.

Definition saveNote_insert_answered (uid t c : string) (env : Env) (w : World) : World :=
  match store_call env w (Store.insert_note uid (fresh_id env) t c (now env)) with
  | (_, Store.Err _) => saveNote_failed w
  | (tb, Store.Ok data) =>
      saveNote_done
        (emit [info_toast "Note created" "Your new note has been saved successfully."]
           (render (setNotes (fun prev => data :: prev))
              (store tb w)))
  end.

(** *** [deleteNote] *)

Definition deleteNote (noteId : string) (w : World) : World :=
  match user w with
  | None => w
  | Some uid => await (AwaitDelete noteId uid) (emit [Delete noteId uid] w)
  end.

Definition deleteNote_answered (noteId uid : string) (env : Env) (w : World) : World :=
  match store_call env w
          (fun tb => (Store.delete_note uid noteId tb, Store.Ok tt)) with
  | (_, Store.Err _) =>
      emit [ConsoleError "Error deleting note:";
            error_toast "Error deleting note" "Please try again"] w
  | (tb, Store.Ok _) =>
      emit [info_toast "Note deleted" "The note has been removed successfully."]
        (render (setNotes (List.filter (fun note =>
                    negb (String.eqb (Note.id note) noteId))))
           (store tb w))
  end.

(** *** [generateSummary] *)

(** The [catch] and [finally] blocks of [generateSummary]; [m] is
    [err.message]. *)
Definition generateSummary_failed (m : string) (w : World) : World :=
  render (setGeneratingSummary None)
    (emit [ConsoleError "Error generating summary:";
           error_toast "Failed to generate summary"
                       (or_else m "Please try again later")] w).

Definition generateSummary (noteId title content : string) (w : World) : World :=
  if negb (truthy (trim content)) then
    emit [Toast Card.cannot_summarize] w
  else
    await (AwaitInvoke noteId title content)
      (emit [Invoke title content]
         (render (setGeneratingSummary (Some noteId)) w)).

(** After [await supabase.functions.invoke(...)]: up to the next [await]. *)
Definition generateSummary_invoke_answered (noteId : string) (env : Env) (w : World) : World :=
  match fault env with
  | Some m => generateSummary_failed m w
  | None =>
      match reply env with
      | Some s =>
          if truthy s then
            match user w with
            | Some uid =>
                await (AwaitSummary noteId uid s)
                  (emit [UpdateSummary noteId uid s] w)
            | None =>
                generateSummary_failed "Cannot read properties of null (reading 'id')" w
            end
          else generateSummary_failed "No summary received" w
      | None => generateSummary_failed "No summary received" w
      end
  end.

(** After [await supabase.from('notes').update({ summary })...]. *)
Definition generateSummary_update_answered (noteId uid s : string) (env : Env) (w : World) : World :=
  match store_call env w
          (fun tb => (Store.update_summary uid noteId s (now env) tb, Store.Ok tt)) with
  | (_, Store.Err m) => generateSummary_failed m w
  | (tb, Store.Ok _) =>
      render (setGeneratingSummary None)
        (emit [info_toast "Summary generated!" "AI has successfully summarized your note."]
           (render (setNotes (map (fun note =>
                       if String.eqb (Note.id note) noteId
                       then Note.with_summary note s else note)))
              (store tb w)))
  end.

(** *** The small handlers *)

Definition handleEditNote (note : Note.t) (w : World) : World :=
  render (setIsEditorOpen true) (render (setEditingNote (Some note)) w).

Definition handleCreateNote (w : World) : World :=
  render (setIsEditorOpen true) (render (setEditingNote None) w).

(** The [onCancel] given to the editor. *)
Definition closeEditor (w : World) : World :=
  render (setEditingNote None) (render (setIsEditorOpen false) w).

(** *** Derived values *)

(** [note.summary && note.summary.toLowerCase().includes(...)] and
    [n.summary] as conditions. *)
Definition summary_and (o : option string) (f : string -> bool) : bool :=
  match o with
  | Some s => truthy s && f s
  | None => false
  end.

Definition matches (searchTerm : string) (note : Note.t) : bool :=
  includes (toLowerCase (Note.title note)) (toLowerCase searchTerm)
  || includes (toLowerCase (Note.content note)) (toLowerCase searchTerm)
  || summary_and (Note.summary note)
       (fun s => includes (toLowerCase s) (toLowerCase searchTerm)).

Definition filteredNotes (s : State) : list Note.t :=
  List.filter (matches (searchTerm s)) (notes s).



Definition totalWords (s : State) : nat :=
  fold_left (fun acc note => acc + List.length (split_ws (Note.content note)))
            (notes s) 0.

(** *** The component as a transition system *)

Definition editorProps (s : State) : Editor.Props :=
  {| Editor.note := editingNote s; Editor.isLoading := savingNote s |}.

(** The dashboard gives [saveNote] and [closeEditor] to the editor. *)
Definition editor_call (c : Editor.Call) (w : World) : World :=
  match c with
  | Editor.PreventDefault => w
  | Editor.OnSave p => saveNote p w
  | Editor.OnCancel => closeEditor w
  end.

(** ... and [handleEditNote], [deleteNote], [generateSummary] to a card. *)
Definition card_call (c : Card.Call) (w : World) : World :=
  match c with
  | Card.Notify n => emit [Toast n] w
  | Card.OnEdit note => handleEditNote note w
  | Card.OnDelete k => deleteNote k w
  | Card.OnSummarize k t c => generateSummary k t c w
  end.

Definition run {C} (call : C -> World -> World) (cs : list C) (w : World) : World :=
  fold_left (fun w c => call c w) cs w.

Definition resume (a : Await) (env : Env) (w : World) : World :=
  match a with
  | AwaitSelect uid => fetchNotes_answered uid env w
  | AwaitUpdate k uid t c => saveNote_update_answered k uid t c env w
  | AwaitInsert uid t c => saveNote_insert_answered uid t c env w
  | AwaitDelete k uid => deleteNote_answered k uid env w
  | AwaitInvoke k _ _ => generateSummary_invoke_answered k env w
  | AwaitSummary k uid s => generateSummary_update_answered k uid s env w
  end.

(** What can happen next: an effect runs, the user acts on something the
    page shows, or a call in flight is answered. *)
Inductive Label :=
| Mount
| TypeSearch (term : string)
| ClickNew
| ClickEdit (note : Note.t)
| ClickDelete (note : Note.t)
| ClickSummarize (note : Note.t)
| EditorKeyDown (ed : Editor.State) (e : Editor.KeyEvent)
| EditorClickSave (ed : Editor.State)
| EditorClickCancel
| EditorClickClose
| Answer (i : nat) (env : Env).

(** [isGeneratingSummary={generatingSummary === note.id}] *)
Definition isGeneratingSummary (noteId : string) (s : State) : bool :=
  bool_decide (generatingSummary s = Some noteId).

(** The cards exist when the page is loaded and the note passes the
    filter; the editor exists when the page is loaded and it is open. *)
Definition shows_card (note : Note.t) (s : State) : bool :=
  negb (loading s) && bool_decide (note ∈ filteredNotes s).

Definition shows_editor (s : State) : bool :=
  negb (loading s) && isEditorOpen s.

Definition step (l : Label) (w : World) : option World :=
  match l with
  | Mount => Some (fetchNotes w)
  | TypeSearch term =>
      if loading (ui w) then None
      else Some (render (setSearchTerm term) w)
  | ClickNew =>
      if loading (ui w) then None else Some (handleCreateNote w)
  | ClickEdit note =>
      if shows_card note (ui w)
      then Some (run card_call [Card.OnEdit note] w) else None
  | ClickDelete note =>
      if shows_card note (ui w)
      then Some (run card_call [Card.OnDelete (Note.id note)] w) else None
  | ClickSummarize note =>
      if shows_card note (ui w)
      then Some (run card_call
                   (Card.clickSummarize
                      (isGeneratingSummary (Note.id note) (ui w))
                      note) w)
      else None
  | EditorKeyDown ed e =>
      if shows_editor (ui w)
      then Some (run editor_call (Editor.handleKeyDown (editorProps (ui w)) ed e) w)
      else None
  | EditorClickSave ed =>
      if shows_editor (ui w)
      then Some (run editor_call (Editor.clickSave (editorProps (ui w)) ed) w)
      else None
  | EditorClickCancel =>
      if shows_editor (ui w)
      then Some (run editor_call (Editor.clickCancel (editorProps (ui w))) w)
      else None
  | EditorClickClose =>
      if shows_editor (ui w)
      then Some (run editor_call Editor.clickClose w)
      else None
  | Answer i env =>
      match pending w !! i with
      | Some a => Some (resume a env (answered i w))
      | None => None
      end
  end.

(** The page right after the component is created for [uid], over any
    table. *)
Definition start (uid : option string) (tb : Store.Table) : World :=
  {| user := uid; ui := initial; table := tb; pending := []; log := [] |}.

Inductive reachable : World -> Prop :=
| reach_start uid tb : reachable (start uid tb)
| reach_step w l w' : reachable w -> step l w = Some w' -> reachable w'.

(** Running a list of labels. *)
Fixpoint steps (ls : list Label) (w : World) : option World :=
  match ls with
  | [] => Some w
  | l :: ls' =>
      match step l w with
      | Some w' => steps ls' w'
      | None => None
      end
  end.

(** *** What the page shows *)

(** The four bodies of the page: the spinner, the two empty states and
    the grid of cards. *)
Inductive View :=
| Spinner
| NoNotesYet
| NoMatchingNotes
| Grid (cards : list Note.t).

Definition view (s : State) : View :=
  if loading s then Spinner
  else
    match filteredNotes s with
    | [] =>
        match notes s with
        | [] => NoNotesYet
        | _ :: _ => NoMatchingNotes
        end
    | _ :: _ => Grid (filteredNotes s)
    end.

(** [s.split('@')[0]]: the text before the first '@'. *)
Fixpoint before_at (s : string) : string :=
  match s with
  | EmptyString => EmptyString
  | String c s' => if Ascii.eqb c "@" then EmptyString else String c (before_at s')
  end.

(** [user?.email?.split('@')[0] || 'User']; [email] is [None] when there
    is no user or the user has no email. *)
Definition welcomeName (email : option string) : string :=
  or_else (match email with
           | Some e => before_at e
           | None => EmptyString
           end) "User".

End Dashboard.

(** ** The [summarize-note] edge function *)

Module Edge.

(** A value produced by [JSON.parse]. *)
#[warnings="-register-all"]
Inductive Json :=
| JNull
| JBool (b : bool)
| JNum (z : Z)
| JStr (s : string)
| JArr (items : list Json)
| JObj (fields : list (string * Json)).

(** A JavaScript value here is a parsed value or [undefined] ([None]). *)
Definition Value := option Json.

(** [!!v] *)
Definition truthy_value (v : Value) : bool :=
  match v with
  | None => false
  | Some JNull => false
  | Some (JBool b) => b
  | Some (JNum z) => negb (z =? 0)%Z
  | Some (JStr s) => truthy s
  | Some (JArr _) => true
  | Some (JObj _) => true
  end.

(** A computation that returns or throws. *)
Inductive Try (A : Type) :=
| Returned (a : A)
| Thrown (message : string).
Arguments Returned {A} a.
Arguments Thrown {A} message.

Definition bind {A B} (m : Try A) (k : A -> Try B) : Try B :=
  match m with
  | Returned a => k a
  | Thrown e => Thrown e
  end.

(** The field of an object written last wins, as in [JSON.parse]. *)
Fixpoint field (key : string) (fields : list (string * Json)) : Value :=
  match fields with
  | [] => None
  | (k, v) :: rest =>
      match field key rest with
      | Some v' => Some v'
      | None => if String.eqb k key then Some v else None
      end
  end.

(** [v.key] for a key that is neither an index nor [length]: only an
    object can have it.  Reading a property of [null] or [undefined]
    throws. *)
Definition prop (key : string) (v : Value) : Try Value :=
  match v with
  | None => Thrown "Cannot read properties of undefined"
  | Some JNull => Thrown "Cannot read properties of null"
  | Some (JObj fields) => Returned (field key fields)
  | Some _ => Returned None
  end.

(** [v[0]] *)
Definition first (v : Value) : Try Value :=
  match v with
  | None => Thrown "Cannot read properties of undefined"
  | Some JNull => Thrown "Cannot read properties of null"
  | Some (JArr items) => Returned (head items)
  | Some (JStr (String c _)) => Returned (Some (JStr (String c EmptyString)))
  | Some (JObj fields) => Returned (field "0" fields)
  | Some _ => Returned None
  end.

(** [v?.key] *)
Definition opt_prop (key : string) (v : Value) : Try Value :=
  match v with
  | None => Returned None
  | Some JNull => Returned None
  | _ => prop key v
  end.

(** [data.choices[0]?.message?.content] *)
Definition completion (data : Json) : Try Value :=
  bind (prop "choices" (Some data)) (fun choices =>
  bind (first choices) (fun choice =>
  bind (opt_prop "message" choice) (fun message =>
  opt_prop "content" message))).

(** Whether the conversion of a parsed value to a string returns.  An
    object is converted by its [toString]; a member called ["toString"]
    hides the inherited method, is not callable, and the conversion
    throws.  An array is converted by joining the conversions of its
    items. *)
Fixpoint stringifies (j : Json) : bool :=
  match j with
  | JArr items => forallb stringifies items
  | JObj fields =>
      negb (existsb (fun kv : string * Json => String.eqb (fst kv) "toString") fields)
  | _ => true
  end.

(** [`${v}`] in a template literal; the text itself is not kept. *)
Definition interpolate (v : Value) : Try unit :=
  match v with
  | Some j =>
      if stringifies j then Returned tt
      else Thrown "Cannot convert object to primitive value"
  | None => Returned tt
  end.

Record Request := mkRequest {
  method : string;
  json : Try Json }.

(** The upstream answer: [ok] and what [response.json()] gives. *)
Record Upstream := mkUpstream {
  ok : bool;
  upstream_json : Try Json }.

(** A [Response]; [body] is the value given to [JSON.stringify], or
    [None] for the [null] body. *)
Record Response := mkResponse {
  status : Z;
  headers : list (string * string);
  body : option Json }.

Definition corsHeaders : list (string * string) :=
  [("Access-Control-Allow-Origin", "*");
   ("Access-Control-Allow-Headers", "authorization, x-client-info, apikey, content-type")].

Definition jsonHeaders : list (string * string) :=
  corsHeaders ++ [("Content-Type", "application/json")].

Definition error_response (code : Z) (message : string) : Response :=
  {| status := code; headers := jsonHeaders;
     body := Some (JObj [("error", JStr message)]) |}.

(** The [try] block; [fetched] is what [await fetch(...)] gives.  The
    request to the upstream is built before the call: its prompt
    interpolates [title || 'Untitled'] and [content]. *)
Definition respond (req : Request) (fetched : Try Upstream) : Try Response :=
  bind (json req) (fun parsed =>
  bind (prop "content" (Some parsed)) (fun content =>
  bind (prop "title" (Some parsed)) (fun title =>
  if negb (truthy_value content) then
    Returned (error_response 400 "Content is required")
  else
    bind (interpolate (if truthy_value title then title
                       else Some (JStr "Untitled"))) (fun _ =>
    bind (interpolate content) (fun _ =>
    bind fetched (fun response =>
    if negb (ok response) then
      Returned (error_response 500 "Failed to generate summary")
    else
      bind (upstream_json response) (fun data =>
      bind (completion data) (fun summary =>
      match summary with
      | Some s =>
          if truthy_value summary then
            Returned {| status := 200; headers := jsonHeaders;
                        body := Some (JObj [("summary", s)]) |}
          else Returned (error_response 500 "No summary generated")
      | None => Returned (error_response 500 "No summary generated")
      end)))))))).

(** The handler given to [serve]. *)
Definition handler (req : Request) (fetched : Try Upstream) : Response :=
  if String.eqb (method req) "OPTIONS" then
    {| status := 200; headers := corsHeaders; body := None |}
  else
    match respond req fetched with
    | Returned r => r
    | Thrown m => error_response 500 (or_else m "Internal server error")
    end.

(** Both headers of [corsHeaders] are among the headers of [r]. *)
Definition has_cors (r : Response) : Prop :=
  forall h, In h corsHeaders -> In h (headers r).

Definition is_error (r : Response) : Prop :=
  exists m, body r = Some (JObj [("error", JStr m)]).

End Edge.

(** ** The sign-in page *)

Module Auth.

(** The [useState] cells of the page. *)
Record State := mkState {
  isLogin : bool;
  email : string;
  password : string;
  loading : bool;
  error : string }.

Definition initial : State :=
  {| isLogin := true; email := ""; password := ""; loading := false;
     error := "" |}.

Definition setIsLogin (v : bool) (s : State) : State :=
  {| isLogin := v; email := email s; password := password s;
     loading := loading s; error := error s |}.

Definition setLoading (v : bool) (s : State) : State :=
  {| isLogin := isLogin s; email := email s; password := password s;
     loading := v; error := error s |}.

Definition setError (v : string) (s : State) : State :=
  {| isLogin := isLogin s; email := email s; password := password s;
     loading := loading s; error := v |}.

(** What the page does to the outside. *)
Inductive Event :=
| PreventDefault
| SignIn (email password : string)
| SignUp (email password : string)
| Navigate (path : string)
| Toast (n : Notice)
| ConsoleError (what : string).

(** What [signIn] or [signUp] answers: no error, [{error}] with its
    message, or a rejected promise. *)
Inductive Answer :=
| Succeeded
| Failed (message : string)
| Threw.

(** [handleSubmit] up to its [await]: the new state, what it did, and,
    when a call is in flight, the [isLogin] the rest of the function
    will read. *)
Definition handleSubmit (s : State) : State * list Event * option bool :=
  if negb (truthy (email s)) || negb (truthy (password s)) then
    (setError "Please fill in all fields" s, [PreventDefault], None)
  else
    (setError "" (setLoading true s),
     [PreventDefault;
      if isLogin s then SignIn (email s) (password s)
      else SignUp (email s) (password s)],
     Some (isLogin s)).

(** The message shown for [error.message]. *)
Definition shownError (message : string) : string :=
  if includes message "Invalid login credentials" then
    "Invalid email or password. Please try again."
  else if includes message "User already registered" then
    "An account with this email already exists. Please sign in instead."
  else if includes message "Password should be at least 6 characters" then
    "Password must be at least 6 characters long."
  else or_else message "An error occurred. Please try again.".

(** [handleSubmit] after its [await]. *)
Definition handleSubmit_answered (wasLogin : bool) (a : Answer) (s : State)
  : State * list Event :=
  match a with
  | Failed m => (setLoading false (setError (shownError m) s), [])
  | Succeeded =>
      if negb wasLogin then
        (setLoading false (setIsLogin true s),
         [Toast {| notice_title := "Account created successfully!";
                   notice_description :=
                     "Please check your email to verify your account.";
                   destructive := false |}])
      else (setLoading false s, [Navigate "/"])
  | Threw =>
      (setLoading false
         (setError "An unexpected error occurred. Please try again." s),
       [ConsoleError "Auth error:"])
  end.

(** A submit with its call answered by [a]. *)
Definition submit (a : Answer) (s : State) : State * list Event :=
  match handleSubmit s with
  | (s1, es, Some wasLogin) =>
      let (s2, es') := handleSubmit_answered wasLogin a s1 in (s2, es ++ es')
  | (s1, es, None) => (s1, es)
  end.

(** The [useEffect] of the page: a signed-in user is sent to ["/"]. *)
Definition redirect (user : option string) : option string :=
  match user with
  | Some _ => Some "/"
  | None => None
  end.

End Auth.

(** ** The index page *)

Module Index.

(** What the index page renders. *)
Inductive View :=
| Spinner
| DashboardPage
| Nothing.

(** [if (loading) return ...; return user ? <Dashboard /> : null] *)
Definition view (user : option string) (loading : bool) : View :=
  if loading then Spinner
  else match user with
       | Some _ => DashboardPage
       | None => Nothing
       end.

(** The [useEffect]: [if (!loading && !user) navigate('/auth')]. *)
Definition redirect (user : option string) (loading : bool) : option string :=
  if negb loading && negb (bool_decide (is_Some user)) then Some "/auth"
  else None.

End Index.

(** ** JavaScript strings as UTF-16 code units *)

(** The strings of the page model hold code units below U+0100.  The
    search is embedded a second time over strings of any code units,
    where lowercasing shows its dependence on context. *)
Module Utf16.

(** A string is the list of its code units. *)
Definition t := list N.

(** A string of the page model as a list of code units. *)
Definition of_latin1 (s : string) : t :=
  map N_of_ascii (list_ascii_of_string s).

(** Truthiness: only [''] is falsy. *)
Definition truthy (s : t) : bool :=
  match s with
  | [] => false
  | _ :: _ => true
  end.

(** The Greek capital sigma U+03A3 and its two small forms: U+03C3, and
    U+03C2 at the end of a word. *)
Definition capital_sigma : N := 931.
Definition small_sigma : N := 963.
Definition final_sigma : N := 962.

(** The lowercase of one code unit, out of context: A-Z, the Latin-1
    capitals U+00C0..U+00DE without the multiplication sign U+00D7, and
    the Greek capitals U+0391..U+03A9 (U+03A2 is not assigned).  Code
    units from U+0100 on that are not Greek letters U+0391..U+03C9 are
    outside this embedding. *)
Definition lower_unit (c : N) : N :=
  if ((65 <=? c) && (c <=? 90))%N then (c + 32)%N
  else if ((192 <=? c) && (c <=? 222) && negb (c =? 215))%N then (c + 32)%N
  else if ((913 <=? c) && (c <=? 937) && negb (c =? 930))%N then (c + 32)%N
  else c.

(** The Unicode property Cased on the embedded code units: the Latin
    letters, the ordinal indicators U+00AA and U+00BA, the micro sign
    U+00B5, and the Greek letters. *)
Definition cased (c : N) : bool :=
  (((65 <=? c) && (c <=? 90))
   || ((97 <=? c) && (c <=? 122))
   || (c =? 170) || (c =? 181) || (c =? 186)
   || ((192 <=? c) && (c <=? 214))
   || ((216 <=? c) && (c <=? 246))
   || ((248 <=? c) && (c <=? 255))
   || ((913 <=? c) && (c <=? 929))
   || ((931 <=? c) && (c <=? 937))
   || ((945 <=? c) && (c <=? 969)))%N.

(** The Unicode property Case_Ignorable on the embedded code units:
    apostrophe, full stop, colon, circumflex, grave accent, diaeresis,
    soft hyphen, macron, acute accent, middle dot and cedilla. *)
Definition case_ignorable (c : N) : bool :=
  ((c =? 39) || (c =? 46) || (c =? 58) || (c =? 94) || (c =? 96)
   || (c =? 168) || (c =? 173) || (c =? 175) || (c =? 180)
   || (c =? 183) || (c =? 184))%N.

(** A cased letter follows, after any number of case-ignorable code
    units.  On the code units already passed, nearest first, this says
    that a cased letter precedes. *)
Fixpoint cased_letter_next (s : t) : bool :=
  match s with
  | [] => false
  | c :: r => if case_ignorable c then cased_letter_next r else cased c
  end.

(** The rest of [toLowerCase] after the code units [passed] (nearest
    first).  A capital sigma becomes the final sigma when a cased letter
    precedes it and none follows it (the condition Final_Sigma of the
    Unicode special casing); every other code unit is lowered out of
    context. *)
Fixpoint lower_from (passed s : t) : t :=
  match s with
  | [] => []
  | c :: r =>
      (if (c =? capital_sigma)%N && cased_letter_next passed
          && negb (cased_letter_next r)
       then final_sigma else lower_unit c)
      :: lower_from (c :: passed) r
  end.

(** [s.toLowerCase()] *)
Definition toLowerCase (s : t) : t := lower_from [] s.

(** [s.startsWith(p)] *)
Fixpoint startsWith (p s : t) : bool :=
  match p, s with
  | [], _ => true
  | a :: p', b :: s' => if (a =? b)%N then startsWith p' s' else false
  | _ :: _, [] => false
  end.

(** [s.includes(p)]: [p] occurs in [s] at some position. *)
Fixpoint includes (s p : t) : bool :=
  startsWith p s ||
  match s with
  | [] => false
  | _ :: s' => includes s' p
  end.

End Utf16.

(** ** The search filter over strings of any code units *)

Module Search.

(** What the filter reads of a note. *)
Record Note := mkNote {
  title : Utf16.t;
  content : Utf16.t;
  summary : option Utf16.t }.

(** The predicate given to [notes.filter]. *)
Definition matches (searchTerm : Utf16.t) (note : Note) : bool :=
  Utf16.includes (Utf16.toLowerCase (title note)) (Utf16.toLowerCase searchTerm)
  || Utf16.includes (Utf16.toLowerCase (content note)) (Utf16.toLowerCase searchTerm)
  || match summary note with
     | Some s =>
         Utf16.truthy s
         && Utf16.includes (Utf16.toLowerCase s) (Utf16.toLowerCase searchTerm)
     | None => false
     end.

Definition filteredNotes (notes : list Note) (searchTerm : Utf16.t) : list Note :=
  List.filter (matches searchTerm) notes.

(** A note of the page model as the filter reads it. *)
Definition of_note (n : Note.t) : Note :=
  {| title := Utf16.of_latin1 (Note.title n);
     content := Utf16.of_latin1 (Note.content n);
     summary := option_map Utf16.of_latin1 (Note.summary n) |}.

End Search.

(** * The vocabulary of the properties *)

Section Vocabulary.

Import Dashboard.

(** Every character of [s] is white space ([s] may be empty). *)
Definition blank (s : string) : Prop :=
  forall i c, String.get i s = Some c -> is_ws c = true.

(** Ctrl+Enter and Escape as key events. *)
Definition confirm_chord : Editor.KeyEvent :=
  {| Editor.ctrlKey := true; Editor.key := "Enter" |}.

Definition cancel_key (ctrl : bool) : Editor.KeyEvent :=
  {| Editor.ctrlKey := ctrl; Editor.key := "Escape" |}.

(** The note in memory carries the columns of the row, [updated_at]
    apart (the list is not refreshed when the trigger moves it). *)
Definition mirrors (n : Note.t) (r : Store.Row) : Prop :=
  Note.user_id n = Store.user_id r
  /\ Note.title n = Store.title r
  /\ Note.content n = Store.content r
  /\ Note.summary n = Store.summary r
  /\ Note.created_at n = Store.created_at r.

(** The user a call in flight was issued for. *)
Definition await_uid (a : Await) : option string :=
  match a with
  | AwaitSelect uid => Some uid
  | AwaitUpdate _ uid _ _ => Some uid
  | AwaitInsert uid _ _ => Some uid
  | AwaitDelete _ uid => Some uid
  | AwaitInvoke _ _ _ => None
  | AwaitSummary _ uid _ => Some uid
  end.

(** Every note of the list is a row of the signed-in user and mirrors
    it; every store call in flight was issued for the signed-in user. *)
Definition coherent (w : World) : Prop :=
  (forall n, In n (notes (ui w)) ->
     exists r, table w !! Note.id n = Some r
               /\ mirrors n r
               /\ user w = Some (Store.user_id r))
  /\ (forall a uid, In a (pending w) -> await_uid a = Some uid ->
        user w = Some uid).

(** [generateSummary] run from its call to its end, with [env1] the
    answer of the summarization endpoint and [env2] the answer of the
    store: the world when nothing of the operation is in flight any
    more. *)
Definition summarize_run (k t c : string) (env1 env2 : Env) (w : World) : World :=
  let j := List.length (pending w) in
  let w1 := generateSummary k t c w in
  match step (Answer j env1) w1 with
  | None => w1
  | Some w2 =>
      match step (Answer j env2) w2 with
      | None => w2
      | Some w3 => w3
      end
  end.

(** The store call awaited by [a] (the insert of a create-save, the
    update of an edit-save, or a delete) is answered with an error. *)
Definition store_call_fails (a : Await) (env : Env) (w : World) : Prop :=
  match a with
  | AwaitUpdate k uid t c =>
      exists m, snd (store_call env w (Store.update_note uid k t c (now env)))
                = Store.Err m
  | AwaitInsert uid t c =>
      exists m, snd (store_call env w
                       (Store.insert_note uid (fresh_id env) t c (now env)))
                = Store.Err m
  | AwaitDelete k uid =>
      exists m, snd (store_call env w
                       (fun tb => (Store.delete_note uid k tb, Store.Ok tt)))
                = Store.Err m
  | _ => False
  end.

(** [a] is the store call of a save. *)
Definition is_save (a : Await) : Prop :=
  match a with
  | AwaitUpdate _ _ _ _ | AwaitInsert _ _ _ => True
  | _ => False
  end.




(** A table with one note of user "u", written at time 1. *)
Definition sample_row : Store.Row :=
  {| Store.user_id := "u"; Store.title := "Meeting";
     Store.content := "Discuss budget"; Store.summary := None;
     Store.created_at := 1; Store.updated_at := 1 |}.

Definition sample_table : Store.Table := {["n1" := sample_row]}.

Definition sample_note : Note.t := Store.to_note "n1" sample_row.

(** The store answers without error at time [t]. *)
Definition at_time (t : N) (summary : option string) : Env :=
  {| fault := None; thrown := false; now := t; fresh_id := "n2";
     reply := summary |}.

(** The page of user "u" after its first fetch. *)
Definition loaded : option World :=
  steps [Mount; Answer 0 (at_time 1 None)] (start (Some "u") sample_table).


(** [generateSummary] with both of its calls answered. *)
Definition summarize (k t c : string) (env1 env2 : Env) (w : World) : option World :=
  steps [Answer (List.length (pending w)) env1;
         Answer (List.length (pending w)) env2]
        (generateSummary k t c w).

(** The list after the summary [v] of note [k] has been merged in. *)
Definition summary_merged (k v : string) (l : list Note.t) : list Note.t :=
  map (fun note => if String.eqb (Note.id note) k
                   then Note.with_summary note v else note) l.

(** The row [r] with nothing but its summary replaced. *)
Definition summary_replaced (v : string) (r : Store.Row) : Store.Row :=
  {| Store.user_id := Store.user_id r; Store.title := Store.title r;
     Store.content := Store.content r; Store.summary := Some v;
     Store.created_at := Store.created_at r;
     Store.updated_at := Store.updated_at r |}.

(** The row [r] as the store leaves it: summary replaced, and
    [updated_at] moved to the time of the update by the trigger. *)
Definition summary_written (v : string) (now : N) (r : Store.Row) : Store.Row :=
  {| Store.user_id := Store.user_id r; Store.title := Store.title r;
     Store.content := Store.content r; Store.summary := Some v;
     Store.created_at := Store.created_at r;
     Store.updated_at := now |}.

(** A successful summarize of a note of the list, returning [v], read to
    the letter: in memory and in the table the note gets summary [v] and
    nothing else changes. *)
Definition summarize_changes_summary_only : Prop :=
  forall (w : World) (n : Note.t) (t c v : string) (env1 env2 : Env),
    reachable w ->
    In n (notes (ui w)) ->
    ~ blank c ->
    fault env1 = None -> reply env1 = Some v -> v <> "" ->
    fault env2 = None ->
    exists w' r,
      summarize (Note.id n) t c env1 env2 w = Some w'
      /\ table w !! Note.id n = Some r
      /\ notes (ui w') = summary_merged (Note.id n) v (notes (ui w))
      /\ table w' = <[Note.id n := summary_replaced v r]> (table w).

(** The sample row after a summary was stored at time 2, and the page
    showing it. *)
Definition summarized_row : Store.Row :=
  {| Store.user_id := "u"; Store.title := "Meeting";
     Store.content := "Discuss budget"; Store.summary := Some "Budget talk";
     Store.created_at := 1; Store.updated_at := 2 |}.

Definition summarized_world : World :=
  {| user := Some "u";
     ui := {| notes := [Store.to_note "n1" summarized_row]; searchTerm := "";
              isEditorOpen := false; editingNote := None; loading := false;
              savingNote := false; generatingSummary := None |};
     table := {["n1" := summarized_row]};
     pending := [];
     log := [] |}.


(** A note saved with a title and no content. *)
Definition empty_note : Note.t :=
  {| Note.id := "n3"; Note.user_id := "u"; Note.title := "Ideas";
     Note.content := ""; Note.summary := None;
     Note.created_at := 1; Note.updated_at := 1 |}.

(** The first character of [s] is white space. *)
Definition starts_with_ws (s : string) : bool :=
  match s with
  | String c _ => is_ws c
  | EmptyString => false
  end.

(** The page of user "u" after its first fetch, written out. *)
Definition sample_world : World :=
  {| user := Some "u";
     ui := {| notes := [sample_note]; searchTerm := ""; isEditorOpen := false;
              editingNote := None; loading := false; savingNote := false;
              generatingSummary := None |};
     table := sample_table;
     pending := [];
     log := [Select "u"] |}.

(** A note whose content is two spaces. *)
Definition blank_note : Note.t :=
  {| Note.id := "n4"; Note.user_id := "u"; Note.title := "Later";
     Note.content := "  "; Note.summary := None;
     Note.created_at := 1; Note.updated_at := 1 |}.

(** The note of the search example. *)
Definition budget_note : Note.t :=
  {| Note.id := "n5"; Note.user_id := "u"; Note.title := "Budget Q3";
     Note.content := "spend"; Note.summary := None;
     Note.created_at := 1; Note.updated_at := 1 |}.

(** The editor in create mode, and what the user has typed in it. *)
Definition new_editor (loading : bool) : Editor.Props :=
  {| Editor.note := None; Editor.isLoading := loading |}.

Definition typed (t c : string) : Editor.State :=
  {| Editor.title := t; Editor.content := c |}.

(** The awaited call fails. *)
Definition network_down : Env :=
  {| fault := Some "Failed to fetch"; thrown := false; now := 2;
     fresh_id := "n2"; reply := None |}.

(** A request whose body is [{"title": "Meeting"}]. *)
Definition post_without_content : Edge.Request :=
  {| Edge.method := "POST";
     Edge.json := Edge.Returned (Edge.JObj [("title", Edge.JStr "Meeting")]) |}.

End Vocabulary.

(** * The vocabulary of the further properties *)

Section FurtherVocabulary.

Import Dashboard.

(** The editor opened on [n], with the fields as the effect seeds
    them. *)
Definition editing (n : Note.t) (loading : bool) : Editor.Props :=
  {| Editor.note := Some n; Editor.isLoading := loading |}.

(** A create-save, a delete and a fetch run from their call to their
    end: the handler and the answer to the call it has put in flight. *)
Definition create_save (p : Payload.t) (env : Env) (w : World) : option World :=
  step (Answer (List.length (pending w)) env) (saveNote p w).


Definition fetch_run (env : Env) (w : World) : option World :=
  step (Answer (List.length (pending w)) env) (fetchNotes w).

(** The payload is sent down the create branch of [saveNote]. *)
Definition is_new (p : Payload.t) : Prop :=
  Payload.id p = None \/ Payload.id p = Some "".

(** A call of [generateSummary] for note [k] is in flight. *)
Definition summarizing (k : string) (a : Await) : Prop :=
  match a with
  | AwaitInvoke k' _ _ => k' = k
  | AwaitSummary k' _ _ => k' = k
  | _ => False
  end.

(** The page keeps its busy flags honest: a raised [savingNote] has a
    save in flight, a marker on [k] has a summarize of [k] in flight. *)
Definition busy_is_in_flight (w : World) : Prop :=
  (savingNote (ui w) = true -> exists a, In a (pending w) /\ is_save a)
  /\ (forall k, generatingSummary (ui w) = Some k ->
                exists a, In a (pending w) /\ summarizing k a).

(** The event is a call to [signIn] or [signUp]. *)
Definition is_auth_call (e : Auth.Event) : Prop :=
  match e with
  | Auth.SignIn _ _ | Auth.SignUp _ _ => True
  | _ => False
  end.

(** The rows of users other than [uid] are the same in [tb] and [tb']. *)
Definition same_foreign_rows (uid : string) (tb tb' : Store.Table) : Prop :=
  forall k r, Store.user_id r <> uid -> (tb' !! k = Some r <-> tb !! k = Some r).

(** A step that is not an answer leaves the list, the table, the user
    and the loading flag alone. *)
Definition quiet (w w' : World) : Prop :=
  notes (ui w') = notes (ui w) /\ table w' = table w
  /\ user w' = user w /\ loading (ui w') = loading (ui w).



(** A note as the editor saves it. *)
Definition hello_note : Note.t :=
  {| Note.id := "n6"; Note.user_id := "u"; Note.title := "Untitled Note";
     Note.content := "hello"; Note.summary := None;
     Note.created_at := 1; Note.updated_at := 1 |}.

(** A row of another user, and the sample table with it. *)
Definition foreign_row : Store.Row :=
  {| Store.user_id := "v"; Store.title := "Private";
     Store.content := "Not yours"; Store.summary := None;
     Store.created_at := 1; Store.updated_at := 1 |}.

Definition shared_table : Store.Table := <["n9" := foreign_row]> sample_table.

(** The store answers without error at time [t] and draws the key [k]. *)
Definition fresh_at (k : string) (t : N) : Env :=
  {| fault := None; thrown := false; now := t; fresh_id := k; reply := None |}.

(** A payload of the editor in create mode. *)
Definition new_idea : Payload.t :=
  {| Payload.id := None; Payload.title := "Ideas"; Payload.content := "" |}.

(** The sign-in form filled in. *)
Definition filled_form : Auth.State :=
  {| Auth.isLogin := true; Auth.email := "a@b.c"; Auth.password := "secret";
     Auth.loading := false; Auth.error := "" |}.

(** An upstream answer with the completion "Sum". *)
Definition good_upstream : Edge.Try Edge.Upstream :=
  Edge.Returned
    {| Edge.ok := true;
       Edge.upstream_json :=
         Edge.Returned
           (Edge.JObj
              [("choices",
                Edge.JArr
                  [Edge.JObj
                     [("message",
                       Edge.JObj [("content", Edge.JStr "Sum")])]])]) |}.

(** A request whose body is [{"content": "Discuss budget"}]. *)
Definition post_with_content : Edge.Request :=
  {| Edge.method := "POST";
     Edge.json := Edge.Returned (Edge.JObj [("content", Edge.JStr "Discuss budget")]) |}.

End FurtherVocabulary.

(** * The vocabulary of the endpoint's contract *)

Section EndpointVocabulary.

Import Edge.

(** [v] is the value of the key [k] in an object written [fields]: the
    last [k] of the text is the one that counts. *)
Definition binds (fields : list (string * Json)) (k : string) (v : Json) : Prop :=
  exists before after,
    fields = before ++ (k, v) :: after /\ ~ In k (map fst after).

(** [j] is an object and [v] is its member [k]. *)
Definition member (j : Json) (k : string) (v : Json) : Prop :=
  exists fields, j = JObj fields /\ binds fields k v.

(** The values of JSON that count as absent in a condition: [null],
    [false], [0] and the empty string. *)
Definition falsy (v : Json) : Prop :=
  v = JNull \/ v = JBool false \/ v = JNum 0 \/ v = JStr "".

(** A value that is neither an array nor an object. *)
Definition primitive (v : Json) : Prop :=
  match v with
  | JArr _ | JObj _ => False
  | _ => True
  end.

(** The parsed body holds no content, or one that counts as absent. *)
Definition no_content (parsed : Json) : Prop :=
  forall c, member parsed "content" c -> falsy c.

(** [choice] is what [choices[0]] reads; [s] is what
    [data.choices[0].message.content] reads. *)
Definition first_of (choices choice : Json) : Prop :=
  (exists rest, choices = JArr (choice :: rest)) \/ member choices "0" choice.

Definition completes (data s : Json) : Prop :=
  exists choices choice message,
    member data "choices" choices
    /\ first_of choices choice
    /\ member choice "message" message
    /\ member message "content" s.

(** The upstream call throws, is answered with a status that is not ok,
    with a body that is not JSON, or with data whose completion is
    missing or counts as absent. *)
Inductive upstream_failure : Try Upstream -> Prop :=
| call_throws m : upstream_failure (Thrown m)
| answer_not_ok j :
    upstream_failure (Returned {| ok := false; upstream_json := j |})
| answer_no_data m :
    upstream_failure (Returned {| ok := true; upstream_json := Thrown m |})
| answer_no_completion data :
    (forall s, completes data s -> falsy s) ->
    upstream_failure (Returned {| ok := true; upstream_json := Returned data |}).

(** The upstream call is answered ok with data whose completion is [s],
    and [s] does not count as absent. *)
Definition upstream_gives (fetched : Try Upstream) (s : Json) : Prop :=
  exists data,
    fetched = Returned {| ok := true; upstream_json := Returned data |}
    /\ completes data s /\ ~ falsy s.

(** The two headers that open the endpoint to every origin. *)
Definition permissive_cors (r : Response) : Prop :=
  In ("Access-Control-Allow-Origin", "*") (headers r)
  /\ In ("Access-Control-Allow-Headers",
         "authorization, x-client-info, apikey, content-type") (headers r).

(** The contract read to the letter: a request whose body holds no
    content value is answered 400. *)
Definition missing_content_is_a_client_error : Prop :=
  forall (req : Request) (fetched : Try Upstream),
    method req <> "OPTIONS" ->
    (forall parsed c, json req = Returned parsed -> ~ member parsed "content" c) ->
    status (handler req fetched) = 400%Z.

(** A request whose body is [null]. *)
Definition post_null : Request :=
  {| method := "POST"; json := Returned JNull |}.

(** A request whose content is an object that cannot be converted to
    text: [{"content": {"toString": 1}}]. *)
Definition post_odd_content : Request :=
  {| method := "POST";
     json := Returned (JObj [("content", JObj [("toString", JNum 1)])]) |}.

(** The preflight. *)
Definition preflight : Request :=
  {| method := "OPTIONS"; json := Thrown "Unexpected end of JSON input" |}.

End EndpointVocabulary.

(** * The vocabulary of the search *)

Section SearchVocabulary.

(** Every code unit of [s] is below U+0100. *)
Definition latin1 (s : Utf16.t) : Prop :=
  forallb (fun c => (c <? 256)%N) s = true.


(** A capital letter below U+0100; its small letter is 32 code units
    further. *)
Definition capital (c : N) : Prop :=
  (65 <= c <= 90)%N \/ (192 <= c <= 222 /\ c <> 215)%N.

(** The same letter, capital or small. *)
Definition same_letter (a b : N) : Prop :=
  a = b \/ (capital a /\ b = a + 32)%N \/ (capital b /\ a = b + 32)%N.

(** [a] and [b] are the same text when the case of letters is ignored:
    letter by letter the same. *)
Definition same_ignoring_case (a b : Utf16.t) : Prop :=
  Forall2 same_letter a b.




(** The Greek word KOSMOS in capitals (U+039A U+039F U+03A3 U+039C
    U+039F U+03A3), its first three letters, and a note with that
    title. *)
Definition kosmos : Utf16.t := [922; 927; 931; 924; 927; 931]%N.

Definition kos : Utf16.t := [922; 927; 931]%N.

Definition kosmos_note : Search.Note :=
  {| Search.title := kosmos; Search.content := []; Search.summary := None |}.

End SearchVocabulary.

(** * The page among other sessions *)

Section OpenWorldVocabulary.

Import Dashboard.

(** The states the page can reach when it is not the only writer:
    between two steps of the page the table may change in any way
    (another tab or device of the same user, other users, or a write of
    this page whose answer is then reported as a failure). *)
Inductive open_reachable : World -> Prop :=
| open_start uid tb : open_reachable (start uid tb)
| open_step w l w' : open_reachable w -> step l w = Some w' -> open_reachable w'
| open_elsewhere w tb : open_reachable w -> open_reachable (store tb w).

(** Every note of the list is tagged with the signed-in user, and every
    store call in flight was issued for that user. *)
Definition own_notes (w : World) : Prop :=
  (forall n, In n (notes (ui w)) -> user w = Some (Note.user_id n))
  /\ (forall a uid, In a (pending w) -> await_uid a = Some uid ->
        user w = Some uid).

(** The list shows a note with another summary than the row has. *)
Definition behind (w : World) : Prop :=
  exists n r, In n (notes (ui w)) /\ table w !! Note.id n = Some r
              /\ Note.summary n <> Store.summary r.

End OpenWorldVocabulary.

(** * Properties *)

(** ** The string functions on examples *)

Section Examples.

Example trim_ex1 : trim "  a b  " = "a b".
Proof. reflexivity. Qed.

Example split_ex1 : split_ws " a  b " = [""; "a"; "b"; ""].
Proof. reflexivity. Qed.

Example split_ex2 : split_ws "" = [""].
Proof. reflexivity. Qed.

Example split_ex3 : split_ws "  " = [""; ""].
Proof. reflexivity. Qed.

Example lower_ex1 : toLowerCase "Budget Q3" = "budget q3".
Proof. reflexivity. Qed.

Example includes_ex1 : includes "budget q3" "get" = true.
Proof. reflexivity. Qed.

End Examples.

(** ** Strings *)

Section StringFacts.

Lemma blank_empty : blank "".
Proof. intros i c H. destruct i; discriminate. Qed.

Lemma blank_cons c s : blank (String c s) <-> is_ws c = true /\ blank s.
Proof.
  split.
  - intros H. split.
    + apply (H 0 c). reflexivity.
    + intros i d Hd. apply (H (S i) d). exact Hd.
  - intros [Hc Hs] i d Hd. destruct i as [|i]; simpl in Hd.
    + congruence.
    + eapply Hs; eauto.
Qed.

Lemma trimStart_empty s : trimStart s = "" <-> blank s.
Proof.
  induction s as [|c s IH]; simpl.
  - split; auto using blank_empty.
  - rewrite blank_cons. destruct (is_ws c).
    + rewrite IH. tauto.
    + split; [discriminate | intros [? _]; discriminate].
Qed.

Lemma trimEnd_empty s : trimEnd s = "" <-> blank s.
Proof.
  induction s as [|c s IH]; simpl.
  - split; auto using blank_empty.
  - rewrite blank_cons. destruct (trimEnd s) eqn:E.
    + destruct (is_ws c).
      * split; auto. intros _. split; auto. apply IH. reflexivity.
      * split; [discriminate | intros [? _]; discriminate].
    + split; [discriminate |].
      intros [_ Hs]. apply IH in Hs. discriminate.
Qed.

(** What [trimStart] leaves is empty or starts with a character that is
    not white space. *)
Lemma trimStart_head s :
  trimStart s = "" \/ exists c r, trimStart s = String c r /\ is_ws c = false.
Proof.
  induction s as [|c s IH]; simpl; auto.
  destruct (is_ws c) eqn:E; auto.
  right. eauto.
Qed.

Lemma trim_empty s : trim s = "" <-> blank s.
Proof.
  unfold trim. rewrite trimEnd_empty. split.
  - intros H. apply trimStart_empty.
    destruct (trimStart_head s) as [E | (c & r & E & Hc)]; auto.
    rewrite E in H. apply blank_cons in H. destruct H. congruence.
  - intros H. apply trimStart_empty in H. rewrite H. apply blank_empty.
Qed.

Lemma truthy_false s : truthy s = false <-> s = "".
Proof. destruct s; simpl; split; congruence. Qed.

Lemma truthy_true s : truthy s = true <-> s <> "".
Proof. destruct s; simpl; split; congruence. Qed.

Lemma truthy_trim s : truthy (trim s) = false <-> blank s.
Proof. rewrite truthy_false. apply trim_empty. Qed.

Lemma or_else_spec a b : or_else a b = if decide (a = "") then b else a.
Proof. unfold or_else. destruct a; reflexivity. Qed.

Lemma append_cons c a b : String c a +:+ b = String c (a +:+ b).
Proof. reflexivity. Qed.

Lemma append_nil b : "" +:+ b = b.
Proof. reflexivity. Qed.

(** [startsWith] and [includes] against concatenation. *)
Lemma startsWith_spec t s :
  startsWith t s = true <-> exists post, s = t +:+ post.
Proof.
  revert s. induction t as [|a t IH]; intros s; simpl.
  - split; eauto.
  - destruct s as [|b s].
    + split; [discriminate | intros [post H]; discriminate].
    + setoid_rewrite append_cons.
      destruct (Ascii.eqb_spec a b) as [->|Hne].
      * rewrite IH. split; intros [post H]; exists post; congruence.
      * split; [discriminate |]. intros [post H]. congruence.
Qed.

Lemma includes_spec s t :
  includes s t = true <-> exists pre post, s = pre +:+ t +:+ post.
Proof.
  induction s as [|c s IH].
  - simpl. rewrite orb_false_r, startsWith_spec. split.
    + intros [post H]. exists "", post. exact H.
    + intros (pre & post & H). destruct pre.
      * rewrite append_nil in H. eauto.
      * discriminate.
  - cbn [includes]. rewrite orb_true_iff, IH, startsWith_spec. split.
    + intros [[post H] | (pre & post & H)].
      * exists "", post. exact H.
      * exists (String c pre), post. rewrite append_cons. congruence.
    + intros (pre & post & H). destruct pre as [|d pre].
      * left. rewrite append_nil in H. eauto.
      * right. rewrite append_cons in H. exists pre, post. congruence.
Qed.

Lemma includes_empty s : includes s "" = true.
Proof. destruct s; reflexivity. Qed.

End StringFacts.

(** ** Search *)

Section SearchFacts.

(** [startsWith] and [includes] against concatenation. *)
Lemma wide_startsWith_spec (t s : Utf16.t) :
  Utf16.startsWith t s = true <-> exists post, s = t ++ post.
Proof.
  revert s. induction t as [|a t IH]; intros s; cbn [Utf16.startsWith].
  - split; eauto.
  - destruct s as [|b s].
    + split; [discriminate | intros [post H]; discriminate].
    + destruct (N.eqb_spec a b) as [->|Hne].
      * rewrite IH. split; intros [post H]; exists post; cbn in *; congruence.
      * split; [discriminate|]. intros [post H]. cbn in H. congruence.
Qed.

Lemma wide_includes_spec (s t : Utf16.t) :
  Utf16.includes s t = true <-> exists pre post, s = pre ++ t ++ post.
Proof.
  induction s as [|c s IH]; cbn [Utf16.includes].
  - rewrite orb_false_r, wide_startsWith_spec. split.
    + intros [post H]. exists [], post. exact H.
    + intros (pre & post & H). destruct pre; [eauto | discriminate].
  - rewrite orb_true_iff, IH, wide_startsWith_spec. split.
    + intros [[post H] | (pre & post & H)].
      * exists [], post. exact H.
      * exists (c :: pre), post. cbn. congruence.
    + intros (pre & post & H). destruct pre as [|d pre]; cbn in H.
      * left. eauto.
      * right. exists pre, post. congruence.
Qed.


(** Lowercasing text without a capital sigma is done code unit by code
    unit. *)
Lemma lower_from_plain (passed s : Utf16.t) :
  ~ In Utf16.capital_sigma s ->
  Utf16.lower_from passed s = map Utf16.lower_unit s.
Proof.
  revert passed. induction s as [|c s IH]; intros passed H; [reflexivity|].
  cbn [Utf16.lower_from map].
  destruct (N.eqb_spec c Utf16.capital_sigma) as [E|E].
  - exfalso. apply H. left. exact E.
  - cbn [andb]. f_equal. apply IH. intros Hin. apply H. now right.
Qed.

Lemma latin1_cons c s : latin1 (c :: s) <-> (c < 256)%N /\ latin1 s.
Proof.
  unfold latin1. cbn [forallb]. rewrite andb_true_iff, N.ltb_lt. reflexivity.
Qed.

Lemma latin1_app a b : latin1 (a ++ b) <-> latin1 a /\ latin1 b.
Proof.
  unfold latin1. rewrite forallb_app, andb_true_iff. reflexivity.
Qed.

Lemma latin1_no_sigma s : latin1 s -> ~ In Utf16.capital_sigma s.
Proof.
  induction s as [|c s IH]; [intros _ []|].
  rewrite latin1_cons. intros [Hc Hs] [E | Hin]; [|exact (IH Hs Hin)].
  unfold Utf16.capital_sigma in E. lia.
Qed.

Lemma toLowerCase_latin1 s :
  latin1 s -> Utf16.toLowerCase s = map Utf16.lower_unit s.
Proof. intros H. apply lower_from_plain, latin1_no_sigma, H. Qed.

Ltac units :=
  unfold Utf16.lower_unit, same_letter, capital in *;
  repeat case_match;
  repeat match goal with
    | H : (_ && _) = true |- _ => apply andb_true_iff in H as [? ?]
    | H : (_ && _) = false |- _ => apply andb_false_iff in H as [?|?]
    | H : negb _ = true |- _ => apply negb_true_iff in H
    | H : negb _ = false |- _ => apply negb_false_iff in H
    | H : (_ <=? _)%N = true |- _ => apply N.leb_le in H
    | H : (_ <=? _)%N = false |- _ => apply N.leb_gt in H
    | H : (_ =? _)%N = true |- _ => apply N.eqb_eq in H
    | H : (_ =? _)%N = false |- _ => apply N.eqb_neq in H
    end;
  lia.

(** The same letter has the same lowercase; below U+0100 the converse
    holds. *)
Lemma same_letter_lower a b :
  same_letter a b -> Utf16.lower_unit a = Utf16.lower_unit b.
Proof. intros H. units. Qed.


Lemma same_case_lower a b :
  same_ignoring_case a b -> map Utf16.lower_unit a = map Utf16.lower_unit b.
Proof.
  induction 1 as [|x y a b Hxy _ IH]; [reflexivity|].
  cbn. now rewrite (same_letter_lower x y Hxy), IH.
Qed.


Lemma same_case_latin1 a b :
  same_ignoring_case a b -> latin1 b -> latin1 a.
Proof.
  induction 1 as [|x y a b Hxy _ IH]; [auto|].
  rewrite !latin1_cons. intros [Hy Hb]. split; [|auto].
  unfold same_letter, capital in Hxy. lia.
Qed.




Lemma filter_sublist {A} (P : A -> bool) (l : list A) :
  sublist (List.filter P l) l.
Proof.
  induction l as [|x l IH]; simpl; [constructor|].
  destruct (P x); now constructor.
Qed.



End SearchFacts.

(** ** The two embeddings of the search *)

Section SearchModels.

Import Dashboard.

Lemma lower_unit_ascii (c : ascii) :
  Utf16.lower_unit (N_of_ascii c) = N_of_ascii (lower_char c).
Proof. destruct c as [[] [] [] [] [] [] [] []]; reflexivity. Qed.

Lemma of_latin1_cons c s :
  Utf16.of_latin1 (String c s) = N_of_ascii c :: Utf16.of_latin1 s.
Proof. reflexivity. Qed.

Lemma of_latin1_latin1 s : latin1 (Utf16.of_latin1 s).
Proof.
  induction s as [|c s IH]; [reflexivity|].
  rewrite of_latin1_cons. apply latin1_cons. split; [apply N_ascii_bounded | exact IH].
Qed.

Lemma toLowerCase_of_latin1 s :
  Utf16.toLowerCase (Utf16.of_latin1 s) = Utf16.of_latin1 (toLowerCase s).
Proof.
  rewrite (toLowerCase_latin1 _ (of_latin1_latin1 s)).
  induction s as [|c s IH]; [reflexivity|].
  cbn [toLowerCase]. rewrite !of_latin1_cons. cbn [map].
  now rewrite lower_unit_ascii, IH.
Qed.

Lemma eqb_of_ascii a b : (N_of_ascii a =? N_of_ascii b)%N = Ascii.eqb a b.
Proof.
  destruct (Ascii.eqb_spec a b) as [->|Hne].
  - apply N.eqb_refl.
  - apply N.eqb_neq. intros E. apply Hne.
    rewrite <- (ascii_N_embedding a), <- (ascii_N_embedding b). now rewrite E.
Qed.

Lemma startsWith_of_latin1 t s :
  Utf16.startsWith (Utf16.of_latin1 t) (Utf16.of_latin1 s) = startsWith t s.
Proof.
  revert s. induction t as [|a t IH]; intros s; [reflexivity|].
  destruct s as [|b s]; [reflexivity|].
  rewrite !of_latin1_cons. cbn [Utf16.startsWith startsWith].
  now rewrite eqb_of_ascii, IH.
Qed.

Lemma includes_of_latin1 s t :
  Utf16.includes (Utf16.of_latin1 s) (Utf16.of_latin1 t) = includes s t.
Proof.
  induction s as [|c s IH].
  - change (Utf16.includes (Utf16.of_latin1 "") (Utf16.of_latin1 t))
      with (Utf16.startsWith (Utf16.of_latin1 t) (Utf16.of_latin1 "") || false).
    now rewrite startsWith_of_latin1.
  - change (Utf16.includes (Utf16.of_latin1 (String c s)) (Utf16.of_latin1 t))
      with (Utf16.startsWith (Utf16.of_latin1 t) (Utf16.of_latin1 (String c s))
            || Utf16.includes (Utf16.of_latin1 s) (Utf16.of_latin1 t)).
    now rewrite startsWith_of_latin1, IH.
Qed.

Lemma truthy_of_latin1 s : Utf16.truthy (Utf16.of_latin1 s) = truthy s.
Proof. destruct s; reflexivity. Qed.

(** The filter of the page model is the filter over code units, on the
    text of the page model. *)
Lemma matches_of_latin1 (term : string) (note : Note.t) :
  Search.matches (Utf16.of_latin1 term) (Search.of_note note) = matches term note.
Proof.
  unfold Search.matches, matches, Search.of_note.
  cbn [Search.title Search.content Search.summary].
  rewrite !toLowerCase_of_latin1, !includes_of_latin1.
  destruct (Note.summary note) as [s|]; cbn [option_map summary_and]; [|reflexivity].
  now rewrite truthy_of_latin1, toLowerCase_of_latin1, includes_of_latin1.
Qed.

Lemma filteredNotes_of_latin1 (s : State) :
  Search.filteredNotes (map Search.of_note (notes s)) (Utf16.of_latin1 (searchTerm s))
  = map Search.of_note (filteredNotes s).
Proof.
  unfold Search.filteredNotes, filteredNotes.
  induction (notes s) as [|n l IH]; [reflexivity|].
  cbn [map List.filter]. rewrite matches_of_latin1.
  destruct (matches (searchTerm s) n); cbn [map]; now rewrite IH.
Qed.

End SearchModels.

(** ** Runs of the page *)

Section Runs.

Import Dashboard.

Lemma steps_reachable ls w w' :
  reachable w -> steps ls w = Some w' -> reachable w'.
Proof.
  revert w. induction ls as [|l ls IH]; intros w Hw H; simpl in H.
  - congruence.
  - destruct (step l w) eqn:E; [|discriminate].
    eapply IH; [|exact H]. econstructor; eauto.
Qed.

End Runs.

(** ** The editor *)

Section EditorFacts.

Import Dashboard.

Lemma handleSave_empty pr st :
  trim (Editor.title st) = "" -> trim (Editor.content st) = "" ->
  Editor.handleSave pr st = [].
Proof. intros Ht Hc. unfold Editor.handleSave. rewrite Ht, Hc. reflexivity. Qed.

Lemma handleSave_nonempty pr st :
  ~ (trim (Editor.title st) = "" /\ trim (Editor.content st) = "") ->
  Editor.handleSave pr st =
    [Editor.OnSave
       {| Payload.id := option_map Note.id (Editor.note pr);
          Payload.title := or_else (trim (Editor.title st)) "Untitled Note";
          Payload.content := trim (Editor.content st) |}].
Proof.
  intros H. unfold Editor.handleSave.
  destruct (trim (Editor.title st)) eqn:Et; [|reflexivity].
  destruct (trim (Editor.content st)) eqn:Ec; [|reflexivity].
  exfalso. apply H. auto.
Qed.

(** C1.  Saving trims both fields.  When both are empty after trimming,
    nothing is reported to the caller: the whole page (list, editor,
    table, calls in flight, log) is as before, whether save came from the
    button or from the keyboard.  Otherwise the caller receives exactly
    one payload: the trimmed content, and the trimmed title or, when that
    is empty, 'Untitled Note'. *)
Theorem handleSave_trims (pr : Editor.Props) (st : Editor.State) :
  let trimmedTitle := trim (Editor.title st) in
  let trimmedContent := trim (Editor.content st) in
  (trimmedTitle = "" /\ trimmedContent = "" ->
     Editor.handleSave pr st = []
     /\ (forall w, run editor_call (Editor.handleSave pr st) w = w)
     /\ (forall w, shows_editor (ui w) = true ->
           step (EditorClickSave st) w = Some w
           /\ step (EditorKeyDown st confirm_chord) w = Some w))
  /\ (~ (trimmedTitle = "" /\ trimmedContent = "") ->
     Editor.handleSave pr st =
       [Editor.OnSave
          {| Payload.id := option_map Note.id (Editor.note pr);
             Payload.title := if decide (trimmedTitle = "")
                              then "Untitled Note" else trimmedTitle;
             Payload.content := trimmedContent |}]).
Proof.
  cbv zeta. split.
  - intros [Ht Hc]. split; [|split].
    + now apply handleSave_empty.
    + intros w. now rewrite handleSave_empty.
    + intros w Hw. unfold step. rewrite Hw.
      unfold Editor.clickSave, Editor.saveDisabled, Editor.handleKeyDown.
      rewrite Ht, Hc, handleSave_empty by assumption.
      rewrite orb_true_r. split; reflexivity.
  - intros H. rewrite handleSave_nonempty by exact H.
    now rewrite or_else_spec.
Qed.

(** C10.  While a save is in flight both footer buttons are disabled, but
    the key handler does not look at [isLoading]: with a title or content
    that is not empty after trimming, Ctrl+Enter reports the payload to
    [onSave] once more and Escape calls [onCancel].  On the page this
    starts one more store call next to the one in flight, or closes the
    editor; a page with two saves in flight is reachable. *)
Theorem keyboard_not_gated_on_loading :
  (forall (pr : Editor.Props) (st : Editor.State),
      Editor.isLoading pr = true ->
      trim (Editor.title st) <> "" \/ trim (Editor.content st) <> "" ->
      Editor.cancelDisabled pr = true
      /\ Editor.saveDisabled pr st = true
      /\ Editor.clickCancel pr = []
      /\ Editor.clickSave pr st = []
      /\ (exists p, Editor.handleKeyDown pr st confirm_chord
                    = [Editor.PreventDefault; Editor.OnSave p]
                    /\ Payload.content p = trim (Editor.content st))
      /\ (forall ctrl, Editor.handleKeyDown pr st (cancel_key ctrl)
                       = [Editor.PreventDefault; Editor.OnCancel]))
  /\ (forall (w : World) (uid : string) (st : Editor.State),
        user w = Some uid ->
        shows_editor (ui w) = true ->
        savingNote (ui w) = true ->
        trim (Editor.title st) <> "" \/ trim (Editor.content st) <> "" ->
        (exists w' a,
            step (EditorKeyDown st confirm_chord) w = Some w'
            /\ pending w' = pending w ++ [a]
            /\ (exists t, a = AwaitInsert uid t (trim (Editor.content st))
                          \/ exists k, a = AwaitUpdate k uid t (trim (Editor.content st))))
        /\ (forall ctrl, exists w',
               step (EditorKeyDown st (cancel_key ctrl)) w = Some w'
               /\ isEditorOpen (ui w') = false
               /\ pending w' = pending w))
  /\ (exists w,
        reachable w
        /\ savingNote (ui w) = true
        /\ pending w = [AwaitInsert "u" "Untitled Note" "x";
                        AwaitInsert "u" "Untitled Note" "x"]).
Proof.
  split; [|split].
  - intros pr st Hl Hne.
    assert (Hs : ~ (trim (Editor.title st) = "" /\ trim (Editor.content st) = ""))
      by (intros [? ?]; destruct Hne; contradiction).
    unfold Editor.cancelDisabled, Editor.saveDisabled, Editor.clickCancel,
      Editor.clickSave, Editor.cancelDisabled, Editor.saveDisabled.
    rewrite Hl. cbn [orb]. repeat split.
    + eexists. unfold Editor.handleKeyDown.
      rewrite (handleSave_nonempty _ _ Hs). cbn. split; reflexivity.
    + intros ctrl. unfold Editor.handleKeyDown. cbn.
      rewrite andb_false_r. reflexivity.
  - intros w uid st Hu Hw Hsv Hne.
    assert (Hs : ~ (trim (Editor.title st) = "" /\ trim (Editor.content st) = ""))
      by (intros [? ?]; destruct Hne; contradiction).
    split.
    + unfold step. rewrite Hw. unfold Editor.handleKeyDown.
      rewrite (handleSave_nonempty _ _ Hs). cbn.
      unfold saveNote. rewrite Hu. cbn.
      destruct (editingNote (ui w)) as [n|]; cbn.
      * destruct (truthy (Note.id n)); eexists _, _;
          (split; [reflexivity|]); (split; [reflexivity|]); eauto.
      * eexists _, _. split; [reflexivity|]. split; [reflexivity|]. eauto.
    + intros ctrl. unfold step. rewrite Hw. unfold Editor.handleKeyDown. cbn.
      rewrite andb_false_r. cbn. eexists. repeat split.
  - pose (st := {| Editor.title := ""; Editor.content := "x" |}).
    pose (env := {| fault := None; thrown := false; now := 0%N;
                    fresh_id := ""; reply := None |}).
    pose (ls := [Mount; Answer 0 env; ClickNew;
                 EditorClickSave st; EditorKeyDown st confirm_chord]).
    destruct (steps ls (start (Some "u") ∅)) as [w|] eqn:E; [|vm_compute in E; discriminate].
    exists w. split.
    + eapply steps_reachable; [apply (reach_start (Some "u") ∅) | exact E].
    + vm_compute in E. injection E as <-. split; reflexivity.
Qed.

End EditorFacts.

(** ** The list in memory against the table *)

Section Coherence.

Import Dashboard.

Lemma mirrors_to_note k r : mirrors (Store.to_note k r) r.
Proof. repeat split. Qed.

Lemma coherent_start uid tb : coherent (start uid tb).
Proof. split; simpl; contradiction. Qed.

Lemma coherent_same w w' :
  notes (ui w') = notes (ui w) -> table w' = table w ->
  user w' = user w -> pending w' = pending w ->
  coherent w -> coherent w'.
Proof.
  intros Hn Ht Hu Hp [H1 H2]. split.
  - rewrite Hn, Ht, Hu. exact H1.
  - rewrite Hp, Hu. exact H2.
Qed.

Lemma coherent_await a w :
  (forall uid, await_uid a = Some uid -> user w = Some uid) ->
  coherent w -> coherent (await a w).
Proof.
  intros Ha [H1 H2]. split; [exact H1|]. simpl.
  intros b uid Hb Hu. apply in_app_or in Hb as [Hb | [<- | []]]; eauto.
Qed.

Lemma coherent_answered i w : coherent w -> coherent (answered i w).
Proof.
  intros [H1 H2]. split; [exact H1|]. simpl.
  intros a uid Ha. apply H2.
  apply list_elem_of_In. eapply list_elem_of_delete_inv.
  apply list_elem_of_In. exact Ha.
Qed.

Lemma coherent_saveNote p w : coherent w -> coherent (saveNote p w).
Proof.
  intros H. unfold saveNote. destruct (user w) as [uid|] eqn:Eu; [|exact H].
  assert (H1 : coherent (render (setSavingNote true) w))
    by (eapply coherent_same; [..|exact H]; reflexivity).
  destruct (Payload.id p) as [k|]; [destruct (truthy k)|];
    (apply coherent_await;
     [ simpl; congruence
     | eapply coherent_same; [..|exact H1]; reflexivity ]).
Qed.

Lemma coherent_deleteNote k w : coherent w -> coherent (deleteNote k w).
Proof.
  intros H. unfold deleteNote. destruct (user w) as [uid|] eqn:Eu; [|exact H].
  apply coherent_await; [simpl; congruence|].
  eapply coherent_same; [..|exact H]; reflexivity.
Qed.

Lemma coherent_generateSummary k t c w :
  coherent w -> coherent (generateSummary k t c w).
Proof.
  intros H. unfold generateSummary. destruct (negb (truthy (trim c))).
  - eapply coherent_same; [..|exact H]; reflexivity.
  - apply coherent_await; [simpl; congruence|].
    eapply coherent_same; [..|exact H]; reflexivity.
Qed.

Lemma coherent_fetchNotes w : coherent w -> coherent (fetchNotes w).
Proof.
  intros H. unfold fetchNotes. destruct (user w) as [uid|] eqn:Eu; [|exact H].
  apply coherent_await; [simpl; congruence|].
  eapply coherent_same; [..|exact H]; reflexivity.
Qed.

Lemma coherent_editor_call c w : coherent w -> coherent (editor_call c w).
Proof.
  intros H. destruct c; simpl.
  - exact H.
  - now apply coherent_saveNote.
  - eapply coherent_same; [..|exact H]; reflexivity.
Qed.

Lemma coherent_card_call c w : coherent w -> coherent (card_call c w).
Proof.
  intros H. destruct c; simpl.
  - eapply coherent_same; [..|exact H]; reflexivity.
  - eapply coherent_same; [..|exact H]; reflexivity.
  - now apply coherent_deleteNote.
  - now apply coherent_generateSummary.
Qed.

Lemma coherent_run {C} (call : C -> World -> World) cs :
  (forall c w, coherent w -> coherent (call c w)) ->
  forall w, coherent w -> coherent (run call cs w).
Proof.
  intros Hc. unfold run. induction cs as [|c cs IH]; intros w H; simpl; auto.
Qed.

End Coherence.

Section CoherenceAnswers.

Import Dashboard.

Lemma merge_is_data note data : Note.merge note data = data.
Proof. destruct data. reflexivity. Qed.

Lemma coherent_fetch_answered uid env w :
  user w = Some uid -> coherent w -> coherent (fetchNotes_answered uid env w).
Proof.
  intros Hu H. unfold fetchNotes_answered, store_call.
  destruct (fault env).
  - destruct (thrown env); (eapply coherent_same; [..|exact H]; reflexivity).
  - destruct H as [_ H2]. split; [|exact H2].
    cbn. intros n Hn. apply list_elem_of_In in Hn.
    unfold Store.select_all in Hn.
    rewrite merge_sort_Permutation in Hn.
    apply list_elem_of_filter in Hn as [Hp Hn].
    apply list_elem_of_In, in_map_iff in Hn as ([k r] & <- & Hkr).
    apply list_elem_of_In, elem_of_map_to_list in Hkr.
    exists r. cbn in *. repeat split; [assumption | congruence].
Qed.

Lemma coherent_update_answered k uid t c env w :
  user w = Some uid -> coherent w ->
  coherent (saveNote_update_answered k uid t c env w).
Proof.
  intros Hu H. unfold saveNote_update_answered, store_call.
  assert (Hf : coherent (saveNote_failed w))
    by (eapply coherent_same; [..|exact H]; reflexivity).
  destruct (fault env); [exact Hf|].
  unfold Store.update_note.
  destruct (table w !! k) as [r|] eqn:Er; [|exact Hf].
  destruct (decide (Store.user_id r = uid)) as [Hr|]; [|exact Hf].
  destruct H as [H1 H2]. split; [|exact H2].
  cbn. intros n' Hn'. apply in_map_iff in Hn' as (n & <- & Hn).
  destruct (String.eqb_spec (Note.id n) k) as [Hk|Hk].
  - rewrite merge_is_data. cbn. rewrite lookup_insert_eq.
    eexists. split; [reflexivity|]. split; [apply mirrors_to_note|].
    cbn. congruence.
  - rewrite lookup_insert_ne by congruence. auto.
Qed.

Lemma coherent_insert_answered uid t c env w :
  user w = Some uid -> coherent w ->
  coherent (saveNote_insert_answered uid t c env w).
Proof.
  intros Hu H. unfold saveNote_insert_answered, store_call.
  assert (Hf : coherent (saveNote_failed w))
    by (eapply coherent_same; [..|exact H]; reflexivity).
  destruct (fault env); [exact Hf|].
  unfold Store.insert_note.
  destruct (table w !! fresh_id env) as [r|] eqn:Er; [exact Hf|].
  destruct H as [H1 H2]. split; [|exact H2].
  cbn. intros n [<- | Hn].
  - cbn. rewrite lookup_insert_eq.
    eexists. split; [reflexivity|]. split; [apply mirrors_to_note|].
    cbn. congruence.
  - destruct (H1 n Hn) as (r & Hr & Hm & Hur).
    rewrite lookup_insert_ne by congruence. eauto.
Qed.

Lemma lookup_delete_note uid k tb j :
  j <> k -> Store.delete_note uid k tb !! j = tb !! j.
Proof.
  intros Hj. unfold Store.delete_note.
  destruct (tb !! k) as [r|]; [|reflexivity].
  destruct (decide (Store.user_id r = uid)); [|reflexivity].
  apply lookup_delete_ne. congruence.
Qed.

Lemma coherent_delete_answered k uid env w :
  coherent w -> coherent (deleteNote_answered k uid env w).
Proof.
  intros H. unfold deleteNote_answered, store_call.
  destruct (fault env).
  - eapply coherent_same; [..|exact H]; reflexivity.
  - destruct H as [H1 H2]. split; [|exact H2].
    cbn. intros n Hn. apply filter_In in Hn as [Hn Hk].
    destruct (String.eqb_spec (Note.id n) k) as [|Hk']; [discriminate|].
    rewrite lookup_delete_note by exact Hk'. auto.
Qed.

Lemma coherent_invoke_answered k env w :
  coherent w -> coherent (generateSummary_invoke_answered k env w).
Proof.
  intros H. unfold generateSummary_invoke_answered.
  assert (Hf : forall m, coherent (generateSummary_failed m w))
    by (intros m; eapply coherent_same; [..|exact H]; reflexivity).
  destruct (fault env); [apply Hf|].
  destruct (reply env) as [s|]; [|apply Hf].
  destruct (truthy s); [|apply Hf].
  destruct (user w) as [uid|] eqn:Eu; [|apply Hf].
  apply coherent_await; [simpl; congruence|].
  eapply coherent_same; [..|exact H]; reflexivity.
Qed.

Lemma lookup_update_summary uid k s now tb j :
  j <> k -> Store.update_summary uid k s now tb !! j = tb !! j.
Proof.
  intros Hj. unfold Store.update_summary.
  destruct (tb !! k) as [r|]; [|reflexivity].
  destruct (decide (Store.user_id r = uid)); [|reflexivity].
  apply lookup_insert_ne. congruence.
Qed.

Lemma coherent_summary_answered k uid s env w :
  user w = Some uid -> coherent w ->
  coherent (generateSummary_update_answered k uid s env w).
Proof.
  intros Hu H. unfold generateSummary_update_answered, store_call.
  destruct (fault env).
  - eapply coherent_same; [..|exact H]; reflexivity.
  - destruct H as [H1 H2]. split; [|exact H2].
    cbn. intros n' Hn'. apply in_map_iff in Hn' as (n & <- & Hn).
    destruct (H1 n Hn) as (r & Hr & Hm & Hur).
    destruct (String.eqb_spec (Note.id n) k) as [Hk|Hk].
    + cbn. unfold Store.update_summary. rewrite <- Hk, Hr.
      rewrite decide_True by congruence. rewrite lookup_insert_eq.
      eexists. split; [reflexivity|].
      destruct Hm as (? & ? & ? & ? & ?). repeat split; assumption.
    + rewrite lookup_update_summary by exact Hk. eauto.
Qed.

Lemma coherent_resume a env w :
  (forall uid, await_uid a = Some uid -> user w = Some uid) ->
  coherent w -> coherent (resume a env w).
Proof.
  intros Ha H. destruct a; cbn [resume].
  - apply coherent_fetch_answered; auto.
  - apply coherent_update_answered; auto.
  - apply coherent_insert_answered; auto.
  - apply coherent_delete_answered; auto.
  - apply coherent_invoke_answered; auto.
  - apply coherent_summary_answered; auto.
Qed.

Lemma coherent_step l w w' :
  coherent w -> step l w = Some w' -> coherent w'.
Proof.
  intros H Hs. destruct l; cbn [step] in Hs.
  - injection Hs as <-. now apply coherent_fetchNotes.
  - destruct (loading (ui w)); [discriminate|]. injection Hs as <-.
    eapply coherent_same; [..|exact H]; reflexivity.
  - destruct (loading (ui w)); [discriminate|]. injection Hs as <-.
    eapply coherent_same; [..|exact H]; reflexivity.
  - destruct (shows_card note (ui w)); [|discriminate].
    replace w' with (run card_call [Card.OnEdit note] w) by congruence.
    apply coherent_run; auto using coherent_card_call.
  - destruct (shows_card note (ui w)); [|discriminate].
    replace w' with (run card_call [Card.OnDelete (Note.id note)] w) by congruence.
    apply coherent_run; auto using coherent_card_call.
  - destruct (shows_card note (ui w)); [|discriminate].
    match type of Hs with Some ?x = _ => replace w' with x by congruence end.
    apply coherent_run; auto using coherent_card_call.
  - destruct (shows_editor (ui w)); [|discriminate].
    match type of Hs with Some ?x = _ => replace w' with x by congruence end.
    apply coherent_run; auto using coherent_editor_call.
  - destruct (shows_editor (ui w)); [|discriminate].
    match type of Hs with Some ?x = _ => replace w' with x by congruence end.
    apply coherent_run; auto using coherent_editor_call.
  - destruct (shows_editor (ui w)); [|discriminate].
    match type of Hs with Some ?x = _ => replace w' with x by congruence end.
    apply coherent_run; auto using coherent_editor_call.
  - destruct (shows_editor (ui w)); [|discriminate].
    replace w' with (run editor_call Editor.clickClose w) by congruence.
    apply coherent_run; auto using coherent_editor_call.
  - destruct (pending w !! i) as [a|] eqn:Ea; [|discriminate]. injection Hs as <-.
    apply coherent_resume; [|now apply coherent_answered].
    intros uid Hu. destruct H as [_ H2]. cbn. apply (H2 a); [|exact Hu].
    apply list_elem_of_In. eapply list_elem_of_lookup_2. exact Ea.
Qed.

Lemma reachable_coherent w : reachable w -> coherent w.
Proof.
  induction 1 as [uid tb | w l w' _ IH Hs].
  - apply coherent_start.
  - eapply coherent_step; eauto.
Qed.

End CoherenceAnswers.

(** ** Summarization on the page *)

Section Summarize.

Import Dashboard.

Lemma lookup_last_await (l : list Await) a : (l ++ [a]) !! List.length l = Some a.
Proof. apply list_lookup_middle. reflexivity. Qed.

Lemma delete_last_await (l : list Await) a : delete (List.length l) (l ++ [a]) = l.
Proof.
  induction l as [|x l IH]; [reflexivity|]. simpl. f_equal. exact IH.
Qed.

Lemma lookup_past_await (l : list Await) : l !! List.length l = None.
Proof. apply lookup_ge_None. lia. Qed.

Lemma not_blank_truthy c : ~ blank c -> truthy (trim c) = true.
Proof.
  intros H. destruct (truthy (trim c)) eqn:E; [reflexivity|].
  apply truthy_trim in E. contradiction.
Qed.

(** C4.  For a note whose content is empty or only white space, the card
    handler and the orchestrator alike stop at the guard: the only thing
    that happens is the destructive notice "Cannot summarize".  No
    request to the summarization endpoint is logged, and the component
    state (list, marker, everything), the table and the calls in flight
    are as before. *)
Theorem blank_content_is_not_summarized (note : Note.t) :
  blank (Note.content note) ->
  Card.handleSummarize note = [Card.Notify Card.cannot_summarize]
  /\ destructive Card.cannot_summarize = true
  /\ forall (w : World) (k t : string),
       let direct := generateSummary k t (Note.content note) w in
       let from_card := run card_call (Card.handleSummarize note) w in
       (ui direct = ui w /\ table direct = table w
        /\ pending direct = pending w
        /\ log direct = log w ++ [Toast Card.cannot_summarize])
       /\ (ui from_card = ui w /\ table from_card = table w
           /\ pending from_card = pending w
           /\ log from_card = log w ++ [Toast Card.cannot_summarize])
       /\ (forall t' c', In (Invoke t' c') (log direct) -> In (Invoke t' c') (log w))
       /\ (forall t' c', In (Invoke t' c') (log from_card) -> In (Invoke t' c') (log w)).
Proof.
  intros Hb. apply truthy_trim in Hb.
  assert (Hc : Card.handleSummarize note = [Card.Notify Card.cannot_summarize])
    by (unfold Card.handleSummarize; now rewrite Hb).
  split; [exact Hc|]. split; [reflexivity|].
  intros w k t. cbv zeta. rewrite Hc. unfold generateSummary. rewrite Hb.
  cbn. repeat split.
  - intros t' c' H. apply in_app_or in H as [H | [H | []]]; [exact H | discriminate].
  - intros t' c' H. apply in_app_or in H as [H | [H | []]]; [exact H | discriminate].
Qed.

Lemma generateSummary_started k t c w :
  ~ blank c ->
  generateSummary k t c w
  = await (AwaitInvoke k t c)
      (emit [Invoke t c] (render (setGeneratingSummary (Some k)) w)).
Proof.
  intros H. unfold generateSummary. now rewrite not_blank_truthy.
Qed.

(** Where the part of [generateSummary] after the first [await] ends:
    in the [catch] block, or at the second [await]. *)
Lemma invoke_answered_cases k env w :
  (exists m, generateSummary_invoke_answered k env w = generateSummary_failed m w
             /\ (fault env = Some m
                 \/ fault env = None /\ (reply env = None \/ reply env = Some "")
                 \/ fault env = None /\ user w = None))
  \/ (exists uid s,
        fault env = None /\ reply env = Some s /\ s <> "" /\ user w = Some uid
        /\ generateSummary_invoke_answered k env w
           = await (AwaitSummary k uid s) (emit [UpdateSummary k uid s] w)).
Proof.
  unfold generateSummary_invoke_answered.
  destruct (fault env) as [m|].
  { left. exists m. split; [reflexivity | left; reflexivity]. }
  destruct (reply env) as [s|].
  2:{ left. eexists. split; [reflexivity|]. right. left. auto. }
  destruct s as [|a s].
  { left. eexists. split; [reflexivity|]. right. left. auto. }
  cbn [truthy].
  destruct (user w) as [uid|].
  2:{ left. eexists. split; [reflexivity|]. right. right. auto. }
  right. exists uid, (String a s). repeat split; congruence.
Qed.

(** C5.  A summarize request on content that is not blank sets the marker
    to the note's id and puts the request in flight.  Each later part of
    the operation, run in any world, either ends the operation with the
    marker cleared or (only after a good answer of the endpoint) puts the
    store update in flight; the part after the store update always
    clears the marker.  So on every path (endpoint error, no summary in
    the answer, store error, success) the operation ends with no note
    generating and nothing of it in flight; on a failing path the
    component state is the one before the request, marker cleared: no
    error is kept. *)
Theorem generating_marker_set_then_cleared (k t c : string) :
  ~ blank c ->
  (forall w,
      let w1 := generateSummary k t c w in
      generatingSummary (ui w1) = Some k
      /\ isGeneratingSummary k (ui w1) = true
      /\ pending w1 = pending w ++ [AwaitInvoke k t c]
      /\ log w1 = log w ++ [Invoke t c])
  /\ (forall w env,
        let w2 := generateSummary_invoke_answered k env w in
        (generatingSummary (ui w2) = None /\ pending w2 = pending w
         /\ ui w2 = setGeneratingSummary None (ui w))
        \/ (exists uid s, fault env = None /\ reply env = Some s /\ s <> ""
                          /\ pending w2 = pending w ++ [AwaitSummary k uid s]
                          /\ ui w2 = ui w))
  /\ (forall w uid s env,
        let w3 := generateSummary_update_answered k uid s env w in
        generatingSummary (ui w3) = None /\ pending w3 = pending w
        /\ (fault env <> None -> ui w3 = setGeneratingSummary None (ui w)))
  /\ (forall w env1 env2,
        let w' := summarize_run k t c env1 env2 w in
        generatingSummary (ui w') = None
        /\ isGeneratingSummary k (ui w') = false
        /\ pending w' = pending w
        /\ (ui w' = setGeneratingSummary None (ui w)
            \/ exists s, fault env1 = None /\ fault env2 = None
                         /\ reply env1 = Some s /\ s <> ""
                         /\ ui w' = setGeneratingSummary None
                                      (setNotes (map (fun note =>
                                         if String.eqb (Note.id note) k
                                         then Note.with_summary note s else note))
                                         (ui w)))).
Proof.
  intros Hc. split; [|split; [|split]].
  - intros w. cbv zeta. rewrite generateSummary_started by exact Hc.
    repeat split. unfold isGeneratingSummary. cbn. now rewrite bool_decide_true.
  - intros w env. cbv zeta.
    destruct (invoke_answered_cases k env w)
      as [(m & -> & _) | (uid & s & Hf & Hr & Hs & Hu & ->)].
    + left. repeat split.
    + right. exists uid, s. repeat split; assumption.
  - intros w uid s env. cbv zeta.
    unfold generateSummary_update_answered, store_call.
    destruct (fault env); repeat split; congruence.
  - intros w env1 env2. cbv zeta. unfold summarize_run.
    rewrite generateSummary_started by exact Hc.
    cbn [step pending await emit render].
    rewrite lookup_last_await. cbn [resume].
    remember (answered _ _) as w1 eqn:Ew1.
    assert (Hp1 : pending w1 = pending w)
      by (subst w1; apply delete_last_await).
    assert (Hu1 : ui w1 = setGeneratingSummary (Some k) (ui w))
      by (subst w1; reflexivity).
    destruct (invoke_answered_cases k env1 w1)
      as [(m & -> & _) | (uid & s & Hf & Hr & Hs & Hu & ->)].
    + cbn [pending generateSummary_failed render emit].
      rewrite Hp1, lookup_past_await.
      unfold generateSummary_failed. cbn [ui pending render emit].
      rewrite Hu1, Hp1. unfold isGeneratingSummary. repeat split. now left.
    + cbn [pending await emit]. rewrite Hp1, lookup_last_await.
      cbn [resume].
      remember (answered (List.length (pending w))
                  (await (AwaitSummary k uid s)
                     (emit [UpdateSummary k uid s] w1))) as w2 eqn:Ew2.
      assert (Hp2 : pending w2 = pending w).
      { subst w2. cbn [pending answered await emit]. rewrite Hp1.
        apply delete_last_await. }
      assert (Hu2 : ui w2 = setGeneratingSummary (Some k) (ui w))
        by (subst w2; exact Hu1).
      unfold generateSummary_update_answered, store_call.
      destruct (fault env2) eqn:Ef2; unfold generateSummary_failed;
        cbn [ui pending render emit store]; rewrite Hu2, Hp2;
        unfold isGeneratingSummary.
      * repeat split. now left.
      * repeat split. right. exists s. repeat split; auto.
Qed.

End Summarize.

(** ** Store failures *)

Section StoreFailures.

Import Dashboard.

(** C6.  When the insert of a create-save, the update of an edit-save or
    a delete is answered with an error, the list in memory (and the
    table) is as before and a destructive notification is shown; for a
    save the editor stays as it was.  A save closes the editor and
    resets the edited note exactly when its store call succeeds. *)
Theorem failed_store_call_changes_nothing (a : Await) (env : Env) (w : World) :
  let w' := resume a env w in
  (store_call_fails a env w ->
     notes (ui w') = notes (ui w)
     /\ table w' = table w
     /\ (exists what n, log w' = log w ++ [ConsoleError what; Toast n]
                        /\ destructive n = true)
     /\ isEditorOpen (ui w') = isEditorOpen (ui w)
     /\ editingNote (ui w') = editingNote (ui w))
  /\ (is_save a -> ~ store_call_fails a env w ->
        isEditorOpen (ui w') = false /\ editingNote (ui w') = None)
  /\ (is_save a ->
        isEditorOpen (ui w') <> isEditorOpen (ui w)
        \/ editingNote (ui w') <> editingNote (ui w) ->
        ~ store_call_fails a env w).
Proof.
  cbv zeta.
  assert (Hfail : store_call_fails a env w ->
     notes (ui (resume a env w)) = notes (ui w)
     /\ table (resume a env w) = table w
     /\ (exists what n, log (resume a env w) = log w ++ [ConsoleError what; Toast n]
                        /\ destructive n = true)
     /\ isEditorOpen (ui (resume a env w)) = isEditorOpen (ui w)
     /\ editingNote (ui (resume a env w)) = editingNote (ui w)).
  { destruct a; cbn [store_call_fails resume]; try contradiction.
    - unfold saveNote_update_answered.
      destruct (store_call _ _ _) as [tb [d|m']]; intros [m Hm]; [discriminate|].
      cbn. repeat split. eauto.
    - unfold saveNote_insert_answered.
      destruct (store_call _ _ _) as [tb [d|m']]; intros [m Hm]; [discriminate|].
      cbn. repeat split. eauto.
    - unfold deleteNote_answered.
      destruct (store_call _ _ _) as [tb [d|m']]; intros [m Hm]; [discriminate|].
      cbn. repeat split. eauto. }
  assert (Hok : is_save a -> ~ store_call_fails a env w ->
     isEditorOpen (ui (resume a env w)) = false
     /\ editingNote (ui (resume a env w)) = None).
  { destruct a; cbn [is_save store_call_fails resume]; try contradiction.
    - unfold saveNote_update_answered.
      destruct (store_call _ _ _) as [tb [d|m']]; intros _ H.
      + split; reflexivity.
      + exfalso. apply H. eauto.
    - unfold saveNote_insert_answered.
      destruct (store_call _ _ _) as [tb [d|m']]; intros _ H.
      + split; reflexivity.
      + exfalso. apply H. eauto. }
  split; [exact Hfail|]. split; [exact Hok|].
  intros _ Hch Hf. destruct (Hfail Hf) as (_ & _ & _ & Ho & He).
  destruct Hch as [Hch | Hch]; contradiction.
Qed.

End StoreFailures.

(** ** Saving an existing note *)

Section StoreFacts.


Lemma update_summary_hit uid k s now tb r :
  tb !! k = Some r -> Store.user_id r = uid ->
  Store.update_summary uid k s now tb
  = <[k := {| Store.user_id := Store.user_id r; Store.title := Store.title r;
             Store.content := Store.content r; Store.summary := Some s;
             Store.created_at := Store.created_at r;
             Store.updated_at := now |}]> tb.
Proof.
  intros Hr Hu. unfold Store.update_summary. rewrite Hr, decide_True by exact Hu.
  reflexivity.
Qed.

Lemma sample_lookup : sample_table !! "n1" = Some sample_row.
Proof. apply lookup_singleton_eq. Qed.

End StoreFacts.

Section UpdateSave.

Import Dashboard.

Lemma lookup_map {A B} (f : A -> B) (l : list A) (i : nat) :
  map f l !! i = f <$> (l !! i).
Proof.
  revert i. induction l as [|x l IH]; intros [|i]; simpl; auto.
Qed.



End UpdateSave.

Section UpdateSaveExample.

Import Dashboard.

Lemma loaded_notes :
  exists w, loaded = Some w /\ reachable w
            /\ notes (ui w) = [sample_note]
            /\ table w = sample_table
            /\ pending w = [] /\ user w = Some "u".
Proof.
  destruct loaded as [w|] eqn:E; [|vm_compute in E; discriminate].
  exists w. split; [reflexivity|]. split.
  - eapply steps_reachable; [apply (reach_start (Some "u") sample_table) | exact E].
  - vm_compute in E. injection E as <-. repeat split; reflexivity.
Qed.


End UpdateSaveExample.

(** ** A successful summarize *)

Section SummarizeSuccess.

Import Dashboard.

(** What a summarize whose two calls succeed leaves behind. *)
Lemma summarize_succeeds
    (w : World) (n : Note.t) (t c v : string) (env1 env2 : Env) :
  reachable w ->
  In n (notes (ui w)) ->
  ~ blank c ->
  fault env1 = None -> reply env1 = Some v -> v <> "" ->
  fault env2 = None ->
  exists w' r,
    summarize (Note.id n) t c env1 env2 w = Some w'
    /\ table w !! Note.id n = Some r
    /\ notes (ui w') = summary_merged (Note.id n) v (notes (ui w))
    /\ table w' = <[Note.id n := summary_written v (now env2) r]> (table w)
    /\ (forall m, In m (notes (ui w')) -> Note.id m = Note.id n ->
                  Note.summary m = Some v)
    /\ (exists r', table w' !! Note.id n = Some r' /\ Store.summary r' = Some v)
    /\ generatingSummary (ui w') = None.
Proof.
  intros Hreach Hn Hc Hf1 Hr1 Hv Hf2.
  apply reachable_coherent in Hreach as [H1 _].
  destruct (H1 n Hn) as (r & Hr & _ & Hu).
  unfold summarize. rewrite generateSummary_started by exact Hc.
  cbn [steps step pending await emit render].
  rewrite lookup_last_await. cbn [resume].
  remember (answered _ _) as w1 eqn:Ew1.
  assert (Hp1 : pending w1 = pending w)
    by (subst w1; apply delete_last_await).
  assert (Hu1 : user w1 = Some (Store.user_id r)) by (subst w1; exact Hu).
  assert (Ht1 : table w1 = table w) by (subst w1; reflexivity).
  assert (Hn1 : notes (ui w1) = notes (ui w)) by (subst w1; reflexivity).
  unfold generateSummary_invoke_answered. rewrite Hf1, Hr1, Hu1.
  apply truthy_true in Hv. rewrite Hv.
  cbn [pending await emit]. rewrite Hp1, lookup_last_await. cbn [resume].
  unfold generateSummary_update_answered, store_call. rewrite Hf2.
  cbn [table answered await emit]. rewrite Ht1.
  rewrite (update_summary_hit _ _ _ _ _ _ Hr eq_refl).
  eexists _, r. split; [reflexivity|]. split; [exact Hr|].
  cbn [ui notes table render emit store answered await setNotes
       setGeneratingSummary generatingSummary].
  rewrite Hn1. split; [reflexivity|]. split; [reflexivity|].
  split; [|split; [|reflexivity]].
  - intros m Hm Hid. apply in_map_iff in Hm as (m0 & <- & _).
    destruct (String.eqb_spec (Note.id m0) (Note.id n)) as [|Hne];
      [reflexivity | contradiction].
  - eexists. rewrite lookup_insert_eq. split; reflexivity.
Qed.

(** C3 (as amended).  When the endpoint answers a summarize of note [k]
    with a summary [v] that is not empty, the page asks the store to
    write [v], and nothing else, as the summary of the row.  When the
    store answers that update without error, whatever the list and the
    table are at that moment and whatever the summary was before: if the
    row exists and belongs to the user its summary is [v]; its title,
    content, owner and creation time are unchanged and its [updated_at]
    is the time of the update, as the trigger sets it; no other row
    changes, and when there is no such row nothing is written.  In
    memory every entry with the id [k] gets the summary [v] and keeps
    every other field, [updated_at] included; entries with another id
    are unchanged.  The marker is cleared and the success notice is
    shown. *)
Theorem summarize_overwrites_summary
    (w : World) (k uid v : string) (env : Env) :
  fault env = None ->
  let w' := resume (AwaitSummary k uid v) env w in
  (forall r, table w !! k = Some r -> Store.user_id r = uid ->
     exists r',
       table w' !! k = Some r'
       /\ Store.summary r' = Some v
       /\ Store.title r' = Store.title r
       /\ Store.content r' = Store.content r
       /\ Store.user_id r' = Store.user_id r
       /\ Store.created_at r' = Store.created_at r
       /\ Store.updated_at r' = now env)
  /\ (forall j, j <> k -> table w' !! j = table w !! j)
  /\ ((forall r, table w !! k = Some r -> Store.user_id r <> uid) ->
      table w' = table w)
  /\ List.length (notes (ui w')) = List.length (notes (ui w))
  /\ (forall i n, notes (ui w) !! i = Some n -> Note.id n = k ->
        exists n',
          notes (ui w') !! i = Some n'
          /\ Note.summary n' = Some v
          /\ Note.id n' = Note.id n
          /\ Note.user_id n' = Note.user_id n
          /\ Note.title n' = Note.title n
          /\ Note.content n' = Note.content n
          /\ Note.created_at n' = Note.created_at n
          /\ Note.updated_at n' = Note.updated_at n)
  /\ (forall i n, notes (ui w) !! i = Some n -> Note.id n <> k ->
        notes (ui w') !! i = Some n)
  /\ generatingSummary (ui w') = None
  /\ (exists n, log w' = log w ++ [Toast n]
                /\ destructive n = false
                /\ notice_title n = "Summary generated!")
  /\ (forall w0 env0 t c,
        fault env0 = None -> reply env0 = Some v -> v <> "" ->
        user w0 = Some uid ->
        let w1 := resume (AwaitInvoke k t c) env0 w0 in
        pending w1 = pending w0 ++ [AwaitSummary k uid v]
        /\ log w1 = log w0 ++ [UpdateSummary k uid v]
        /\ notes (ui w1) = notes (ui w0)
        /\ table w1 = table w0).
Proof.
  intros Hf. cbv zeta. cbn [resume].
  unfold generateSummary_update_answered, store_call. rewrite Hf.
  cbn [table ui notes log store emit render setNotes setGeneratingSummary
       generatingSummary].
  split; [|split; [|split; [|split; [|split; [|split; [|split; [|split]]]]]]].
  - intros r Hr Hu. rewrite (update_summary_hit _ _ _ _ _ _ Hr Hu).
    eexists. rewrite lookup_insert_eq. split; [reflexivity|]. cbn. auto 10.
  - intros j Hj. unfold Store.update_summary.
    destruct (table w !! k) as [r|]; [|reflexivity].
    destruct (decide (Store.user_id r = uid)); [|reflexivity].
    apply lookup_insert_ne. congruence.
  - intros Hno. unfold Store.update_summary.
    destruct (table w !! k) as [r|]; [|reflexivity].
    destruct (decide (Store.user_id r = uid)) as [E|]; [|reflexivity].
    exfalso. exact (Hno r eq_refl E).
  - apply length_map.
  - intros i n Hn Hid. rewrite lookup_map, Hn. cbn [fmap option_fmap option_map].
    apply String.eqb_eq in Hid. rewrite Hid.
    eexists. split; [reflexivity|]. cbn. repeat split.
  - intros i n Hn Hid. rewrite lookup_map, Hn. cbn [fmap option_fmap option_map].
    apply String.eqb_neq in Hid. rewrite Hid. reflexivity.
  - reflexivity.
  - eexists. split; [reflexivity|]. split; reflexivity.
  - intros w0 env0 t c Hf0 Hr0 Hv Hu0. cbv zeta. cbn [resume].
    unfold generateSummary_invoke_answered. rewrite Hf0, Hr0, Hu0.
    apply truthy_true in Hv. rewrite Hv. cbn. auto.
Qed.

(** C3, counterexample.  The note written at time 1 is summarized and the
    store answers at time 2: the row then carries [updated_at] 2, so the
    summary is not the only column of the row that has changed. *)
Lemma summarize_moves_updated_at : ~ summarize_changes_summary_only.
Proof.
  intros H. destruct loaded_notes as (w & _ & Hr & Hn & Ht & _ & _).
  destruct (H w sample_note "Meeting" "Discuss budget" "Budget talk"
              (at_time 2 (Some "Budget talk")) (at_time 2 None) Hr)
    as (w' & r & Hs & Hrow & _ & Htb); try reflexivity; try discriminate.
  { rewrite Hn. now left. }
  { intros Hb. apply trim_empty in Hb. discriminate Hb. }
  destruct (summarize_succeeds w sample_note "Meeting" "Discuss budget"
              "Budget talk" (at_time 2 (Some "Budget talk")) (at_time 2 None) Hr)
    as (w2 & r2 & Hs2 & Hrow2 & _ & Htb2 & _); try reflexivity; try discriminate.
  { rewrite Hn. now left. }
  { intros Hb. apply trim_empty in Hb. discriminate Hb. }
  assert (w2 = w') as -> by congruence.
  assert (r2 = r) as -> by congruence.
  rewrite Htb in Htb2.
  apply (f_equal (fun tb => Store.updated_at <$> tb !! Note.id sample_note)) in Htb2.
  rewrite !lookup_insert_eq in Htb2. cbn in Htb2.
  rewrite Ht in Hrow. change (sample_table !! "n1" = Some r) in Hrow.
  rewrite sample_lookup in Hrow.
  injection Hrow as <-. discriminate Htb2.
Qed.

End SummarizeSuccess.

(** ** The summarization endpoint *)

Section EdgeFacts.

Import Edge.

Lemma jsonHeaders_cors h : In h corsHeaders -> In h jsonHeaders.
Proof. intros Hh. unfold jsonHeaders. apply in_or_app. now left. Qed.

Lemma error_response_cors code m : has_cors (error_response code m).
Proof. intros h Hh. exact (jsonHeaders_cors h Hh). Qed.

Lemma respond_cors req fetched r :
  respond req fetched = Returned r -> has_cors r.
Proof.
  unfold respond.
  destruct (json req) as [parsed|]; [|discriminate]. cbn [bind].
  destruct (prop "content" (Some parsed)) as [content|]; [|discriminate].
  cbn [bind].
  destruct (prop "title" (Some parsed)) as [title|]; [|discriminate].
  cbn [bind].
  destruct (negb (truthy_value content)).
  { intros [= <-]. apply error_response_cors. }
  destruct (interpolate _) as [[]|]; [|discriminate]. cbn [bind].
  destruct (interpolate content) as [[]|]; [|discriminate]. cbn [bind].
  destruct fetched as [response|]; [|discriminate]. cbn [bind].
  destruct (negb (ok response)).
  { intros [= <-]. apply error_response_cors. }
  destruct (upstream_json response) as [data|]; [|discriminate]. cbn [bind].
  destruct (completion data) as [summary|]; [|discriminate]. cbn [bind].
  destruct summary as [s|].
  - destruct (truthy_value (Some s)); intros [= <-].
    + intros h Hh. exact (jsonHeaders_cors h Hh).
    + apply error_response_cors.
  - intros [= <-]. apply error_response_cors.
Qed.

Lemma handler_not_options req fetched :
  method req <> "OPTIONS" ->
  handler req fetched
  = match respond req fetched with
    | Returned r => r
    | Thrown m => error_response 500 (or_else m "Internal server error")
    end.
Proof.
  intros H. unfold handler.
  destruct (String.eqb_spec (method req) "OPTIONS"); [contradiction|reflexivity].
Qed.

Lemma handler_cors req fetched : has_cors (handler req fetched).
Proof.
  unfold handler. destruct (String.eqb (method req) "OPTIONS").
  - intros h Hh. exact Hh.
  - destruct (respond req fetched) as [r|m] eqn:E.
    + eapply respond_cors; eauto.
    + apply error_response_cors.
Qed.

Lemma has_cors_permissive r : has_cors r -> permissive_cors r.
Proof.
  intros H. split; apply H; cbn; auto.
Qed.

(** The members of an object, as [field] finds them. *)
Lemma field_None key fields :
  field key fields = None <-> ~ In key (map fst fields).
Proof.
  induction fields as [|[k v] rest IH]; cbn [field map fst In].
  - tauto.
  - destruct (field key rest) as [v'|].
    + split; [discriminate|]. intros H. exfalso.
      assert (Hn : ~ In key (map fst rest)) by tauto.
      apply IH in Hn. discriminate Hn.
    + destruct (String.eqb_spec k key) as [E|E].
      * split; [discriminate | intros H; exfalso; apply H; now left].
      * split; [|reflexivity]. intros _ [H | H]; [contradiction|].
        apply IH in H; [exact H | reflexivity].
Qed.

Lemma field_binds key fields v :
  field key fields = Some v <-> binds fields key v.
Proof.
  induction fields as [|[k x] rest IH]; cbn [field].
  - split; [discriminate|]. intros (before & after & E & _).
    destruct before; discriminate E.
  - destruct (field key rest) as [v'|] eqn:Er.
    + split.
      * intros [= ->]. destruct IH as [IH _].
        destruct (IH eq_refl) as (before & after & -> & Hn).
        exists ((k, x) :: before), after. split; [reflexivity | exact Hn].
      * intros (before & after & E & Hn). destruct before as [|b before];
          cbn in E; simplify_eq.
        -- apply field_None in Hn. congruence.
        -- apply IH. exists before, after. auto.
    + destruct (String.eqb_spec k key) as [Ek|Ek].
      * split.
        -- intros [= ->]. exists [], rest. subst k. split; [reflexivity|].
           apply field_None. exact Er.
        -- intros (before & after & E & Hn). destruct before as [|b before];
             cbn in E; simplify_eq; [reflexivity|]. exfalso.
           assert (H : binds (before ++ (key, v) :: after) key v)
             by (exists before, after; auto).
           apply IH in H. discriminate H.
      * split; [discriminate|].
        intros (before & after & E & Hn). destruct before as [|b before];
          cbn in E; simplify_eq. exfalso.
        assert (H : binds (before ++ (key, v) :: after) key v)
          by (exists before, after; auto).
        apply IH in H. discriminate H.
Qed.

Lemma member_field fields key v :
  member (JObj fields) key v <-> field key fields = Some v.
Proof.
  rewrite field_binds. split.
  - intros (f & [= <-] & H). exact H.
  - intros H. exists fields. auto.
Qed.

Lemma prop_member key j v :
  prop key (Some j) = Returned (Some v) <-> member j key v.
Proof.
  destruct j; cbn [prop];
    try (split; [discriminate | intros (f & E & _); discriminate E]).
  rewrite member_field. split; [intros [= E]; exact E | intros ->; reflexivity].
Qed.

Lemma prop_defined key j :
  j <> JNull ->
  exists v, prop key (Some j) = Returned v
            /\ (v = None -> forall x, ~ member j key x).
Proof.
  intros Hj. destruct j; try contradiction; cbn [prop];
    try (eexists; split; [reflexivity|]; intros _ x (f & E & _); discriminate E).
  exists (field key fields). split; [reflexivity|].
  intros E x Hx. apply member_field in Hx. congruence.
Qed.

Lemma opt_prop_member key x v :
  opt_prop key x = Returned (Some v) <-> exists j, x = Some j /\ member j key v.
Proof.
  destruct x as [j|]; cbn [opt_prop].
  - destruct j; try (rewrite prop_member; split;
                       [intros H; eexists; split; [reflexivity | exact H]
                       | intros (j & [= <-] & H); exact H]).
    split; [discriminate | intros (j & [= <-] & f & E & _); discriminate E].
  - split; [discriminate | intros (j & E & _); discriminate E].
Qed.

Lemma first_object x fields :
  first x = Returned (Some (JObj fields))
  <-> exists choices, x = Some choices /\ first_of choices (JObj fields).
Proof.
  destruct x as [choices|]; cbn [first].
  2:{ split; [discriminate | intros (c & E & _); discriminate E]. }
  destruct choices as [ | b | z | s | items | fs ]; cbn [first].
  - split; [discriminate|]. intros (c & [= <-] & [(r & E) | (f & E & _)]); discriminate E.
  - split; [discriminate|]. intros (c & [= <-] & [(r & E) | (f & E & _)]); discriminate E.
  - split; [discriminate|]. intros (c & [= <-] & [(r & E) | (f & E & _)]); discriminate E.
  - split.
    + destruct s; discriminate.
    + intros (c & [= <-] & [(r & E) | (f & E & _)]); discriminate E.
  - split.
    + destruct items as [|i items]; cbn; [discriminate|]. intros [= ->].
      eexists. split; [reflexivity|]. left. eauto.
    + intros (c & [= <-] & [(r & [= ->]) | (f & E & _)]); [reflexivity | discriminate E].
  - split.
    + intros [= E]. eexists. split; [reflexivity|]. right.
      apply member_field. exact E.
    + intros (c & [= <-] & [(r & E) | H]); [discriminate E|].
      apply member_field in H. now rewrite H.
Qed.

(** [completion] reads a value exactly along the path
    [data.choices[0].message.content]. *)
Lemma completion_spec data s :
  completion data = Returned (Some s) <-> completes data s.
Proof.
  unfold completion, completes. split.
  - destruct (prop "choices" (Some data)) as [choices|] eqn:E1; [|discriminate].
    cbn [bind].
    destruct (first choices) as [choice|] eqn:E2; [|discriminate]. cbn [bind].
    destruct (opt_prop "message" choice) as [message|] eqn:E3; [|discriminate].
    cbn [bind]. intros E4.
    apply opt_prop_member in E4 as (m & -> & Hm).
    apply opt_prop_member in E3 as (c & -> & Hc).
    destruct Hc as (fc & -> & Hc).
    apply first_object in E2 as (ch & -> & Hch).
    apply prop_member in E1.
    exists ch, (JObj fc), m. repeat split; auto. exists fc. auto.
  - intros (choices & choice & message & H1 & H2 & H3 & H4).
    apply prop_member in H1. rewrite H1. cbn [bind].
    destruct H3 as (fc & -> & H3).
    assert (E2 : first (Some choices) = Returned (Some (JObj fc)))
      by (apply first_object; eauto).
    rewrite E2. cbn [bind].
    assert (E3 : opt_prop "message" (Some (JObj fc)) = Returned (Some message)).
    { apply opt_prop_member. eexists. split; [reflexivity|]. exists fc. auto. }
    rewrite E3. cbn [bind]. apply opt_prop_member. eauto.
Qed.

Lemma truthy_falsy c : truthy_value (Some c) = false <-> falsy c.
Proof.
  unfold falsy. destruct c as [ | b | z | s | items | fs]; cbn.
  - split; auto.
  - destruct b; split; auto; try discriminate.
    intros [H | [H | [H | H]]]; discriminate H.
  - destruct (Z.eqb_spec z 0) as [->|Hz]; cbn; split; auto; try discriminate.
    intros [H | [H | [H | H]]]; try discriminate H. congruence.
  - destruct s; cbn; split; auto; try discriminate.
    intros [H | [H | [H | H]]]; discriminate H.
  - split; [discriminate|]. intros [H | [H | [H | H]]]; discriminate H.
  - split; [discriminate|]. intros [H | [H | [H | H]]]; discriminate H.
Qed.

Lemma not_falsy_truthy c : ~ falsy c -> truthy_value (Some c) = true.
Proof.
  intros H. destruct (truthy_value (Some c)) eqn:E; [reflexivity|].
  apply truthy_falsy in E. contradiction.
Qed.

(** Every upstream answer is a failure or gives a completion. *)
Lemma upstream_failure_or_gives fetched :
  upstream_failure fetched \/ exists s, upstream_gives fetched s.
Proof.
  destruct fetched as [[o j]|m]; [|left; constructor].
  destruct o; [|left; constructor].
  destruct j as [data|m]; [|left; constructor].
  destruct (completion data) as [[s|]|m] eqn:E.
  - destruct (truthy_value (Some s)) eqn:Et.
    + right. exists s, data. split; [reflexivity|]. split.
      * apply completion_spec. exact E.
      * intros Hf. apply truthy_falsy in Hf. congruence.
    + left. constructor. intros s' Hs'. apply completion_spec in Hs'.
      assert (s' = s) as -> by congruence. apply truthy_falsy. exact Et.
  - left. constructor. intros s' Hs'. apply completion_spec in Hs'. congruence.
  - left. constructor. intros s' Hs'. apply completion_spec in Hs'. congruence.
Qed.

(** The handler on a request with a body that was parsed: up to the
    guard on the content. *)
Lemma respond_unfold req fetched parsed content title :
  json req = Returned parsed ->
  prop "content" (Some parsed) = Returned content ->
  prop "title" (Some parsed) = Returned title ->
  respond req fetched
  = if negb (truthy_value content) then
      Returned (error_response 400 "Content is required")
    else
      bind (interpolate (if truthy_value title then title
                         else Some (JStr "Untitled"))) (fun _ =>
      bind (interpolate content) (fun _ =>
      bind fetched (fun response =>
      if negb (ok response) then
        Returned (error_response 500 "Failed to generate summary")
      else
        bind (upstream_json response) (fun data =>
        bind (completion data) (fun summary =>
        match summary with
        | Some s =>
            if truthy_value summary then
              Returned {| status := 200; headers := jsonHeaders;
                          body := Some (JObj [("summary", s)]) |}
            else Returned (error_response 500 "No summary generated")
        | None => Returned (error_response 500 "No summary generated")
        end))))).
Proof.
  intros Hj Hc Ht. unfold respond. rewrite Hj. cbn [bind].
  rewrite Hc. cbn [bind]. rewrite Ht. reflexivity.
Qed.

Lemma primitive_stringifies c : primitive c -> stringifies c = true.
Proof. destruct c; cbn; tauto. Qed.

Ltac server_error := split; [reflexivity | eexists; reflexivity].

(** What the handler answers when the body is missing, unreadable or
    [null]. *)
Lemma unreadable_body_is_a_server_error req fetched :
  method req <> "OPTIONS" ->
  (exists m, json req = Thrown m) \/ json req = Returned JNull ->
  status (handler req fetched) = 500%Z /\ is_error (handler req fetched).
Proof.
  intros Hm Hj. rewrite handler_not_options by exact Hm.
  unfold respond. destruct Hj as [[m ->] | ->]; cbn; server_error.
Qed.

(** C9 (as amended).  Every response of the handler, the one to the
    [OPTIONS] preflight included (status 200, no body), carries the two
    CORS headers [Access-Control-Allow-Origin: *] and
    [Access-Control-Allow-Headers].  For any other method: a body that
    parses to a value other than [null] and holds no content, or one that
    is [null], [false], [0] or [""], gives 400 with an [{error}] body; a
    body that cannot be read or is [null] gives 500 with an [{error}]
    body; with a content, an upstream call that throws, is not [ok],
    gives no JSON, no completion or one that counts as absent gives 500
    with an [{error}] body, and so does a content that cannot be
    converted to text; with a content and a title that are strings,
    numbers or booleans, an [ok] upstream answer with a completion gives
    200 with that completion as [{summary}].  Every upstream answer
    falls under one of the two cases. *)
Theorem handler_statuses :
  (forall req fetched, permissive_cors (handler req fetched))
  /\ (forall req fetched,
        method req = "OPTIONS" ->
        status (handler req fetched) = 200%Z
        /\ body (handler req fetched) = None)
  /\ (forall req fetched parsed,
        method req <> "OPTIONS" ->
        json req = Returned parsed -> parsed <> JNull ->
        no_content parsed ->
        status (handler req fetched) = 400%Z
        /\ is_error (handler req fetched))
  /\ (forall req fetched,
        method req <> "OPTIONS" ->
        (exists m, json req = Thrown m) \/ json req = Returned JNull ->
        status (handler req fetched) = 500%Z
        /\ is_error (handler req fetched))
  /\ (forall req fetched parsed c,
        method req <> "OPTIONS" ->
        json req = Returned parsed ->
        member parsed "content" c -> ~ falsy c ->
        upstream_failure fetched ->
        status (handler req fetched) = 500%Z
        /\ is_error (handler req fetched))
  /\ (forall req fetched parsed fields,
        method req <> "OPTIONS" ->
        json req = Returned parsed ->
        member parsed "content" (JObj fields) ->
        In "toString" (map fst fields) ->
        status (handler req fetched) = 500%Z
        /\ is_error (handler req fetched))
  /\ (forall req fetched parsed c s,
        method req <> "OPTIONS" ->
        json req = Returned parsed ->
        member parsed "content" c -> ~ falsy c -> primitive c ->
        (forall t, member parsed "title" t -> primitive t) ->
        upstream_gives fetched s ->
        status (handler req fetched) = 200%Z
        /\ body (handler req fetched) = Some (JObj [("summary", s)]))
  /\ (forall fetched,
        upstream_failure fetched \/ exists s, upstream_gives fetched s).
Proof.
  split; [|split; [|split; [|split; [|split; [|split; [|split]]]]]].
  - intros req fetched. apply has_cors_permissive, handler_cors.
  - intros req fetched H. unfold handler. rewrite H. cbn. auto.
  - intros req fetched parsed Hm Hj Hn Hc.
    rewrite handler_not_options by exact Hm.
    destruct (prop_defined "content" parsed Hn) as (content & Ec & Hnone).
    destruct (prop_defined "title" parsed Hn) as (title & Et & _).
    rewrite (respond_unfold _ _ _ _ _ Hj Ec Et).
    assert (Hf : truthy_value content = false).
    { destruct content as [c|]; [|reflexivity].
      apply truthy_falsy, Hc, prop_member. exact Ec. }
    rewrite Hf. cbn. server_error.
  - intros req fetched Hm Hj.
    exact (unreadable_body_is_a_server_error req fetched Hm Hj).
  - intros req fetched parsed c Hm Hj Hc Hnf Hup.
    rewrite handler_not_options by exact Hm.
    assert (Hn : parsed <> JNull)
      by (intros ->; destruct Hc as (f & E & _); discriminate E).
    destruct (prop_defined "title" parsed Hn) as (title & Et & _).
    apply prop_member in Hc.
    rewrite (respond_unfold _ _ _ _ _ Hj Hc Et).
    rewrite (not_falsy_truthy c Hnf). cbn [negb].
    destruct (interpolate _) as [[]|]; cbn [bind]; [|cbn; server_error].
    destruct (interpolate (Some c)) as [[]|]; cbn [bind]; [|cbn; server_error].
    destruct Hup as [m | j | m | data Hd]; cbn [bind ok upstream_json negb];
      try (cbn; server_error).
    destruct (completion data) as [[s|]|m] eqn:E; cbn [bind];
      try (cbn; server_error).
    apply completion_spec, Hd, truthy_falsy in E. rewrite E. cbn. server_error.
  - intros req fetched parsed fields Hm Hj Hc Hin.
    rewrite handler_not_options by exact Hm.
    assert (Hn : parsed <> JNull)
      by (intros ->; destruct Hc as (f & E & _); discriminate E).
    destruct (prop_defined "title" parsed Hn) as (title & Et & _).
    apply prop_member in Hc.
    rewrite (respond_unfold _ _ _ _ _ Hj Hc Et). cbn [truthy_value negb].
    destruct (interpolate _) as [[]|]; cbn [bind]; [|cbn; server_error].
    assert (Hs : stringifies (JObj fields) = false).
    { cbn [stringifies]. apply negb_false_iff, existsb_exists.
      apply in_map_iff in Hin as ([k v] & Hk & Hin). cbn in Hk. subst k.
      exists ("toString", v). split; [exact Hin | reflexivity]. }
    cbn [interpolate]. rewrite Hs. cbn. server_error.
  - intros req fetched parsed c s Hm Hj Hc Hnf Hp Ht (data & -> & Hd & Hs).
    rewrite handler_not_options by exact Hm.
    assert (Hn : parsed <> JNull)
      by (intros ->; destruct Hc as (f & E & _); discriminate E).
    destruct (prop_defined "title" parsed Hn) as (title & Et & _).
    assert (Htitle : interpolate (if truthy_value title then title
                                  else Some (JStr "Untitled")) = Returned tt).
    { destruct title as [t|]; [|reflexivity].
      destruct (truthy_value (Some t)); [|reflexivity].
      cbn [interpolate]. rewrite primitive_stringifies; [reflexivity|].
      apply Ht, prop_member. exact Et. }
    apply prop_member in Hc.
    rewrite (respond_unfold _ _ _ _ _ Hj Hc Et).
    rewrite (not_falsy_truthy c Hnf). cbn [negb]. rewrite Htitle. cbn [bind].
    cbn [interpolate]. rewrite (primitive_stringifies c Hp).
    cbn [bind ok upstream_json negb].
    apply completion_spec in Hd. rewrite Hd. cbn [bind].
    rewrite (not_falsy_truthy s Hs). cbn. auto.
  - exact upstream_failure_or_gives.
Qed.

(** C9, counterexample.  A request whose body is [null] holds no
    content; reading [content] from it throws, and the answer is 500,
    not 400. *)
Lemma null_body_is_a_server_error : ~ missing_content_is_a_client_error.
Proof.
  intros H.
  assert (E : status (handler post_null (Thrown "not called")) = 400%Z).
  { apply H; [discriminate|].
    intros parsed c [= <-] (f & E & _). discriminate E. }
  pose proof (unreadable_body_is_a_server_error post_null (Thrown "not called")) as [E5 _].
  - discriminate.
  - right. reflexivity.
  - rewrite E5 in E. discriminate E.
Qed.

End EdgeFacts.

(** ** Word counts *)

Section WordCounts.

Import Dashboard.

Lemma fold_words acc (l : list Note.t) :
  fold_left (fun a note => a + List.length (split_ws (Note.content note))) l acc
  = acc + list_sum (map Card.words l).
Proof.
  revert acc. induction l as [|n l IH]; intros acc; simpl.
  - lia.
  - rewrite IH. unfold Card.words. lia.
Qed.

(** C8.  The stat is the sum, over the notes of the list, of the number
    of pieces [split(/\s+/)] cuts the content into, as on the card.
    That is not the word count of the editor: for the empty content the
    editor shows 0 and the stat counts 1. *)
Theorem totalWords_is_not_wordCount :
  (forall s : State, totalWords s = list_sum (map Card.words (notes s)))
  /\ Editor.wordCount (Note.content empty_note) = 0
  /\ Card.words empty_note = 1
  /\ totalWords (setNotes (fun _ => [empty_note]) initial) = 1.
Proof.
  split; [|repeat split].
  intros s. unfold totalWords. now rewrite fold_words.
Qed.

End WordCounts.

Section WordCountsAgree.

Lemma trimEnd_cons c s :
  trimEnd (String c s)
  = match trimEnd s with
    | EmptyString => if is_ws c then EmptyString else String c EmptyString
    | r => String c r
    end.
Proof. reflexivity. Qed.

Lemma trimEnd_idem s : trimEnd (trimEnd s) = trimEnd s.
Proof.
  induction s as [|c s IH]; [reflexivity|]. rewrite trimEnd_cons.
  destruct (trimEnd s) as [|d r] eqn:E.
  - destruct (is_ws c) eqn:Ec; [reflexivity|]. cbn. now rewrite Ec.
  - rewrite trimEnd_cons, IH. reflexivity.
Qed.

Lemma length_trimStart s : String.length (trimStart s) <= String.length s.
Proof.
  induction s as [|c s IH]; simpl; [lia|].
  destruct (is_ws c); simpl; lia.
Qed.

Lemma length_trimEnd s : String.length (trimEnd s) <= String.length s.
Proof.
  induction s as [|c s IH]; simpl; [lia|].
  destruct (trimEnd s); [destruct (is_ws c)|]; simpl in *; lia.
Qed.

Lemma trim_fixed s :
  trim s = s -> trimEnd s = s /\ starts_with_ws s = false.
Proof.
  intros H. split.
  - rewrite <- H at 1. unfold trim. rewrite trimEnd_idem. exact H.
  - destruct s as [|c s]; [reflexivity|]. cbn.
    destruct (is_ws c) eqn:Ec; [|reflexivity]. exfalso.
    apply (f_equal String.length) in H. unfold trim in H. cbn in H.
    rewrite Ec in H.
    pose proof (length_trimEnd (trimStart s)).
    pose proof (length_trimStart s). lia.
Qed.

(** Without trailing white space, only the first piece can be empty, and
    it is when the text starts with white space. *)
Lemma split_ws_pieces s :
  trimEnd s = s -> s <> "" ->
  exists t ts, split_ws s = t :: ts
               /\ (starts_with_ws s = false -> t <> "")
               /\ (starts_with_ws s = true -> t = "")
               /\ Forall (fun x => x <> "") ts.
Proof.
  induction s as [|c s IH]; [congruence|]. intros H _.
  cbn [trimEnd] in H. cbn [split_ws starts_with_ws].
  destruct s as [|d s'].
  - cbn in H. destruct (is_ws c) eqn:Ec; [discriminate|].
    cbn. exists (String c ""), []. repeat split; try congruence. constructor.
  - assert (Hs : trimEnd (String d s') = String d s').
    { destruct (trimEnd (String d s')); [destruct (is_ws c); discriminate|].
      congruence. }
    destruct (IH Hs) as (t & ts & E & Hf & Ht & Hall); [discriminate|].
    rewrite E. cbn [starts_with_ws] in Hf, Ht.
    destruct (is_ws c) eqn:Ec.
    + destruct (is_ws d) eqn:Ed.
      * exists t, ts. repeat split; auto.
      * exists "", (t :: ts). repeat split; auto; congruence.
    + exists (String c t), ts. repeat split; auto; congruence.
Qed.

Lemma filter_all_words (l : list string) :
  Forall (fun x => x <> "") l ->
  List.filter (fun word => 0 <? JsString.length word) l = l.
Proof.
  induction 1 as [|x l Hx _ IH]; [reflexivity|]. cbn [List.filter].
  destruct x; [congruence|].
  change (String a x :: List.filter (fun word => 0 <? JsString.length word) l
          = String a x :: l).
  now rewrite IH.
Qed.

(** On content as the editor saves it (trimmed) that is not empty, the
    stat and the editor count the same words. *)
Lemma word_counts_agree_on_trimmed c :
  trim c = c -> c <> "" ->
  List.length (split_ws c) = Editor.wordCount c.
Proof.
  intros Ht Hc. destruct (trim_fixed c Ht) as [He Hs].
  unfold Editor.wordCount. rewrite Ht.
  destruct (split_ws_pieces c He Hc) as (t & ts & E & Hf & _ & Hall).
  rewrite E, filter_all_words; [reflexivity|].
  constructor; auto.
Qed.

End WordCountsAgree.

(** ** The properties at concrete inputs *)

Section Witnesses.

Import Dashboard.

Lemma loaded_is_sample_world : loaded = Some sample_world.
Proof. vm_compute. reflexivity. Qed.

Lemma sample_world_reachable : reachable sample_world.
Proof.
  eapply steps_reachable;
    [apply (reach_start (Some "u") sample_table) | exact loaded_is_sample_world].
Qed.

Lemma not_blank_sample : ~ blank "Discuss budget".
Proof. intros H. apply trim_empty in H. discriminate H. Qed.

Lemma handleSave_trims_witness :
  Editor.handleSave (new_editor false) (typed " " "") = []
  /\ Editor.handleSave (new_editor false) (typed "" " hello ")
     = [Editor.OnSave {| Payload.id := None; Payload.title := "Untitled Note";
                         Payload.content := "hello" |}].
Proof.
  split.
  - apply (proj1 (handleSave_trims (new_editor false) (typed " " ""))).
    split; reflexivity.
  - apply (proj2 (handleSave_trims (new_editor false) (typed "" " hello "))).
    intros [_ H]. discriminate H.
Defined.

Lemma summarized_lookup : ({["n1" := summarized_row]} : Store.Table) !! "n1"
                          = Some summarized_row.
Proof. apply lookup_singleton_eq. Qed.


Lemma summarize_overwrites_summary_witness :
  (exists r',
      table (resume (AwaitSummary "n1" "u" "Costs first") (at_time 3 None)
               summarized_world) !! "n1" = Some r'
      /\ Store.summary summarized_row = Some "Budget talk"
      /\ Store.summary r' = Some "Costs first")
  /\ (exists n',
        notes (ui (resume (AwaitSummary "n1" "u" "Costs first") (at_time 3 None)
                     summarized_world)) !! 0 = Some n'
        /\ Note.summary n' = Some "Costs first").
Proof.
  destruct (summarize_overwrites_summary summarized_world "n1" "u" "Costs first"
              (at_time 3 None) eq_refl) as (Hrow & _ & _ & _ & Hmem & _).
  split.
  - destruct (Hrow summarized_row summarized_lookup eq_refl) as (r' & Hr & Hs & _).
    exists r'. auto.
  - destruct (Hmem 0 (Store.to_note "n1" summarized_row) eq_refl eq_refl)
      as (n' & Hn & Hs & _).
    exists n'. auto.
Defined.

Lemma blank_content_is_not_summarized_witness :
  blank (Note.content blank_note)
  /\ Card.handleSummarize blank_note = [Card.Notify Card.cannot_summarize].
Proof.
  assert (Hb : blank (Note.content blank_note))
    by (apply trim_empty; reflexivity).
  split; [exact Hb|].
  exact (proj1 (blank_content_is_not_summarized blank_note Hb)).
Defined.

Lemma generating_marker_set_then_cleared_witness :
  generatingSummary
    (ui (generateSummary "n1" "Meeting" "Discuss budget" sample_world)) = Some "n1"
  /\ generatingSummary
       (ui (summarize_run "n1" "Meeting" "Discuss budget"
              network_down network_down sample_world)) = None.
Proof.
  destruct (generating_marker_set_then_cleared "n1" "Meeting" "Discuss budget"
              not_blank_sample) as (H1 & _ & _ & H4).
  split.
  - exact (proj1 (H1 sample_world)).
  - exact (proj1 (H4 sample_world network_down network_down)).
Defined.

Lemma failed_store_call_changes_nothing_witness :
  store_call_fails (AwaitInsert "u" "Ideas" "") network_down sample_world
  /\ notes (ui (resume (AwaitInsert "u" "Ideas" "") network_down sample_world))
     = [sample_note].
Proof.
  assert (Hf : store_call_fails (AwaitInsert "u" "Ideas" "") network_down sample_world)
    by (eexists; reflexivity).
  split; [exact Hf|].
  exact (proj1 (proj1 (failed_store_call_changes_nothing
                         (AwaitInsert "u" "Ideas" "") network_down sample_world) Hf)).
Defined.


Lemma handler_statuses_witness :
  (Edge.status (Edge.handler post_without_content (Edge.Thrown "not called")) = 400%Z
   /\ Edge.is_error (Edge.handler post_without_content (Edge.Thrown "not called")))
  /\ Edge.status (Edge.handler post_null good_upstream) = 500%Z
  /\ Edge.status (Edge.handler post_with_content (Edge.Thrown "Failed to fetch")) = 500%Z
  /\ Edge.status (Edge.handler post_odd_content good_upstream) = 500%Z
  /\ (Edge.status (Edge.handler post_with_content good_upstream) = 200%Z
      /\ Edge.body (Edge.handler post_with_content good_upstream)
         = Some (Edge.JObj [("summary", Edge.JStr "Sum")]))
  /\ permissive_cors (Edge.handler preflight good_upstream)
  /\ Edge.body (Edge.handler preflight good_upstream) = None.
Proof.
  destruct handler_statuses as (Hcors & Hopt & H400 & H500 & Hup & Hodd & H200 & _).
  assert (Hpost : forall j, Edge.method {| Edge.method := "POST"; Edge.json := j |}
                            <> "OPTIONS") by discriminate.
  assert (Hcontent : member (Edge.JObj [("content", Edge.JStr "Discuss budget")])
                       "content" (Edge.JStr "Discuss budget")).
  { eexists. split; [reflexivity|]. exists [], []. split; [reflexivity | intros []]. }
  assert (Htruthy : ~ falsy (Edge.JStr "Discuss budget"))
    by (intros [H | [H | [H | H]]]; discriminate H).
  split; [|split; [|split; [|split; [|split; [|split]]]]].
  - apply (H400 post_without_content (Edge.Thrown "not called")
             (Edge.JObj [("title", Edge.JStr "Meeting")])).
    + apply Hpost.
    + reflexivity.
    + discriminate.
    + intros c Hc. apply member_field in Hc. discriminate Hc.
  - apply (H500 post_null good_upstream); [apply Hpost | right; reflexivity].
  - apply (Hup post_with_content (Edge.Thrown "Failed to fetch")
             (Edge.JObj [("content", Edge.JStr "Discuss budget")])
             (Edge.JStr "Discuss budget"));
      [apply Hpost | reflexivity | exact Hcontent | exact Htruthy | constructor].
  - apply (Hodd post_odd_content good_upstream
             (Edge.JObj [("content", Edge.JObj [("toString", Edge.JNum 1)])])
             [("toString", Edge.JNum 1)]).
    + apply Hpost.
    + reflexivity.
    + eexists. split; [reflexivity|]. exists [], []. split; [reflexivity | intros []].
    + left. reflexivity.
  - apply (H200 post_with_content good_upstream
             (Edge.JObj [("content", Edge.JStr "Discuss budget")])
             (Edge.JStr "Discuss budget") (Edge.JStr "Sum")).
    + apply Hpost.
    + reflexivity.
    + exact Hcontent.
    + exact Htruthy.
    + exact I.
    + intros t Ht. apply member_field in Ht. discriminate Ht.
    + eexists. split; [reflexivity|]. split.
      * apply completion_spec. reflexivity.
      * intros [H | [H | [H | H]]]; discriminate H.
  - apply Hcors.
  - apply (Hopt preflight good_upstream). reflexivity.
Defined.

Lemma keyboard_not_gated_on_loading_witness :
  Editor.saveDisabled (new_editor true) (typed "" "x") = true
  /\ Editor.handleKeyDown (new_editor true) (typed "" "x") (cancel_key false)
     = [Editor.PreventDefault; Editor.OnCancel].
Proof.
  destruct (proj1 keyboard_not_gated_on_loading (new_editor true) (typed "" "x") eq_refl)
    as (_ & Hs & _ & _ & _ & Hc).
  - right. discriminate.
  - split; [exact Hs | exact (Hc false)].
Defined.

End Witnesses.

(** * Further properties *)

(** ** The editor, further *)

Section EditorFurther.

Lemma trimStart_fixed s : starts_with_ws s = false -> trimStart s = s.
Proof. destruct s as [|c s]; [reflexivity|]. cbn. now intros ->. Qed.

Lemma trimStart_starts s : starts_with_ws (trimStart s) = false.
Proof.
  destruct (trimStart_head s) as [-> | (c & r & -> & Hc)]; [reflexivity | exact Hc].
Qed.

Lemma trimEnd_starts s :
  starts_with_ws s = false -> starts_with_ws (trimEnd s) = false.
Proof.
  destruct s as [|c s]; [reflexivity|]. cbn [starts_with_ws]. intros Hc.
  rewrite trimEnd_cons. destruct (trimEnd s); [rewrite Hc|]; exact Hc.
Qed.

Lemma trim_idem s : trim (trim s) = trim s.
Proof.
  unfold trim at 1.
  rewrite (trimStart_fixed (trim s)).
  - unfold trim. apply trimEnd_idem.
  - unfold trim. apply trimEnd_starts, trimStart_starts.
Qed.

Lemma handleSave_payload pr st p :
  In (Editor.OnSave p) (Editor.handleSave pr st) ->
  p = {| Payload.id := option_map Note.id (Editor.note pr);
         Payload.title := or_else (trim (Editor.title st)) "Untitled Note";
         Payload.content := trim (Editor.content st) |}
  /\ ~ (trim (Editor.title st) = "" /\ trim (Editor.content st) = "").
Proof.
  intros H.
  destruct (decide (trim (Editor.title st) = "" /\ trim (Editor.content st) = ""))
    as [[Ht Hc] | Hn].
  - rewrite handleSave_empty in H by assumption. destruct H.
  - rewrite handleSave_nonempty in H by exact Hn.
    destruct H as [H | []]. injection H as <-. split; [reflexivity | exact Hn].
Qed.

Lemma saved_payload_facts pr st p :
  In (Editor.OnSave p) (Editor.handleSave pr st) ->
  Payload.title p <> ""
  /\ trim (Payload.title p) = Payload.title p
  /\ trim (Payload.content p) = Payload.content p.
Proof.
  intros H. apply handleSave_payload in H as [-> Hn]. cbn.
  rewrite or_else_spec. repeat split.
  - destruct (decide (trim (Editor.title st) = "")); [discriminate | assumption].
  - destruct (decide (trim (Editor.title st) = "")); [reflexivity | apply trim_idem].
  - apply trim_idem.
Qed.

Lemma split_ws_not_nil s : split_ws s <> [].
Proof.
  induction s as [|c s IH]; [discriminate|]. cbn [split_ws].
  destruct (is_ws c).
  - destruct s as [|d s']; [discriminate|]. destruct (is_ws d); [exact IH | discriminate].
  - destruct (split_ws s); discriminate.
Qed.

(** X1.  Whatever the editor reports to [onSave] is normalized: the title
    is not empty and neither title nor content has white space at its
    ends; the id is the one of the edited note; and the two fields were
    not both blank. *)
Theorem saved_payload_is_normalized
    (pr : Editor.Props) (st : Editor.State) (p : Payload.t) :
  In (Editor.OnSave p) (Editor.handleSave pr st) ->
  Payload.title p <> ""
  /\ trim (Payload.title p) = Payload.title p
  /\ trim (Payload.content p) = Payload.content p
  /\ Payload.id p = option_map Note.id (Editor.note pr)
  /\ ~ (blank (Editor.title st) /\ blank (Editor.content st)).
Proof.
  intros H. destruct (saved_payload_facts pr st p H) as (H1 & H2 & H3).
  apply handleSave_payload in H as [-> Hn].
  repeat split; try assumption. rewrite <- !trim_empty. exact Hn.
Qed.

(** X2.  Opening a note whose title and content the editor has reported
    before, and saving without typing, reports the same title and
    content under the id of the note: normalizing twice changes
    nothing. *)
Theorem reopen_and_save_is_identity
    (pr : Editor.Props) (st : Editor.State) (p : Payload.t)
    (n : Note.t) (loading : bool) :
  In (Editor.OnSave p) (Editor.handleSave pr st) ->
  Note.title n = Payload.title p ->
  Note.content n = Payload.content p ->
  Editor.handleSave (editing n loading) (Editor.seed (Some n))
  = [Editor.OnSave {| Payload.id := Some (Note.id n);
                      Payload.title := Note.title n;
                      Payload.content := Note.content n |}].
Proof.
  intros H Ht Hc.
  destruct (saved_payload_facts pr st p H) as (Hne & Htt & Htc).
  rewrite <- Ht in Hne, Htt. rewrite <- Hc in Htc.
  assert (Hs : Editor.seed (Some n)
               = {| Editor.title := Note.title n; Editor.content := Note.content n |}).
  { unfold Editor.seed, or_else.
    destruct (Note.title n), (Note.content n); reflexivity. }
  rewrite Hs. rewrite handleSave_nonempty.
  - cbn [Editor.title Editor.content Editor.note editing option_map].
    rewrite Htt, Htc, or_else_spec.
    destruct (decide (Note.title n = "")); [contradiction | reflexivity].
  - cbn [Editor.title Editor.content]. rewrite Htt. intros [? _]. contradiction.
Qed.

(** X3.  The word count the editor shows is 0 exactly when the content is
    empty or only white space. *)
Theorem wordCount_zero_iff_blank (content : string) :
  Editor.wordCount content = 0 <-> blank content.
Proof.
  split.
  - intros H. apply trim_empty.
    destruct (decide (trim content = "")) as [|Hne]; [assumption|]. exfalso.
    pose proof (word_counts_agree_on_trimmed (trim content) (trim_idem content) Hne) as Ha.
    unfold Editor.wordCount in Ha, H. rewrite trim_idem in Ha. rewrite H in Ha.
    destruct (split_ws (trim content)) eqn:E; [|discriminate Ha].
    exact (split_ws_not_nil _ E).
  - intros H. apply trim_empty in H. unfold Editor.wordCount. rewrite H. reflexivity.
Qed.

End EditorFurther.

(** ** The card, further *)

Section CardFurther.

Lemma length_take n s : String.length (take n s) = Nat.min n (String.length s).
Proof.
  revert s. induction n as [|n IH]; intros [|c s]; simpl; auto.
Qed.

Lemma length_append a b :
  String.length (a +:+ b) = String.length a + String.length b.
Proof.
  induction a as [|c a IH]; [reflexivity|].
  rewrite append_cons. simpl. now rewrite IH.
Qed.

Lemma take_whole n s : String.length s <= n -> take n s = s.
Proof.
  revert s. induction n as [|n IH]; intros [|c s] H; simpl in *;
    try reflexivity; try lia.
  f_equal. apply IH. lia.
Qed.

Lemma take_append n s t : n <= String.length s -> take n (s +:+ t) = take n s.
Proof.
  revert s. induction n as [|n IH]; intros s H.
  - reflexivity.
  - destruct s as [|c s]; simpl in H; [lia|].
    rewrite append_cons. simpl. f_equal. apply IH. lia.
Qed.

Lemma take_take n s : take n (take n s) = take n s.
Proof.
  apply take_whole. rewrite length_take. lia.
Qed.

(** X4.  [truncateText] never returns more than [maxLength + 3]
    characters and never changes the first [maxLength] characters; a
    text of at most [maxLength] characters comes back as it is, a longer
    one is cut to its first [maxLength] characters followed by three
    dots.  On the card the toggle is offered exactly when the collapsed
    preview has been cut this way, and the expanded preview is the whole
    content. *)
Theorem truncateText_bounds :
  (forall (text : string) (maxLength : nat),
      String.length (Card.truncateText text maxLength) <= maxLength + 3
      /\ take maxLength (Card.truncateText text maxLength) = take maxLength text
      /\ (String.length text <= maxLength ->
            Card.truncateText text maxLength = text)
      /\ (maxLength < String.length text ->
            Card.truncateText text maxLength = take maxLength text +:+ "..."
            /\ String.length (Card.truncateText text maxLength) = maxLength + 3))
  /\ (forall note : Note.t,
        Card.contentPreview true note = Note.content note
        /\ (Card.showsToggle note = false ->
              Card.contentPreview false note = Note.content note)
        /\ (Card.showsToggle note = true ->
              Card.contentPreview false note
              = take 200 (Note.content note) +:+ "..."
              /\ String.length (Card.contentPreview false note) = 203)).
Proof.
  assert (Hcut : forall text n, n < String.length text ->
            Card.truncateText text n = take n text +:+ "..."
            /\ String.length (Card.truncateText text n) = n + 3).
  { intros text n H. unfold Card.truncateText, JsString.length.
    destruct (Nat.leb_spec (String.length text) n); [lia|].
    split; [reflexivity|]. rewrite length_append, length_take. simpl. lia. }
  assert (Hkeep : forall text n, String.length text <= n ->
            Card.truncateText text n = text).
  { intros text n H. unfold Card.truncateText, JsString.length.
    destruct (Nat.leb_spec (String.length text) n); [reflexivity | lia]. }
  split.
  - intros text n.
    destruct (Nat.le_gt_cases (String.length text) n) as [H | H].
    + rewrite (Hkeep _ _ H). repeat split; auto; lia.
    + destruct (Hcut _ _ H) as [E L]. repeat split; auto; try lia.
      rewrite E. rewrite take_append by (rewrite length_take; lia).
      apply take_take.
  - intros note. split; [reflexivity|]. unfold Card.showsToggle, Card.contentPreview.
    split; intros H.
    + apply Hkeep. apply Nat.ltb_ge in H. exact H.
    + apply Nat.ltb_lt in H. apply (Hcut _ 200). exact H.
Qed.

End CardFurther.

(** ** Search, further *)

Section SearchFurther.

Import Dashboard.

Lemma filter_sublist_imp {A} (P Q : A -> bool) (l : list A) :
  (forall x, P x = true -> Q x = true) ->
  sublist (List.filter P l) (List.filter Q l).
Proof.
  intros H. induction l as [|x l IH]; simpl; [constructor|].
  destruct (P x) eqn:Ep.
  - rewrite (H x Ep). now constructor.
  - destruct (Q x); [now constructor | exact IH].
Qed.

(** A text that includes the lowercase of a longer term includes the
    lowercase of the shorter one, when the typed text is below
    U+0100. *)
Lemma includes_around (text pre term post : Utf16.t) :
  latin1 pre -> latin1 term -> latin1 post ->
  Utf16.includes text (Utf16.toLowerCase (pre ++ term ++ post)) = true ->
  Utf16.includes text (Utf16.toLowerCase term) = true.
Proof.
  intros Hpre Hterm Hpost.
  assert (Hall : latin1 (pre ++ term ++ post))
    by (apply latin1_app; split; [|apply latin1_app]; auto).
  rewrite (toLowerCase_latin1 _ Hall), (toLowerCase_latin1 _ Hterm), !map_app.
  rewrite !wide_includes_spec. intros (a & b & ->).
  exists (a ++ map Utf16.lower_unit pre), (map Utf16.lower_unit post ++ b).
  now rewrite <- !app_assoc.
Qed.

Lemma matches_around (note : Search.Note) (pre term post : Utf16.t) :
  latin1 pre -> latin1 term -> latin1 post ->
  Search.matches (pre ++ term ++ post) note = true ->
  Search.matches term note = true.
Proof.
  intros Hpre Hterm Hpost. unfold Search.matches.
  rewrite !orb_true_iff. intros [[H | H] | H].
  - left. left. apply (includes_around _ pre term post); assumption.
  - left. right. apply (includes_around _ pre term post); assumption.
  - right. destruct (Search.summary note) as [s|]; [|discriminate].
    apply andb_true_iff in H as [H1 H2]. rewrite H1. cbn [andb].
    apply (includes_around _ pre term post); assumption.
Qed.

(** X5.  For typed text below U+0100, whatever the notes hold: typing
    more characters before or after the search term never brings a note
    back, the notes shown for the longer term are among those shown for
    the shorter one, in the same order; and two terms that are the same
    up to the case of letters show the same notes.  The restriction is
    needed: the note titled KOSMOS in Greek capitals is not shown for
    its first three letters and is shown for its first four. *)
Theorem longer_term_narrows (notes : list Search.Note) (term : Utf16.t) :
  latin1 term ->
  (forall pre post,
      latin1 pre -> latin1 post ->
      sublist (Search.filteredNotes notes (pre ++ term ++ post))
              (Search.filteredNotes notes term))
  /\ (forall term',
        same_ignoring_case term' term ->
        Search.filteredNotes notes term' = Search.filteredNotes notes term)
  /\ ~ sublist (Search.filteredNotes [kosmos_note] (kos ++ [924%N]))
               (Search.filteredNotes [kosmos_note] kos).
Proof.
  intros Hterm. split; [|split].
  - intros pre post Hpre Hpost. unfold Search.filteredNotes.
    apply filter_sublist_imp. intros n. now apply matches_around.
  - intros term' Hsame.
    assert (E : Utf16.toLowerCase term' = Utf16.toLowerCase term).
    { rewrite (toLowerCase_latin1 term Hterm).
      rewrite (toLowerCase_latin1 term' (same_case_latin1 _ _ Hsame Hterm)).
      now apply same_case_lower. }
    unfold Search.filteredNotes, Search.matches. now rewrite E.
  - vm_compute. intros H. apply sublist_nil_r in H. discriminate H.
Qed.

Lemma filteredNotes_empty_term (s : State) :
  searchTerm s = "" -> filteredNotes s = notes s.
Proof.
  intros Hs. unfold filteredNotes. rewrite Hs.
  induction (notes s) as [|m l IH]; simpl; [reflexivity|].
  unfold matches at 1. simpl. rewrite includes_empty. simpl. congruence.
Qed.

Lemma filter_nil {A} (P : A -> bool) (l : list A) :
  List.filter P l = [] <-> forall x, In x l -> P x = false.
Proof.
  induction l as [|a l IH]; cbn [List.filter In].
  - split; [intros _ x [] | reflexivity].
  - destruct (P a) eqn:E.
    + split; [discriminate|]. intros H.
      specialize (H a (or_introl eq_refl)). congruence.
    + rewrite IH. split.
      * intros H x [<- | Hx]; auto.
      * intros H x Hx. apply H. now right.
Qed.

(** X6.  What the loaded page shows under the search box: "No notes yet"
    exactly when the list is empty; "No matching notes" exactly when the
    list is not empty and no note passes the test of the filter;
    otherwise a grid that is not empty and holds the filtered notes, in
    the order of the list.  A note that passes the test is on the grid,
    so the empty state is not shown then.  With the empty search term a
    list that is not empty is shown whole. *)
Theorem view_cases (s : State) :
  loading s = false ->
  (view s = NoNotesYet <-> notes s = [])
  /\ (view s = NoMatchingNotes <->
        notes s <> []
        /\ forall n, In n (notes s) -> matches (searchTerm s) n = false)
  /\ (forall cards, view s = Grid cards <->
        cards <> [] /\ cards = filteredNotes s)
  /\ (forall n, In n (notes s) -> matches (searchTerm s) n = true ->
        exists cards, view s = Grid cards /\ In n cards
                      /\ sublist cards (notes s))
  /\ (searchTerm s = "" -> notes s <> [] -> view s = Grid (notes s)).
Proof.
  intros Hl. unfold view. rewrite Hl.
  pose proof (filter_nil (matches (searchTerm s)) (notes s)) as Hnone.
  fold (filteredNotes s) in Hnone.
  pose proof (filteredNotes_empty_term s) as Hall.
  assert (Hsub : notes s = [] -> filteredNotes s = [])
    by (unfold filteredNotes; now intros ->).
  assert (Hshown : forall n, In n (notes s) -> matches (searchTerm s) n = true ->
                             In n (filteredNotes s))
    by (intros n Hn Hm; apply filter_In; auto).
  assert (Hord : sublist (filteredNotes s) (notes s)) by apply filter_sublist.
  destruct (filteredNotes s) as [|c cs] eqn:Ef.
  - destruct (notes s) as [|n l] eqn:En.
    + split; [tauto|]. split; [|split; [|split]].
      * split; [discriminate | intros [H _]; congruence].
      * intros cards. split; [discriminate | intros [H1 H2]; congruence].
      * intros n [].
      * intros _ H. congruence.
    + split; [split; discriminate|]. split; [|split; [|split]].
      * split; [intros _ | reflexivity].
        split; [discriminate | apply Hnone; reflexivity].
      * intros cards. split; [discriminate | intros [H1 H2]; congruence].
      * intros m Hm Hp. destruct (Hshown m Hm Hp).
      * intros Hs _. apply Hall in Hs. discriminate Hs.
  - split; [|split; [|split; [|split]]].
    + split; [discriminate | intros E; apply Hsub in E; discriminate E].
    + split; [discriminate | intros [_ H]; apply Hnone in H; discriminate H].
    + intros cards. split.
      * intros [= <-]. split; [discriminate | reflexivity].
      * intros [_ ->]. reflexivity.
    + intros m Hm Hp. exists (c :: cs). split; [reflexivity|]. split; auto.
    + intros Hs _. apply Hall in Hs. congruence.
Qed.

End SearchFurther.

(** ** The store, further *)

Section StoreFurther.

Lemma select_all_Permutation uid tb :
  Store.select_all uid tb
  ≡ₚ filter (fun n => Note.user_id n = uid)
       ((fun kr => Store.to_note (fst kr) (snd kr)) <$> map_to_list tb).
Proof. unfold Store.select_all. apply merge_sort_Permutation. Qed.

Lemma elem_of_select_all uid tb n :
  n ∈ Store.select_all uid tb
  <-> exists r, tb !! Note.id n = Some r
                /\ Store.user_id r = uid
                /\ n = Store.to_note (Note.id n) r.
Proof.
  rewrite select_all_Permutation, list_elem_of_filter, list_elem_of_fmap.
  split.
  - intros (Hu & [k r] & -> & Hkr). apply elem_of_map_to_list in Hkr.
    exists r. cbn in *. auto.
  - intros (r & Hr & Hu & Hn). split.
    + rewrite Hn. exact Hu.
    + exists (Note.id n, r). split; [exact Hn|].
      apply elem_of_map_to_list. exact Hr.
Qed.

Lemma NoDup_select_all uid tb : NoDup (Note.id <$> Store.select_all uid tb).
Proof.
  rewrite select_all_Permutation.
  eapply sublist_NoDup; [|apply fmap_sublist, sublist_filter].
  rewrite <- list_fmap_compose.
  replace (Note.id ∘ (fun kr : string * Store.Row => Store.to_note (fst kr) (snd kr)))
    with (@fst string Store.Row) by reflexivity.
  apply NoDup_fst_map_to_list.
Qed.

#[local] Instance newer_first_total : Total Store.newer_first.
Proof. intros a b. unfold Store.newer_first. lia. Qed.

#[local] Instance newer_first_trans : Transitive Store.newer_first.
Proof. intros a b c. unfold Store.newer_first. lia. Qed.

(** What a fetch asks of the store: exactly the rows of the user, each
    once, the most recently updated first. *)
Lemma select_all_own_rows_newest_first (uid : string) (tb : Store.Table) :
  (forall n, In n (Store.select_all uid tb)
             <-> exists r, tb !! Note.id n = Some r
                           /\ Store.user_id r = uid
                           /\ n = Store.to_note (Note.id n) r)
  /\ (forall n, In n (Store.select_all uid tb) -> Note.user_id n = uid)
  /\ NoDup (map Note.id (Store.select_all uid tb))
  /\ StronglySorted
       (fun a b => (Note.updated_at b <= Note.updated_at a)%N)
       (Store.select_all uid tb).
Proof.
  split; [|split; [|split]].
  - intros n. rewrite <- list_elem_of_In. apply elem_of_select_all.
  - intros n Hn. apply list_elem_of_In, elem_of_select_all in Hn
      as (r & _ & Hu & ->). exact Hu.
  - exact (NoDup_select_all uid tb).
  - exact (StronglySorted_merge_sort Store.newer_first _).
Qed.

Lemma same_foreign_refl uid tb : same_foreign_rows uid tb tb.
Proof. intros k r _. reflexivity. Qed.

Lemma same_foreign_insert uid tb k r0 :
  Store.user_id r0 = uid ->
  (forall r, tb !! k = Some r -> Store.user_id r = uid) ->
  same_foreign_rows uid tb (<[k := r0]> tb).
Proof.
  intros H0 Hk j r Hr. destruct (decide (k = j)) as [<-|Hne].
  - rewrite lookup_insert_eq. split.
    + intros [= <-]. contradiction.
    + intros H. apply Hk in H. contradiction.
  - rewrite lookup_insert_ne by exact Hne. reflexivity.
Qed.

Lemma same_foreign_delete uid tb k :
  (forall r, tb !! k = Some r -> Store.user_id r = uid) ->
  same_foreign_rows uid tb (delete k tb).
Proof.
  intros Hk j r Hr. destruct (decide (k = j)) as [<-|Hne].
  - rewrite lookup_delete_eq. split; [discriminate|].
    intros H. apply Hk in H. contradiction.
  - rewrite lookup_delete_ne by exact Hne. reflexivity.
Qed.

(** The four writes of the store, made for user [uid], never create,
    change or remove a row of another user. *)
Lemma store_writes_keep_foreign_rows
    (uid k t c s : string) (now : N) (tb : Store.Table) :
  same_foreign_rows uid tb (fst (Store.update_note uid k t c now tb))
  /\ same_foreign_rows uid tb (fst (Store.insert_note uid k t c now tb))
  /\ same_foreign_rows uid tb (Store.delete_note uid k tb)
  /\ same_foreign_rows uid tb (Store.update_summary uid k s now tb).
Proof.
  unfold Store.update_note, Store.insert_note, Store.delete_note,
    Store.update_summary.
  destruct (tb !! k) as [r|] eqn:Er.
  - destruct (decide (Store.user_id r = uid)) as [Hu|Hu]; cbn [fst].
    + split; [|split; [|split]].
      * apply same_foreign_insert; [exact Hu | congruence].
      * apply same_foreign_refl.
      * apply same_foreign_delete. congruence.
      * apply same_foreign_insert; [exact Hu | congruence].
    + split; [|split; [|split]]; apply same_foreign_refl.
  - cbn [fst]. split; [|split; [|split]]; try apply same_foreign_refl.
    apply same_foreign_insert; [reflexivity | congruence].
Qed.

End StoreFurther.

(** ** The page, further *)

Section PageFurther.

Import Dashboard.

Lemma quiet_refl w : quiet w w.
Proof. repeat split. Qed.

Lemma quiet_trans w1 w2 w3 : quiet w1 w2 -> quiet w2 w3 -> quiet w1 w3.
Proof.
  intros (A1 & A2 & A3 & A4) (B1 & B2 & B3 & B4).
  repeat split; congruence.
Qed.

Lemma quiet_editor_call c w : quiet w (editor_call c w).
Proof.
  destruct c; cbn; try apply quiet_refl.
  - unfold saveNote. destruct (user w); [|apply quiet_refl].
    destruct (Payload.id p) as [k|]; [destruct (truthy k)|]; repeat split.
  - repeat split.
Qed.

Lemma quiet_card_call c w : quiet w (card_call c w).
Proof.
  destruct c; cbn; try (repeat split; fail).
  - unfold deleteNote. destruct (user w); repeat split.
  - unfold generateSummary. destruct (negb (truthy (trim content))); repeat split.
Qed.

Lemma quiet_run {C} (call : C -> World -> World) cs :
  (forall c w, quiet w (call c w)) -> forall w, quiet w (run call cs w).
Proof.
  intros Hc. unfold run. induction cs as [|c cs IH]; intros w; simpl.
  - apply quiet_refl.
  - eapply quiet_trans; [apply Hc | apply IH].
Qed.

Lemma step_cases l w w' :
  step l w = Some w' ->
  quiet w w'
  \/ exists i env a, l = Answer i env /\ pending w !! i = Some a
                     /\ w' = resume a env (answered i w).
Proof.
  intros Hs. destruct l; cbn [step] in Hs.
  - left. injection Hs as <-. unfold fetchNotes. destruct (user w); repeat split.
  - left. destruct (loading (ui w)); [discriminate|]. injection Hs as <-. repeat split.
  - left. destruct (loading (ui w)); [discriminate|]. injection Hs as <-. repeat split.
  - left. destruct (shows_card note (ui w)); [|discriminate].
    replace w' with (run card_call [Card.OnEdit note] w) by congruence.
    apply quiet_run, quiet_card_call.
  - left. destruct (shows_card note (ui w)); [|discriminate].
    replace w' with (run card_call [Card.OnDelete (Note.id note)] w) by congruence.
    apply quiet_run, quiet_card_call.
  - left. destruct (shows_card note (ui w)); [|discriminate].
    match type of Hs with Some ?x = _ => replace w' with x by congruence end.
    apply quiet_run, quiet_card_call.
  - left. destruct (shows_editor (ui w)); [|discriminate].
    match type of Hs with Some ?x = _ => replace w' with x by congruence end.
    apply quiet_run, quiet_editor_call.
  - left. destruct (shows_editor (ui w)); [|discriminate].
    match type of Hs with Some ?x = _ => replace w' with x by congruence end.
    apply quiet_run, quiet_editor_call.
  - left. destruct (shows_editor (ui w)); [|discriminate].
    match type of Hs with Some ?x = _ => replace w' with x by congruence end.
    apply quiet_run, quiet_editor_call.
  - left. destruct (shows_editor (ui w)); [|discriminate].
    replace w' with (run editor_call Editor.clickClose w) by congruence.
    apply quiet_run, quiet_editor_call.
  - right. destruct (pending w !! i) as [a|] eqn:Ea; [|discriminate].
    injection Hs as <-. eauto 6.
Qed.

(** The table after an answer, against the table before. *)
Lemma resume_foreign_rows a env w uid :
  (forall u, await_uid a = Some u -> u = uid) ->
  same_foreign_rows uid (table w) (table (resume a env w)).
Proof.
  intros Ha.
  pose proof (fun k t c s now => store_writes_keep_foreign_rows uid k t c s now (table w))
    as Hw.
  destruct a as [u | k u t c | u t c | k u | k t c | k u s]; cbn [resume].
  - unfold fetchNotes_answered, store_call.
    destruct (fault env); [destruct (thrown env)|]; apply same_foreign_refl.
  - assert (u = uid) as -> by (apply Ha; reflexivity).
    unfold saveNote_update_answered, store_call.
    destruct (fault env); [apply same_foreign_refl|].
    destruct (Hw k t c "" (now env)) as (H & _).
    destruct (Store.update_note uid k t c (now env) (table w)) as [tb [d|m]];
      [exact H | apply same_foreign_refl].
  - assert (u = uid) as -> by (apply Ha; reflexivity).
    unfold saveNote_insert_answered, store_call.
    destruct (fault env); [apply same_foreign_refl|].
    destruct (Hw (fresh_id env) t c "" (now env)) as (_ & H & _).
    destruct (Store.insert_note uid (fresh_id env) t c (now env) (table w))
      as [tb [d|m]]; [exact H | apply same_foreign_refl].
  - assert (u = uid) as -> by (apply Ha; reflexivity).
    unfold deleteNote_answered, store_call.
    destruct (fault env); [apply same_foreign_refl|].
    destruct (Hw k "" "" "" 0%N) as (_ & _ & H & _). exact H.
  - unfold generateSummary_invoke_answered.
    destruct (fault env); [apply same_foreign_refl|].
    destruct (reply env) as [s|]; [|apply same_foreign_refl].
    destruct (truthy s); [|apply same_foreign_refl].
    destruct (user w); apply same_foreign_refl.
  - assert (u = uid) as -> by (apply Ha; reflexivity).
    unfold generateSummary_update_answered, store_call.
    destruct (fault env); [apply same_foreign_refl|].
    destruct (Hw k "" "" s (now env)) as (_ & _ & _ & H). exact H.
Qed.

Lemma step_foreign_rows l w w' uid :
  coherent w -> user w = Some uid -> step l w = Some w' ->
  same_foreign_rows uid (table w) (table w').
Proof.
  intros [_ H2] Hu Hs.
  destruct (step_cases l w w' Hs) as [(_ & Ht & _) | (i & env & a & -> & Ha & ->)].
  - rewrite Ht. apply same_foreign_refl.
  - apply (resume_foreign_rows a env (answered i w) uid).
    intros u Hau. assert (user w = Some u) by
      (apply (H2 a); [apply list_elem_of_In; eapply list_elem_of_lookup_2; exact Ha | exact Hau]).
    congruence.
Qed.

Lemma step_user l w w' : step l w = Some w' -> user w' = user w.
Proof.
  intros Hs.
  destruct (step_cases l w w' Hs) as [(_ & _ & Hu & _) | (i & env & a & -> & Ha & ->)];
    [exact Hu|].
  destruct a; cbn [resume].
  - unfold fetchNotes_answered, store_call.
    destruct (fault env); [destruct (thrown env)|]; reflexivity.
  - unfold saveNote_update_answered.
    destruct (store_call _ _ _) as [tb [d|m]]; reflexivity.
  - unfold saveNote_insert_answered.
    destruct (store_call _ _ _) as [tb [d|m]]; reflexivity.
  - unfold deleteNote_answered.
    destruct (store_call _ _ _) as [tb [d|m]]; reflexivity.
  - unfold generateSummary_invoke_answered.
    destruct (fault env); [reflexivity|].
    destruct (reply env) as [s|]; [|reflexivity].
    destruct (truthy s); [|reflexivity].
    destruct (user (answered i w)); reflexivity.
  - unfold generateSummary_update_answered.
    destruct (store_call _ _ _) as [tb [d|m]]; reflexivity.
Qed.

(** X8.  Whatever the user of the page does and however the calls are
    answered, the rows of other users are never created, changed or
    removed: after any run of the page of [uid] over a table, the rows
    not owned by [uid] are exactly those of that table. *)
Theorem page_never_touches_foreign_rows
    (uid : string) (tb : Store.Table) (ls : list Label) (w : World) :
  steps ls (start (Some uid) tb) = Some w ->
  forall k r, Store.user_id r <> uid ->
              (table w !! k = Some r <-> tb !! k = Some r).
Proof.
  assert (H : forall ls w0 w, reachable w0 -> user w0 = Some uid ->
                steps ls w0 = Some w ->
                same_foreign_rows uid (table w0) (table w)).
  { clear. induction ls as [|l ls IH]; intros w0 w Hr Hu Hs; simpl in Hs.
    - injection Hs as <-. apply same_foreign_refl.
    - destruct (step l w0) as [w1|] eqn:E; [|discriminate].
      pose proof (step_foreign_rows l w0 w1 uid (reachable_coherent _ Hr) Hu E) as H1.
      assert (H2 : same_foreign_rows uid (table w1) (table w)).
      { apply IH; [econstructor; eauto | | exact Hs].
        rewrite (step_user _ _ _ E). exact Hu. }
      intros k r Hne. rewrite (H2 k r Hne). apply H1. exact Hne. }
  intros Hs. exact (H ls (start (Some uid) tb) w (reach_start _ _) eq_refl Hs).
Qed.

End PageFurther.

(** ** Invariants of the page *)

Section PageInvariants.

Import Dashboard.





Lemma in_delete_other (l : list Await) i a x :
  l !! i = Some a -> In x l -> x <> a -> In x (delete i l).
Proof.
  revert i. induction l as [|y l IH]; intros [|i] Hi Hx Hne; simpl in *;
    try discriminate; try contradiction.
  - injection Hi as ->. destruct Hx as [-> | Hx]; [contradiction | exact Hx].
  - destruct Hx as [-> | Hx]; [now left | right; eauto].
Qed.

Lemma busy_await a w :
  busy_is_in_flight w -> busy_is_in_flight (await a w).
Proof.
  intros [H1 H2]. split; cbn.
  - intros Hs. destruct (H1 Hs) as (x & Hx & Hp). exists x. split; [|exact Hp].
    apply in_or_app. now left.
  - intros k Hk. destruct (H2 k Hk) as (x & Hx & Hp). exists x. split; [|exact Hp].
    apply in_or_app. now left.
Qed.

Lemma busy_same w w' :
  savingNote (ui w') = savingNote (ui w) ->
  generatingSummary (ui w') = generatingSummary (ui w) ->
  pending w' = pending w ->
  busy_is_in_flight w -> busy_is_in_flight w'.
Proof.
  intros Hs Hg Hp [H1 H2]. split.
  - rewrite Hs, Hp. exact H1.
  - intros k. rewrite Hg, Hp. apply H2.
Qed.

Lemma busy_saveNote p w : busy_is_in_flight w -> busy_is_in_flight (saveNote p w).
Proof.
  intros H. unfold saveNote. destruct (user w) as [uid|]; [|exact H].
  destruct H as [H1 H2].
  destruct (Payload.id p) as [k|]; [destruct (truthy k)|]; (split; cbn;
    [ intros _; eexists; split; [apply in_or_app; right; now left | exact I]
    | intros k' Hk; destruct (H2 k' Hk) as (x & Hx & Hp); exists x;
      split; [apply in_or_app; now left | exact Hp] ]).
Qed.

Lemma busy_generateSummary k t c w :
  busy_is_in_flight w -> busy_is_in_flight (generateSummary k t c w).
Proof.
  intros H. unfold generateSummary. destruct (negb (truthy (trim c))).
  - eapply busy_same; [..|exact H]; reflexivity.
  - destruct H as [H1 H2]. split; cbn.
    + intros Hs. destruct (H1 Hs) as (x & Hx & Hp). exists x.
      split; [apply in_or_app; now left | exact Hp].
    + intros k' [= <-]. eexists. split; [apply in_or_app; right; now left|].
      reflexivity.
Qed.

Lemma busy_editor_call c w : busy_is_in_flight w -> busy_is_in_flight (editor_call c w).
Proof.
  intros H. destruct c; cbn.
  - exact H.
  - now apply busy_saveNote.
  - eapply busy_same; [..|exact H]; reflexivity.
Qed.

Lemma busy_card_call c w : busy_is_in_flight w -> busy_is_in_flight (card_call c w).
Proof.
  intros H. destruct c; cbn.
  - eapply busy_same; [..|exact H]; reflexivity.
  - eapply busy_same; [..|exact H]; reflexivity.
  - unfold deleteNote. destruct (user w); [|exact H].
    apply busy_await. eapply busy_same; [..|exact H]; reflexivity.
  - now apply busy_generateSummary.
Qed.

Lemma busy_run {C} (call : C -> World -> World) cs :
  (forall c w, busy_is_in_flight w -> busy_is_in_flight (call c w)) ->
  forall w, busy_is_in_flight w -> busy_is_in_flight (run call cs w).
Proof.
  intros Hc. unfold run. induction cs as [|c cs IH]; intros w H; simpl; auto.
Qed.

End PageInvariants.

(** ** The list when other sessions write *)

Section OpenWorld.

Import Dashboard.

Lemma own_same w w' :
  notes (ui w') = notes (ui w) -> user w' = user w -> pending w' = pending w ->
  own_notes w -> own_notes w'.
Proof.
  intros Hn Hu Hp [H1 H2]. split.
  - rewrite Hn, Hu. exact H1.
  - rewrite Hp, Hu. exact H2.
Qed.

Lemma own_await a w :
  (forall uid, await_uid a = Some uid -> user w = Some uid) ->
  own_notes w -> own_notes (await a w).
Proof.
  intros Ha [H1 H2]. split; [exact H1|]. simpl.
  intros b uid Hb Hu. apply in_app_or in Hb as [Hb | [<- | []]]; eauto.
Qed.

Lemma own_answered i w : own_notes w -> own_notes (answered i w).
Proof.
  intros [H1 H2]. split; [exact H1|]. simpl.
  intros a uid Ha. apply H2.
  apply list_elem_of_In. eapply list_elem_of_delete_inv.
  apply list_elem_of_In. exact Ha.
Qed.

Lemma own_saveNote p w : own_notes w -> own_notes (saveNote p w).
Proof.
  intros H. unfold saveNote. destruct (user w) as [uid|] eqn:Eu; [|exact H].
  assert (H1 : own_notes (render (setSavingNote true) w))
    by (eapply own_same; [..|exact H]; reflexivity).
  destruct (Payload.id p) as [k|]; [destruct (truthy k)|];
    (apply own_await;
     [ simpl; congruence
     | eapply own_same; [..|exact H1]; reflexivity ]).
Qed.

Lemma own_deleteNote k w : own_notes w -> own_notes (deleteNote k w).
Proof.
  intros H. unfold deleteNote. destruct (user w) as [uid|] eqn:Eu; [|exact H].
  apply own_await; [simpl; congruence|].
  eapply own_same; [..|exact H]; reflexivity.
Qed.

Lemma own_generateSummary k t c w :
  own_notes w -> own_notes (generateSummary k t c w).
Proof.
  intros H. unfold generateSummary. destruct (negb (truthy (trim c))).
  - eapply own_same; [..|exact H]; reflexivity.
  - apply own_await; [simpl; congruence|].
    eapply own_same; [..|exact H]; reflexivity.
Qed.

Lemma own_fetchNotes w : own_notes w -> own_notes (fetchNotes w).
Proof.
  intros H. unfold fetchNotes. destruct (user w) as [uid|] eqn:Eu; [|exact H].
  apply own_await; [simpl; congruence|].
  eapply own_same; [..|exact H]; reflexivity.
Qed.

Lemma own_editor_call c w : own_notes w -> own_notes (editor_call c w).
Proof.
  intros H. destruct c; simpl.
  - exact H.
  - now apply own_saveNote.
  - eapply own_same; [..|exact H]; reflexivity.
Qed.

Lemma own_card_call c w : own_notes w -> own_notes (card_call c w).
Proof.
  intros H. destruct c; simpl.
  - eapply own_same; [..|exact H]; reflexivity.
  - eapply own_same; [..|exact H]; reflexivity.
  - now apply own_deleteNote.
  - now apply own_generateSummary.
Qed.

Lemma own_run {C} (call : C -> World -> World) cs :
  (forall c w, own_notes w -> own_notes (call c w)) ->
  forall w, own_notes w -> own_notes (run call cs w).
Proof.
  intros Hc. unfold run. induction cs as [|c cs IH]; intros w H; simpl; auto.
Qed.

(** What an answer puts in the list carries the user the call was
    issued for, whatever the table holds. *)
Lemma own_resume a env w :
  (forall uid, await_uid a = Some uid -> user w = Some uid) ->
  own_notes w -> own_notes (resume a env w).
Proof.
  intros Ha H.
  destruct a as [u | k u t c | u t c | k u | k t c | k u s]; cbn [resume].
  - unfold fetchNotes_answered, store_call.
    destruct (fault env).
    + destruct (thrown env); (eapply own_same; [..|exact H]; reflexivity).
    + destruct H as [_ H2]. split; [|exact H2].
      cbn. intros n Hn.
      apply list_elem_of_In, elem_of_select_all in Hn as (r & _ & Hu & ->).
      cbn. rewrite Hu. apply Ha. reflexivity.
  - unfold saveNote_update_answered, store_call.
    assert (Hf : own_notes (saveNote_failed w))
      by (eapply own_same; [..|exact H]; reflexivity).
    destruct (fault env); [exact Hf|].
    unfold Store.update_note.
    destruct (table w !! k) as [r|] eqn:Er; [|exact Hf].
    destruct (decide (Store.user_id r = u)) as [Hr|]; [|exact Hf].
    destruct H as [H1 H2]. split; [|exact H2].
    cbn. intros n' Hn'. apply in_map_iff in Hn' as (n & <- & Hn).
    destruct (String.eqb_spec (Note.id n) k) as [Hk|Hk]; [|auto].
    rewrite merge_is_data. cbn. rewrite Hr. apply Ha. reflexivity.
  - unfold saveNote_insert_answered, store_call.
    assert (Hf : own_notes (saveNote_failed w))
      by (eapply own_same; [..|exact H]; reflexivity).
    destruct (fault env); [exact Hf|].
    unfold Store.insert_note.
    destruct (table w !! fresh_id env) as [r|] eqn:Er; [exact Hf|].
    destruct H as [H1 H2]. split; [|exact H2].
    cbn. intros n [<- | Hn]; [|auto].
    cbn. apply Ha. reflexivity.
  - unfold deleteNote_answered, store_call.
    destruct (fault env).
    + eapply own_same; [..|exact H]; reflexivity.
    + destruct H as [H1 H2]. split; [|exact H2].
      cbn. intros n Hn. apply filter_In in Hn as [Hn _]. auto.
  - unfold generateSummary_invoke_answered.
    assert (Hf : forall m, own_notes (generateSummary_failed m w))
      by (intros m; eapply own_same; [..|exact H]; reflexivity).
    destruct (fault env); [apply Hf|].
    destruct (reply env) as [s|]; [|apply Hf].
    destruct (truthy s); [|apply Hf].
    destruct (user w) as [uid|] eqn:Eu; [|apply Hf].
    apply own_await; [simpl; congruence|].
    eapply own_same; [..|exact H]; reflexivity.
  - unfold generateSummary_update_answered, store_call.
    destruct (fault env).
    + eapply own_same; [..|exact H]; reflexivity.
    + destruct H as [H1 H2]. split; [|exact H2].
      cbn. intros n' Hn'. apply in_map_iff in Hn' as (n & <- & Hn).
      destruct (String.eqb (Note.id n) k); cbn; auto.
Qed.

Lemma own_step l w w' :
  own_notes w -> step l w = Some w' -> own_notes w'.
Proof.
  intros H Hs. destruct l; cbn [step] in Hs.
  - injection Hs as <-. now apply own_fetchNotes.
  - destruct (loading (ui w)); [discriminate|]. injection Hs as <-.
    eapply own_same; [..|exact H]; reflexivity.
  - destruct (loading (ui w)); [discriminate|]. injection Hs as <-.
    eapply own_same; [..|exact H]; reflexivity.
  - destruct (shows_card note (ui w)); [|discriminate].
    replace w' with (run card_call [Card.OnEdit note] w) by congruence.
    apply own_run; auto using own_card_call.
  - destruct (shows_card note (ui w)); [|discriminate].
    replace w' with (run card_call [Card.OnDelete (Note.id note)] w) by congruence.
    apply own_run; auto using own_card_call.
  - destruct (shows_card note (ui w)); [|discriminate].
    match type of Hs with Some ?x = _ => replace w' with x by congruence end.
    apply own_run; auto using own_card_call.
  - destruct (shows_editor (ui w)); [|discriminate].
    match type of Hs with Some ?x = _ => replace w' with x by congruence end.
    apply own_run; auto using own_editor_call.
  - destruct (shows_editor (ui w)); [|discriminate].
    match type of Hs with Some ?x = _ => replace w' with x by congruence end.
    apply own_run; auto using own_editor_call.
  - destruct (shows_editor (ui w)); [|discriminate].
    match type of Hs with Some ?x = _ => replace w' with x by congruence end.
    apply own_run; auto using own_editor_call.
  - destruct (shows_editor (ui w)); [|discriminate].
    replace w' with (run editor_call Editor.clickClose w) by congruence.
    apply own_run; auto using own_editor_call.
  - destruct (pending w !! i) as [a|] eqn:Ea; [|discriminate]. injection Hs as <-.
    apply own_resume; [|now apply own_answered].
    intros uid Hu. destruct H as [_ H2]. cbn. apply (H2 a); [|exact Hu].
    apply list_elem_of_In. eapply list_elem_of_lookup_2. exact Ea.
Qed.

Lemma open_reachable_own w : open_reachable w -> own_notes w.
Proof.
  induction 1 as [uid tb | w l w' _ IH Hs | w tb _ IH].
  - split; simpl; contradiction.
  - eapply own_step; eauto.
  - eapply own_same; [..|exact IH]; reflexivity.
Qed.

(** The page of user "u" after its first fetch, and then a summary
    stored by another session. *)
Lemma stale_world_open :
  open_reachable (store {["n1" := summarized_row]} sample_world).
Proof.
  apply open_elsewhere.
  apply (open_step (fetchNotes (start (Some "u") sample_table))
                   (Answer 0 (at_time 1 None))).
  - apply (open_step (start (Some "u") sample_table) Mount);
      [apply open_start | reflexivity].
  - vm_compute. reflexivity.
Qed.

(** X9.  Whatever other sessions write to the table between the steps
    of the page, every note of the list is tagged with the signed-in
    user: the list is only ever filled from answers of the store to
    calls made for that user.  That the list is up to date is not kept:
    after a summary stored by another session the list shows the note
    without it. *)
Theorem list_holds_own_notes :
  (forall w, open_reachable w ->
     forall n, In n (notes (ui w)) -> user w = Some (Note.user_id n))
  /\ (exists w, open_reachable w /\ behind w).
Proof.
  split.
  - intros w Hw. exact (proj1 (open_reachable_own w Hw)).
  - exists (store {["n1" := summarized_row]} sample_world).
    split; [exact stale_world_open|].
    exists sample_note, summarized_row. split; [now left|].
    split; [apply summarized_lookup | discriminate].
Qed.

End OpenWorld.

Section BusyFlags.

Import Dashboard.

#[local] Instance await_eq_dec : EqDecision Await.
Proof. solve_decision. Defined.

Lemma busy_after_answer i a w w' :
  pending w !! i = Some a ->
  busy_is_in_flight w ->
  (exists extra, pending w' = delete i (pending w) ++ extra) ->
  (savingNote (ui w') = true -> savingNote (ui w) = true /\ ~ is_save a) ->
  (forall k, generatingSummary (ui w') = Some k ->
             generatingSummary (ui w) = Some k
             /\ (summarizing k a -> exists x, In x (pending w') /\ summarizing k x)) ->
  busy_is_in_flight w'.
Proof.
  intros Ha [H1 H2] [extra Hp] Hs Hg. split.
  - intros Hs'. destruct (Hs Hs') as [Hsw Hna].
    destruct (H1 Hsw) as (x & Hx & Hsx). exists x. split; [|exact Hsx].
    rewrite Hp. apply in_or_app. left.
    eapply in_delete_other; eauto. intros ->. contradiction.
  - intros k Hk. destruct (Hg k Hk) as [Hgw Hnew].
    destruct (H2 k Hgw) as (x & Hx & Hsx).
    destruct (decide (x = a)) as [->|Hne]; [exact (Hnew Hsx)|].
    exists x. split; [|exact Hsx].
    rewrite Hp. apply in_or_app. left. eapply in_delete_other; eauto.
Qed.

Lemma busy_resume i a env w :
  pending w !! i = Some a ->
  busy_is_in_flight w ->
  busy_is_in_flight (resume a env (answered i w)).
Proof.
  intros Ha H.
  assert (Hnil : forall l : list Await, l = l ++ []) by (intros; now rewrite app_nil_r).
  destruct a as [u | k u t c | u t c | k u | k t c | k u s]; cbn [resume].
  - apply (busy_after_answer i _ w _ Ha H).
    + exists []. unfold fetchNotes_answered, store_call.
      destruct (fault env); [destruct (thrown env)|]; apply Hnil.
    + unfold fetchNotes_answered, store_call.
      destruct (fault env); [destruct (thrown env)|]; cbn; auto.
    + unfold fetchNotes_answered, store_call.
      destruct (fault env); [destruct (thrown env)|]; cbn; intros k' Hk;
        (split; [exact Hk | contradiction]).
  - apply (busy_after_answer i _ w _ Ha H).
    + exists []. unfold saveNote_update_answered.
      destruct (store_call _ _ _) as [tb [d|m]]; apply Hnil.
    + unfold saveNote_update_answered.
      destruct (store_call _ _ _) as [tb [d|m]]; cbn; discriminate.
    + unfold saveNote_update_answered.
      destruct (store_call _ _ _) as [tb [d|m]]; cbn; intros k' Hk;
        (split; [exact Hk | contradiction]).
  - apply (busy_after_answer i _ w _ Ha H).
    + exists []. unfold saveNote_insert_answered.
      destruct (store_call _ _ _) as [tb [d|m]]; apply Hnil.
    + unfold saveNote_insert_answered.
      destruct (store_call _ _ _) as [tb [d|m]]; cbn; discriminate.
    + unfold saveNote_insert_answered.
      destruct (store_call _ _ _) as [tb [d|m]]; cbn; intros k' Hk;
        (split; [exact Hk | contradiction]).
  - apply (busy_after_answer i _ w _ Ha H).
    + exists []. unfold deleteNote_answered.
      destruct (store_call _ _ _) as [tb [d|m]]; apply Hnil.
    + unfold deleteNote_answered.
      destruct (store_call _ _ _) as [tb [d|m]]; cbn; auto.
    + unfold deleteNote_answered.
      destruct (store_call _ _ _) as [tb [d|m]]; cbn; intros k' Hk;
        (split; [exact Hk | contradiction]).
  - destruct (invoke_answered_cases k env (answered i w))
      as [(m & -> & _) | (uid & s & _ & _ & _ & _ & ->)].
    + apply (busy_after_answer i _ w _ Ha H).
      * exists []. apply Hnil.
      * cbn. auto.
      * cbn. discriminate.
    + apply (busy_after_answer i _ w _ Ha H).
      * eexists. reflexivity.
      * cbn. auto.
      * cbn. intros k' Hk. split; [exact Hk|]. intros <-.
        eexists. split; [apply in_or_app; right; now left | reflexivity].
  - apply (busy_after_answer i _ w _ Ha H).
    + exists []. unfold generateSummary_update_answered.
      destruct (store_call _ _ _) as [tb [d|m]]; apply Hnil.
    + unfold generateSummary_update_answered.
      destruct (store_call _ _ _) as [tb [d|m]]; cbn; auto.
    + unfold generateSummary_update_answered.
      destruct (store_call _ _ _) as [tb [d|m]]; cbn; discriminate.
Qed.

Lemma busy_step l w w' :
  busy_is_in_flight w -> step l w = Some w' -> busy_is_in_flight w'.
Proof.
  intros H Hs. destruct l; cbn [step] in Hs.
  - injection Hs as <-. unfold fetchNotes. destruct (user w); [|exact H].
    apply busy_await. eapply busy_same; [..|exact H]; reflexivity.
  - destruct (loading (ui w)); [discriminate|]. injection Hs as <-.
    eapply busy_same; [..|exact H]; reflexivity.
  - destruct (loading (ui w)); [discriminate|]. injection Hs as <-.
    eapply busy_same; [..|exact H]; reflexivity.
  - destruct (shows_card note (ui w)); [|discriminate].
    replace w' with (run card_call [Card.OnEdit note] w) by congruence.
    apply busy_run; auto using busy_card_call.
  - destruct (shows_card note (ui w)); [|discriminate].
    replace w' with (run card_call [Card.OnDelete (Note.id note)] w) by congruence.
    apply busy_run; auto using busy_card_call.
  - destruct (shows_card note (ui w)); [|discriminate].
    match type of Hs with Some ?x = _ => replace w' with x by congruence end.
    apply busy_run; auto using busy_card_call.
  - destruct (shows_editor (ui w)); [|discriminate].
    match type of Hs with Some ?x = _ => replace w' with x by congruence end.
    apply busy_run; auto using busy_editor_call.
  - destruct (shows_editor (ui w)); [|discriminate].
    match type of Hs with Some ?x = _ => replace w' with x by congruence end.
    apply busy_run; auto using busy_editor_call.
  - destruct (shows_editor (ui w)); [|discriminate].
    match type of Hs with Some ?x = _ => replace w' with x by congruence end.
    apply busy_run; auto using busy_editor_call.
  - destruct (shows_editor (ui w)); [|discriminate].
    replace w' with (run editor_call Editor.clickClose w) by congruence.
    apply busy_run; auto using busy_editor_call.
  - destruct (pending w !! i) as [a|] eqn:Ea; [|discriminate]. injection Hs as <-.
    now apply busy_resume.
Qed.

(** X10.  The busy flags are honest in every state the page can reach:
    while the editor says it is saving, a save is in flight, and while a
    card says it is summarizing, a summarize of that note is in flight,
    so the answer that clears the flag is still to come. *)
Theorem busy_flags_have_a_call_in_flight (w : World) :
  reachable w ->
  (savingNote (ui w) = true -> exists a, In a (pending w) /\ is_save a)
  /\ (forall note, isGeneratingSummary (Note.id note) (ui w) = true ->
                   exists a, In a (pending w) /\ summarizing (Note.id note) a).
Proof.
  intros Hr.
  assert (H : busy_is_in_flight w).
  { induction Hr as [uid tb | w l w' _ IH Hs].
    - split; cbn; [discriminate | intros k; discriminate].
    - eapply busy_step; eauto. }
  destruct H as [H1 H2]. split; [exact H1|].
  intros note Hg. apply H2. unfold isGeneratingSummary in Hg.
  apply bool_decide_eq_true in Hg. exact Hg.
Qed.

End BusyFlags.

(** ** The operations of the page from call to answer *)

Section PageOperations.

Import Dashboard.

Lemma answered_await a w :
  answered (List.length (pending w)) (await a w) = w.
Proof.
  destruct w as [u s tb p lg]. unfold answered, await. cbn. f_equal.
  apply delete_last_await.
Qed.

Lemma answer_last a env w :
  step (Answer (List.length (pending w)) env) (await a w)
  = Some (resume a env w).
Proof.
  cbn [step pending await]. rewrite lookup_last_await.
  change (delete (List.length (pending w)) (pending w ++ [a]))
    with (pending (answered (List.length (pending w)) (await a w))).
  f_equal. f_equal. apply answered_await.
Qed.

(** X7.  A fetch of the signed-in user ends with the loading flag down
    and the table untouched.  When the store answers, the list holds
    exactly the rows of that user, each once, the most recently updated
    first, and no note of anyone else; when the call fails, the list is
    the one before and a destructive notification is shown. *)
Theorem fetch_lists_own_notes_newest_first (w : World) (env : Env) (uid : string) :
  user w = Some uid ->
  exists w',
    fetch_run env w = Some w'
    /\ loading (ui w') = false
    /\ table w' = table w
    /\ pending w' = pending w
    /\ (fault env = None ->
          (forall n, In n (notes (ui w'))
                     <-> exists r, table w !! Note.id n = Some r
                                   /\ Store.user_id r = uid
                                   /\ n = Store.to_note (Note.id n) r)
          /\ (forall n, In n (notes (ui w')) -> Note.user_id n = uid)
          /\ NoDup (map Note.id (notes (ui w')))
          /\ StronglySorted
               (fun a b => (Note.updated_at b <= Note.updated_at a)%N)
               (notes (ui w')))
    /\ (fault env <> None ->
          notes (ui w') = notes (ui w)
          /\ exists n rest, log w' = log w ++ Select uid :: rest
                            /\ In (Toast n) rest /\ destructive n = true).
Proof.
  intros Hu. eexists. split.
  { unfold fetch_run, fetchNotes. rewrite Hu.
    exact (answer_last (AwaitSelect uid) env (emit [Select uid] w)). }
  cbn [resume]. unfold fetchNotes_answered, store_call.
  destruct (fault env) as [m|].
  - assert (Hcommon : forall es n,
              In (Toast n) es -> destructive n = true ->
              exists n' rest, (log w ++ [Select uid]) ++ es = log w ++ Select uid :: rest
                              /\ In (Toast n') rest /\ destructive n' = true).
    { intros es n Hin Hdn. exists n, es. rewrite <- app_assoc. auto. }
    destruct (thrown env); cbn;
      (split; [reflexivity|]); (split; [reflexivity|]); (split; [reflexivity|]);
      (split; [discriminate|]); intros _; (split; [reflexivity|]);
      eapply Hcommon; [right; left; reflexivity | reflexivity
                      | left; reflexivity | reflexivity].
  - cbn. split; [reflexivity|]. split; [reflexivity|]. split; [reflexivity|].
    split; [|congruence].
    intros _. exact (select_all_own_rows_newest_first uid (table w)).
Qed.

(** X11.  A create-save (payload without id) of the signed-in user that
    the store accepts under a fresh key puts exactly one new note at the
    head of the list: the payload's title and content, no summary, owned
    by the user, both timestamps the time of the insert.  The same row
    is in the table, the editor is closed and nothing is left in
    flight. *)
Theorem create_save_prepends_the_new_note
    (w : World) (p : Payload.t) (env : Env) (uid : string) :
  user w = Some uid ->
  is_new p ->
  fault env = None ->
  table w !! fresh_id env = None ->
  let created :=
    {| Note.id := fresh_id env; Note.user_id := uid;
       Note.title := Payload.title p; Note.content := Payload.content p;
       Note.summary := None;
       Note.created_at := now env; Note.updated_at := now env |} in
  exists w' r,
    create_save p env w = Some w'
    /\ notes (ui w') = created :: notes (ui w)
    /\ table w' = <[fresh_id env := r]> (table w)
    /\ created = Store.to_note (fresh_id env) r
    /\ isEditorOpen (ui w') = false
    /\ editingNote (ui w') = None
    /\ savingNote (ui w') = false
    /\ pending w' = pending w.
Proof.
  intros Hu Hp Hf Hk. cbv zeta.
  assert (Hs : saveNote p w
               = await (AwaitInsert uid (Payload.title p) (Payload.content p))
                   (emit [Insert uid (Payload.title p) (Payload.content p)]
                      (render (setSavingNote true) w))).
  { unfold saveNote. rewrite Hu. destruct Hp as [-> | ->]; reflexivity. }
  unfold create_save. rewrite Hs.
  change (List.length (pending w))
    with (List.length (pending (emit [Insert uid (Payload.title p) (Payload.content p)]
                                  (render (setSavingNote true) w)))).
  rewrite answer_last. cbn [resume].
  unfold saveNote_insert_answered, store_call. rewrite Hf.
  cbn [table emit render]. unfold Store.insert_note. rewrite Hk.
  eexists _, _. split; [reflexivity|]. cbn. repeat split.
Qed.




End PageOperations.

(** ** The stats after a summarize *)

Section StatsFurther.

Import Dashboard.





End StatsFurther.

(** ** The summarization endpoint, further *)

Section EdgeFurther.

Import Edge.

Lemma respond_cases req fetched :
  (exists m, respond req fetched = Thrown m)
  \/ (exists m, forall f, respond req f = Returned (error_response 400 m))
  \/ (exists m, respond req fetched = Returned (error_response 500 m))
  \/ (exists response data s,
        fetched = Returned response
        /\ ok response = true
        /\ upstream_json response = Returned data
        /\ completion data = Returned (Some s)
        /\ truthy_value (Some s) = true
        /\ respond req fetched
           = Returned {| status := 200; headers := jsonHeaders;
                         body := Some (JObj [("summary", s)]) |}).
Proof.
  unfold respond.
  destruct (json req) as [parsed|m]; [|left; eauto]. cbn [bind].
  destruct (prop "content" (Some parsed)) as [content|m]; [|left; eauto].
  cbn [bind].
  destruct (prop "title" (Some parsed)) as [title|m]; [|left; eauto].
  cbn [bind].
  destruct (truthy_value content); cbn [negb]; [|right; left; eauto].
  destruct (interpolate _) as [[]|m]; [|left; eauto]. cbn [bind].
  destruct (interpolate content) as [[]|m]; [|left; eauto]. cbn [bind].
  destruct fetched as [response|m]; [|left; eauto]. cbn [bind].
  destruct (ok response) eqn:Eok; cbn [negb]; [|right; right; left; eauto].
  destruct (upstream_json response) as [data|m] eqn:Ej; [|left; eauto].
  cbn [bind].
  destruct (completion data) as [summary|m] eqn:Ec; [|left; eauto]. cbn [bind].
  destruct summary as [s|]; [|right; right; left; eauto].
  destruct (truthy_value (Some s)) eqn:Et; [|right; right; left; eauto].
  right. right. right. exists response, data, s. repeat split; auto.
Qed.

(** X14.  The handler answers with 200, 400 or 500 and nothing else.  A
    200 to a request that is not a preflight always carries a summary
    that is not empty, taken from an upstream answer that was [ok]; any
    other status carries an [{error}] body.  A 400 is decided before the
    upstream call: it is the same whatever the upstream would answer. *)
Theorem ok_response_carries_a_summary (req : Request) (fetched : Try Upstream) :
  (status (handler req fetched) = 200%Z
   \/ status (handler req fetched) = 400%Z
   \/ status (handler req fetched) = 500%Z)
  /\ (method req <> "OPTIONS" ->
      status (handler req fetched) = 200%Z ->
      exists response data s,
        fetched = Returned response
        /\ ok response = true
        /\ upstream_json response = Returned data
        /\ completion data = Returned (Some s)
        /\ truthy_value (Some s) = true
        /\ body (handler req fetched) = Some (JObj [("summary", s)]))
  /\ (status (handler req fetched) <> 200%Z -> is_error (handler req fetched))
  /\ (status (handler req fetched) = 400%Z ->
      forall f, handler req f = handler req fetched).
Proof.
  unfold handler. destruct (String.eqb_spec (method req) "OPTIONS") as [Hm|Hm].
  - cbn. split; [now left|]. split; [contradiction|].
    split; [contradiction | discriminate].
  - destruct (respond_cases req fetched)
      as [(m & E) | [(m & E) | [(m & E) | (response & data & s & F & Ho & Hj & Hc & Ht & E)]]].
    + rewrite E. cbn. split; [auto|]. split; [discriminate|].
      split; [intros _; eexists; reflexivity | discriminate].
    + rewrite (E fetched). cbn. split; [auto|]. split; [discriminate|].
      split; [intros _; eexists; reflexivity|].
      intros _ f. rewrite (E f). reflexivity.
    + rewrite E. cbn. split; [auto|]. split; [discriminate|].
      split; [intros _; eexists; reflexivity | discriminate].
    + rewrite E. cbn. split; [auto|]. split.
      * intros _ _. exists response, data, s. repeat split; auto.
      * split; [contradiction | discriminate].
Qed.

End EdgeFurther.

(** ** The sign-in page and the index page *)

Section AuthFurther.

Lemma shownError_not_empty m : Auth.shownError m <> "".
Proof.
  unfold Auth.shownError.
  destruct (includes m "Invalid login credentials"); [discriminate|].
  destruct (includes m "User already registered"); [discriminate|].
  destruct (includes m "Password should be at least 6 characters"); [discriminate|].
  destruct m; discriminate.
Qed.

(** X15.  A submit with an empty email or an empty password never calls
    [signIn] or [signUp]: it only shows 'Please fill in all fields', and
    the loading flag, the mode and both fields stay as they were. *)
Theorem submit_with_an_empty_field_calls_nothing (s : Auth.State) (a : Auth.Answer) :
  Auth.email s = "" \/ Auth.password s = "" ->
  Auth.submit a s
  = (Auth.setError "Please fill in all fields" s, [Auth.PreventDefault])
  /\ (forall e, In e (snd (Auth.submit a s)) -> ~ is_auth_call e)
  /\ Auth.loading (fst (Auth.submit a s)) = Auth.loading s.
Proof.
  intros H.
  assert (E : Auth.submit a s
              = (Auth.setError "Please fill in all fields" s, [Auth.PreventDefault])).
  { unfold Auth.submit, Auth.handleSubmit.
    destruct H as [-> | ->]; [reflexivity|]. rewrite orb_true_r. reflexivity. }
  rewrite E. split; [reflexivity|]. split; [|reflexivity].
  intros e [<- | []]. cbn. auto.
Qed.

(** X16.  A submit with both fields filled makes exactly one call, to
    [signIn] in login mode and to [signUp] otherwise, with the email and
    the password as typed.  Whatever the answer, the loading flag is
    down at the end, and an error message is shown exactly when the call
    did not succeed (it is then never empty).  The page navigates to "/"
    exactly after a successful sign-in; a successful sign-up switches to
    login mode instead. *)
Theorem submit_outcome (s : Auth.State) (a : Auth.Answer) :
  Auth.email s <> "" -> Auth.password s <> "" ->
  let s' := fst (Auth.submit a s) in
  let es := snd (Auth.submit a s) in
  (exists rest,
      es = Auth.PreventDefault
           :: (if Auth.isLogin s
               then Auth.SignIn (Auth.email s) (Auth.password s)
               else Auth.SignUp (Auth.email s) (Auth.password s))
           :: rest
      /\ forall e, In e rest -> ~ is_auth_call e)
  /\ Auth.loading s' = false
  /\ (Auth.error s' = "" <-> a = Auth.Succeeded)
  /\ (In (Auth.Navigate "/") es <-> a = Auth.Succeeded /\ Auth.isLogin s = true)
  /\ (a = Auth.Succeeded -> Auth.isLogin s' = true)
  /\ Auth.email s' = Auth.email s
  /\ Auth.password s' = Auth.password s.
Proof.
  intros He Hp. cbv zeta. unfold Auth.submit, Auth.handleSubmit.
  apply truthy_true in He, Hp. rewrite He, Hp. cbn [negb orb].
  pose proof shownError_not_empty as Hne.
  destruct a as [|m|]; destruct (Auth.isLogin s) eqn:El;
    cbn [Auth.handleSubmit_answered negb fst snd app];
    (split;
     [ eexists; split;
       [ reflexivity
       | intros e Hin; cbn in Hin; intuition (subst; cbn; auto) ] |]);
    (split; [reflexivity|]);
    (split;
     [ cbn; split; intros H; try reflexivity; try discriminate H;
       exfalso; eapply Hne; eassumption |]);
    (split;
     [ cbn; split;
       [ intros H; intuition (try discriminate; try congruence)
       | intros [H1 H2]; try discriminate H1; try discriminate H2; auto ] |]);
    (split; [cbn; intros H; try reflexivity; try discriminate H; assumption|]);
    split; reflexivity.
Qed.

(** X17.  The index page renders the dashboard only for a signed-in user
    once loading is over, and sends to "/auth" exactly when loading is
    over and nobody is signed in (it then renders nothing).  The guard
    of the index page and the guard of the sign-in page never both
    fire: whoever is sent to one page is not sent back by it. *)
Theorem guards_do_not_bounce (user : option string) (loading : bool) :
  (Index.view user loading = Index.DashboardPage
   <-> loading = false /\ exists u, user = Some u)
  /\ (Index.redirect user loading = Some "/auth"
      <-> loading = false /\ user = None)
  /\ (Index.redirect user loading <> None ->
      Index.view user loading = Index.Nothing /\ Auth.redirect user = None)
  /\ (Auth.redirect user <> None -> Index.redirect user loading = None).
Proof.
  unfold Index.view, Index.redirect, Auth.redirect.
  destruct loading, user as [u|]; cbn; repeat split;
    try discriminate; try contradiction; try congruence; eauto;
    try (intros [_ [u' H]]; discriminate H);
    try (intros [H _]; discriminate H);
    try (intros [_ H]; discriminate H).
Qed.

End AuthFurther.

(** ** The greeting *)

Section Greeting.

Import Dashboard.

Lemma before_at_no_at s i : String.get i (before_at s) <> Some "@"%char.
Proof.
  revert i. induction s as [|c s IH]; intros i; cbn [before_at].
  - destruct i; discriminate.
  - destruct (Ascii.eqb_spec c "@"%char) as [E|E].
    + destruct i; discriminate.
    + destruct i as [|i]; cbn; [congruence | apply IH].
Qed.

Lemma before_at_prefix name rest :
  (forall i, String.get i name <> Some "@"%char) ->
  before_at (name +:+ String "@" rest) = name.
Proof.
  induction name as [|c name IH]; intros H.
  - reflexivity.
  - rewrite append_cons. cbn [before_at].
    destruct (Ascii.eqb_spec c "@"%char) as [E|E].
    + exfalso. apply (H 0). cbn. congruence.
    + f_equal. apply IH. intros i. apply (H (S i)).
Qed.

(** X18.  The name in the greeting is never empty and never contains an
    '@'.  For an email whose part before the first '@' is not empty it is
    that part; without a user, without an email, or for an email that
    starts with '@', it is 'User'. *)
Theorem welcomeName_is_a_name :
  (forall email, welcomeName email <> ""
                 /\ forall i, String.get i (welcomeName email) <> Some "@"%char)
  /\ (forall name domain,
        name <> "" ->
        (forall i, String.get i name <> Some "@"%char) ->
        welcomeName (Some (name +:+ String "@" domain)) = name)
  /\ welcomeName None = "User"
  /\ (forall domain, welcomeName (Some (String "@" domain)) = "User").
Proof.
  split; [|split; [|split]].
  - intros email. unfold welcomeName, or_else.
    destruct email as [e|]; cbn [truthy].
    + destruct (before_at e) as [|c r] eqn:E; cbn [truthy].
      * split; [discriminate|]. intros i. do 5 (destruct i as [|i]; [discriminate|]).
        destruct i; discriminate.
      * split; [discriminate|]. intros i. rewrite <- E. apply before_at_no_at.
    + split; [discriminate|]. intros i. do 5 (destruct i as [|i]; [discriminate|]).
      destruct i; discriminate.
  - intros name domain Hn Hat. unfold welcomeName.
    rewrite before_at_prefix by exact Hat. rewrite or_else_spec.
    destruct (decide (name = "")); [contradiction | reflexivity].
  - reflexivity.
  - intros domain. reflexivity.
Qed.

End Greeting.

(** ** Runs of the page, further *)

Section RunsFurther.

Import Dashboard.

Lemma resume_loading a env w :
  loading (ui w) = false -> loading (ui (resume a env w)) = false.
Proof.
  intros H. destruct a; cbn [resume].
  - unfold fetchNotes_answered, store_call.
    destruct (fault env); [destruct (thrown env)|]; reflexivity.
  - unfold saveNote_update_answered.
    destruct (store_call _ _ _) as [tb [d|m]]; exact H.
  - unfold saveNote_insert_answered.
    destruct (store_call _ _ _) as [tb [d|m]]; exact H.
  - unfold deleteNote_answered.
    destruct (store_call _ _ _) as [tb [d|m]]; exact H.
  - unfold generateSummary_invoke_answered.
    destruct (fault env); [exact H|].
    destruct (reply env) as [s|]; [|exact H].
    destruct (truthy s); [|exact H].
    destruct (user w); exact H.
  - unfold generateSummary_update_answered.
    destruct (store_call _ _ _) as [tb [d|m]]; exact H.
Qed.

(** X19.  Once the first fetch has been answered the page never goes
    back to the loading spinner: no action of the user and no answer,
    failed or not, raises the loading flag again. *)
Theorem loading_never_returns (ls : list Label) (w w' : World) :
  loading (ui w) = false ->
  steps ls w = Some w' ->
  loading (ui w') = false /\ view (ui w') <> Spinner.
Proof.
  intros Hl Hs.
  assert (H : loading (ui w') = false).
  { revert w Hl Hs. induction ls as [|l ls IH]; intros w Hl Hs; simpl in Hs.
    - congruence.
    - destruct (step l w) as [w1|] eqn:E; [|discriminate].
      apply (IH w1); [|exact Hs].
      destruct (step_cases l w w1 E) as [(_ & _ & _ & Hq) | (i & env & a & -> & Ha & ->)].
      + congruence.
      + apply resume_loading. exact Hl. }
  split; [exact H|]. unfold view. rewrite H.
  destruct (filteredNotes (ui w')); [destruct (notes (ui w'))|]; discriminate.
Qed.

Lemma saveNote_new p w uid :
  user w = Some uid -> is_new p ->
  saveNote p w
  = await (AwaitInsert uid (Payload.title p) (Payload.content p))
      (emit [Insert uid (Payload.title p) (Payload.content p)]
         (render (setSavingNote true) w)).
Proof.
  intros Hu Hp. unfold saveNote. rewrite Hu. destruct Hp as [-> | ->]; reflexivity.
Qed.

(** X20.  Two create-saves of the same payload in flight together (the
    second one started from the keyboard while the first is pending)
    are both carried out: when the store accepts both under two
    different fresh keys, the list gains two notes with the same title
    and content, and the table two rows. *)
Theorem double_save_creates_two_notes
    (w : World) (p : Payload.t) (env1 env2 : Env) (uid : string) :
  user w = Some uid ->
  is_new p ->
  fault env1 = None -> fault env2 = None ->
  table w !! fresh_id env1 = None ->
  table w !! fresh_id env2 = None ->
  fresh_id env1 <> fresh_id env2 ->
  let made (env : Env) :=
    {| Note.id := fresh_id env; Note.user_id := uid;
       Note.title := Payload.title p; Note.content := Payload.content p;
       Note.summary := None;
       Note.created_at := now env; Note.updated_at := now env |} in
  exists w',
    steps [Answer (List.length (pending w)) env1;
           Answer (List.length (pending w)) env2]
          (saveNote p (saveNote p w)) = Some w'
    /\ notes (ui w') = made env2 :: made env1 :: notes (ui w)
    /\ is_Some (table w' !! fresh_id env1)
    /\ is_Some (table w' !! fresh_id env2)
    /\ pending w' = pending w.
Proof.
  intros Hu Hp Hf1 Hf2 Hk1 Hk2 Hne. cbv zeta.
  set (a := AwaitInsert uid (Payload.title p) (Payload.content p)).
  set (ins := Insert uid (Payload.title p) (Payload.content p)).
  set (mid := emit [ins] (render (setSavingNote true)
                (emit [ins] (render (setSavingNote true) w)))).
  assert (E0 : saveNote p (saveNote p w) = await a (await a mid)).
  { rewrite (saveNote_new p w uid Hu Hp).
    rewrite (saveNote_new p _ uid) by (exact Hu || exact Hp). reflexivity. }
  assert (E1 : step (Answer (List.length (pending w)) env1) (await a (await a mid))
               = Some (resume a env1 (await a mid))).
  { cbn [step pending await]. subst mid. cbn [pending emit render].
    rewrite <- app_assoc. cbn [app].
    rewrite (list_lookup_middle (pending w) [a] a (List.length (pending w)) eq_refl).
    f_equal. f_equal. unfold answered, await, emit, render. cbn. f_equal.
    rewrite <- app_assoc. cbn [app].
    clear. induction (pending w) as [|x l IH]; [reflexivity|]. simpl. f_equal. exact IH. }
  set (row1 := {| Store.user_id := uid; Store.title := Payload.title p;
                  Store.content := Payload.content p; Store.summary := None;
                  Store.created_at := now env1; Store.updated_at := now env1 |}).
  set (w1 := saveNote_done
               (emit [info_toast "Note created" "Your new note has been saved successfully."]
                  (render (setNotes (fun prev => Store.to_note (fresh_id env1) row1 :: prev))
                     (store (<[fresh_id env1 := row1]> (table w)) mid)))).
  assert (E2 : resume a env1 (await a mid) = await a w1).
  { subst a. cbn [resume]. unfold saveNote_insert_answered, store_call.
    rewrite Hf1. cbn [table await]. subst mid. cbn [table emit render].
    unfold Store.insert_note. rewrite Hk1. reflexivity. }
  assert (E3 : step (Answer (List.length (pending w)) env2) (await a w1)
               = Some (resume a env2 w1)).
  { exact (answer_last a env2 w1). }
  cbn [steps]. rewrite E0, E1, E2, E3.
  eexists. split; [reflexivity|].
  subst a. cbn [resume]. unfold saveNote_insert_answered, store_call.
  rewrite Hf2. subst w1 mid. cbn [table saveNote_done emit render store].
  unfold Store.insert_note. rewrite lookup_insert_ne by exact Hne. rewrite Hk2.
  cbn. split; [reflexivity|]. split; [|split; [|reflexivity]].
  - rewrite lookup_insert_ne by congruence. rewrite lookup_insert_eq. eauto.
  - rewrite lookup_insert_eq. eauto.
Qed.


End RunsFurther.

(** ** The further properties at concrete inputs *)

Section FurtherWitnesses.

Import Dashboard.

Lemma hello_reported :
  In (Editor.OnSave {| Payload.id := None; Payload.title := "Untitled Note";
                       Payload.content := "hello" |})
     (Editor.handleSave (new_editor false) (typed "" " hello ")).
Proof. left. reflexivity. Qed.

Lemma saved_payload_is_normalized_witness :
  trim "Untitled Note" = "Untitled Note" /\ trim "hello" = "hello".
Proof.
  destruct (saved_payload_is_normalized (new_editor false) (typed "" " hello ") _
              hello_reported) as (_ & Ht & Hc & _).
  split; [exact Ht | exact Hc].
Defined.

Lemma reopen_and_save_is_identity_witness :
  Editor.handleSave (editing hello_note false) (Editor.seed (Some hello_note))
  = [Editor.OnSave {| Payload.id := Some "n6"; Payload.title := "Untitled Note";
                      Payload.content := "hello" |}].
Proof.
  exact (reopen_and_save_is_identity (new_editor false) (typed "" " hello ") _
           hello_note false hello_reported eq_refl eq_refl).
Defined.

Lemma truncateText_bounds_witness :
  Card.truncateText "abcdef" 3 = "abc..."
  /\ String.length (Card.truncateText "abcdef" 3) = 6.
Proof.
  apply (proj2 (proj2 (proj2 (proj1 truncateText_bounds "abcdef" 3)))).
  simpl. lia.
Defined.

Lemma longer_term_narrows_witness :
  sublist
    (Search.filteredNotes [Search.of_note sample_note; Search.of_note budget_note]
       (Utf16.of_latin1 "budget"))
    (Search.filteredNotes [Search.of_note sample_note; Search.of_note budget_note]
       (Utf16.of_latin1 "bud")).
Proof.
  apply (proj1 (longer_term_narrows
                  [Search.of_note sample_note; Search.of_note budget_note]
                  (Utf16.of_latin1 "bud") eq_refl)
               [] (Utf16.of_latin1 "get")); reflexivity.
Defined.

Lemma view_cases_witness :
  view (ui sample_world) = Grid [sample_note]
  /\ view (setSearchTerm "q4" (ui sample_world)) = NoMatchingNotes.
Proof.
  split.
  - apply (proj2 (proj2 (proj2 (proj2 (view_cases (ui sample_world) eq_refl))))).
    + reflexivity.
    + discriminate.
  - apply (proj1 (proj2 (view_cases (setSearchTerm "q4" (ui sample_world)) eq_refl))).
    split; [discriminate|]. intros n [<- | []]. reflexivity.
Defined.

Lemma fetch_lists_own_notes_newest_first_witness :
  exists w', fetch_run (at_time 1 None) (start (Some "u") shared_table) = Some w'
             /\ loading (ui w') = false
             /\ forall n, In n (notes (ui w')) -> Note.user_id n = "u".
Proof.
  destruct (fetch_lists_own_notes_newest_first (start (Some "u") shared_table)
              (at_time 1 None) "u" eq_refl)
    as (w' & Hs & Hl & _ & _ & Hok & _).
  exists w'. split; [exact Hs|]. split; [exact Hl|].
  exact (proj1 (proj2 (Hok eq_refl))).
Defined.

Lemma page_never_touches_foreign_rows_witness :
  exists w,
    steps [Mount; Answer 0 (at_time 1 None); ClickDelete sample_note;
           Answer 0 (at_time 2 None)]
          (start (Some "u") shared_table) = Some w
    /\ table w !! "n9" = Some foreign_row.
Proof.
  destruct (steps [Mount; Answer 0 (at_time 1 None); ClickDelete sample_note;
                   Answer 0 (at_time 2 None)]
                  (start (Some "u") shared_table)) as [w|] eqn:E;
    [|vm_compute in E; discriminate E].
  exists w. split; [reflexivity|].
  apply (page_never_touches_foreign_rows "u" shared_table _ w E "n9" foreign_row).
  - discriminate.
  - reflexivity.
Defined.

Lemma list_holds_own_notes_witness :
  open_reachable (store {["n1" := summarized_row]} sample_world)
  /\ user (store {["n1" := summarized_row]} sample_world)
     = Some (Note.user_id sample_note).
Proof.
  split; [exact stale_world_open|].
  apply (proj1 list_holds_own_notes
           (store {["n1" := summarized_row]} sample_world) stale_world_open).
  left. reflexivity.
Defined.

Lemma busy_flags_have_a_call_in_flight_witness :
  exists w,
    steps [ClickNew; EditorClickSave (typed "" "x")] sample_world = Some w
    /\ savingNote (ui w) = true
    /\ exists a, In a (pending w) /\ is_save a.
Proof.
  destruct (steps [ClickNew; EditorClickSave (typed "" "x")] sample_world)
    as [w|] eqn:E; [|vm_compute in E; discriminate E].
  assert (Hs : savingNote (ui w) = true)
    by (vm_compute in E; injection E as <-; reflexivity).
  exists w. split; [reflexivity|]. split; [exact Hs|].
  exact (proj1 (busy_flags_have_a_call_in_flight w
                  (steps_reachable _ _ _ sample_world_reachable E)) Hs).
Defined.

Lemma create_save_prepends_the_new_note_witness :
  exists w', create_save new_idea (at_time 2 None) sample_world = Some w'
             /\ List.length (notes (ui w')) = 2.
Proof.
  destruct (create_save_prepends_the_new_note sample_world new_idea (at_time 2 None) "u"
              eq_refl (or_introl eq_refl) eq_refl eq_refl)
    as (w' & r & Hs & Hn & _).
  exists w'. split; [exact Hs|]. rewrite Hn. reflexivity.
Defined.



Lemma ok_response_carries_a_summary_witness :
  exists s, Edge.body (Edge.handler post_with_content good_upstream)
            = Some (Edge.JObj [("summary", s)])
            /\ Edge.truthy_value (Some s) = true.
Proof.
  destruct (proj1 (proj2 (ok_response_carries_a_summary post_with_content good_upstream)))
    as (response & data & s & _ & _ & _ & _ & Ht & Hb).
  - discriminate.
  - reflexivity.
  - exists s. split; [exact Hb | exact Ht].
Defined.

Lemma submit_with_an_empty_field_calls_nothing_witness :
  Auth.submit Auth.Succeeded Auth.initial
  = (Auth.setError "Please fill in all fields" Auth.initial, [Auth.PreventDefault]).
Proof.
  exact (proj1 (submit_with_an_empty_field_calls_nothing Auth.initial Auth.Succeeded
                  (or_introl eq_refl))).
Defined.

Lemma submit_outcome_witness :
  Auth.loading (fst (Auth.submit (Auth.Failed "Invalid login credentials") filled_form))
  = false
  /\ In (Auth.Navigate "/") (snd (Auth.submit Auth.Succeeded filled_form)).
Proof.
  split.
  - refine (proj1 (proj2 (submit_outcome filled_form
                            (Auth.Failed "Invalid login credentials") _ _)));
      discriminate.
  - refine (proj2 (proj1 (proj2 (proj2 (proj2
              (submit_outcome filled_form Auth.Succeeded _ _))))) _);
      [discriminate | discriminate | split; reflexivity].
Defined.

Lemma guards_do_not_bounce_witness :
  Index.view None false = Index.Nothing /\ Auth.redirect None = None.
Proof.
  apply (proj1 (proj2 (proj2 (guards_do_not_bounce None false)))).
  discriminate.
Defined.

Lemma alice_has_no_at i : String.get i "alice" <> Some "@"%char.
Proof. do 5 (destruct i as [|i]; [discriminate|]). destruct i; discriminate. Qed.

Lemma welcomeName_is_a_name_witness :
  welcomeName (Some "alice@example.com") = "alice".
Proof.
  apply (proj1 (proj2 welcomeName_is_a_name) "alice" "example.com").
  - discriminate.
  - exact alice_has_no_at.
Defined.

Lemma loading_never_returns_witness :
  exists w', steps [ClickNew; Mount] sample_world = Some w'
             /\ loading (ui w') = false.
Proof.
  destruct (steps [ClickNew; Mount] sample_world) as [w'|] eqn:E;
    [|vm_compute in E; discriminate E].
  exists w'. split; [reflexivity|].
  exact (proj1 (loading_never_returns _ sample_world w' eq_refl E)).
Defined.

Lemma double_save_creates_two_notes_witness :
  exists w',
    steps [Answer 0 (fresh_at "n2" 2); Answer 0 (fresh_at "n3" 3)]
          (saveNote new_idea (saveNote new_idea sample_world)) = Some w'
    /\ List.length (notes (ui w')) = 3.
Proof.
  destruct (double_save_creates_two_notes sample_world new_idea
              (fresh_at "n2" 2) (fresh_at "n3" 3) "u"
              eq_refl (or_introl eq_refl) eq_refl eq_refl eq_refl eq_refl
              ltac:(discriminate))
    as (w' & Hs & Hn & _).
  exists w'. split; [exact Hs|]. rewrite Hn. reflexivity.
Defined.


End FurtherWitnesses.

(** ** Word counts of saved content *)

Section SavedWordCounts.

Import Dashboard.

(** X22.  For content as the editor saves it, when it is not empty, the
    card and the "Total Words" stat count the words the editor counted:
    the two rules differ only on empty content and on content with
    white space at its ends, which the editor never saves. *)
Theorem saved_content_counts_agree
    (pr : Editor.Props) (st : Editor.State) (p : Payload.t) (n : Note.t) :
  In (Editor.OnSave p) (Editor.handleSave pr st) ->
  Payload.content p <> "" ->
  Note.content n = Payload.content p ->
  Card.words n = Editor.wordCount (Editor.content st)
  /\ totalWords (setNotes (fun _ => [n]) initial)
     = Editor.wordCount (Editor.content st).
Proof.
  intros H Hne Hc.
  destruct (saved_payload_facts pr st p H) as (_ & _ & Htc).
  apply handleSave_payload in H as [-> _]. cbn in Htc, Hne, Hc.
  assert (E : Card.words n = Editor.wordCount (Editor.content st)).
  { unfold Card.words. rewrite Hc.
    rewrite (word_counts_agree_on_trimmed _ Htc Hne).
    unfold Editor.wordCount. now rewrite trim_idem. }
  split; [exact E|].
  unfold totalWords. rewrite fold_words.
  cbn [notes setNotes initial map]. unfold list_sum. cbn [fold_right].
  rewrite E. lia.
Qed.

Lemma saved_content_counts_agree_witness :
  Card.words hello_note = Editor.wordCount " hello ".
Proof.
  exact (proj1 (saved_content_counts_agree (new_editor false) (typed "" " hello ") _
                  hello_note hello_reported ltac:(discriminate) eq_refl)).
Defined.

End SavedWordCounts.
